(** * Active-learning curation pipeline: ingest, triage, dataset assembly

    A shallow embedding of [active_learning_pipeline.py] and the proofs of
    its specified properties.

    Conventions of the embedding:
    - a directory is a finite map from file names to file contents
      ([gmap string string]); a file content is a byte string, and Rocq's
      [string] is a sequence of 8-bit characters;
    - Python [int] is [Z]; a finite floating-point number is the rational
      ([Q]) it denotes, so comparisons are the ones of the ordered field and
      [==] is equality of values; an operation that rounds (the float32
      subtraction of the margin, the double products of [stage_prep] and
      [video_to_frames]) is the exact result rounded to the nearest number
      of the format, ties to even ([Float.round32], [Float.round64]);
      infinities and NaN are not modelled;
    - a Python exception is carried as the text of its [repr];
    - the detection model, the random shuffle, OpenCV and the failures of
      file operations are oracles passed in explicitly. *)

From Stdlib Require Import ZArith QArith Qabs Qround Qpower String Ascii List Lia Bool.
From Stdlib Require Import DecimalString.
From stdpp Require Import base option list sorting gmap strings fin_maps.

Open Scope string_scope.
Open Scope list_scope.

(** ** [pathlib]: the parts of a file name *)

Module Pathlib.

(** [str.rfind(c)]: highest index of [c] in [s], [None] for Python's -1. *)
Fixpoint rfind (c : ascii) (s : string) : option nat :=
  match s with
  | EmptyString => None
  | String a s' =>
      match rfind c s' with
      | Some i => Some (S i)
      | None => if Ascii.eqb a c then Some 0%nat else None
      end
  end.

(** The guard [0 < i < len(name) - 1] of [PurePath.suffix] and
    [PurePath.stem]. *)
Definition splits (name : string) (i : nat) : bool :=
  (0 <? i)%nat && (i <? String.length name - 1)%nat.

(** [PurePath.suffix]: the last dot-separated part, with its dot. *)
Definition suffix (name : string) : string :=
  match rfind "." name with
  | Some i =>
      if splits name i
      then substring i (String.length name - i) name
      else ""
  | None => ""
  end.

(** [PurePath.stem]: the name without its suffix. *)
Definition stem (name : string) : string :=
  match rfind "." name with
  | Some i => if splits name i then substring 0 i name else name
  | None => name
  end.

(** [PurePath.with_suffix(suf)] on the file name. *)
Definition with_suffix (name suf : string) : string := stem name +:+ suf.

(** [str.lower()] on a name held as its UTF-8 bytes. An ASCII capital
    becomes its small letter. One character outside ASCII has an ASCII
    lower case: U+212A KELVIN SIGN (bytes E2 84 AA) becomes [k]. The lower
    case of every other character outside ASCII has a character outside
    ASCII, and its bytes are left as they are: the result is only tested for
    membership in lists of ASCII suffixes, which such a string is not in
    either way. *)
Definition lower_ascii (a : ascii) : ascii :=
  let n := nat_of_ascii a in
  if (65 <=? n)%nat && (n <=? 90)%nat then ascii_of_nat (n + 32) else a.

Definition is_byte (n : nat) (a : ascii) : bool := (nat_of_ascii a =? n)%nat.

Fixpoint lower (s : string) : string :=
  match s with
  | EmptyString => EmptyString
  | String a s1 =>
      match s1 with
      | String b (String c s3) =>
          if is_byte 226 a && is_byte 132 b && is_byte 170 c
          then String "k" (lower s3)
          else String (lower_ascii a) (lower s1)
      | _ => String (lower_ascii a) (lower s1)
      end
  end.

End Pathlib.

(** ** Configuration *)

Definition IMAGE_EXTS : list string := [".jpg"; ".jpeg"; ".png"; ".bmp"; ".webp"].

(** The test [p.suffix.lower() in IMAGE_EXTS]. *)
Definition is_image (name : string) : bool :=
  bool_decide (Pathlib.lower (Pathlib.suffix name) ∈ IMAGE_EXTS).

(** ** [hashlib]: SHA-1 over a byte string (FIPS 180-4), on 32-bit words
    held in [Z] with the wrap-around written out. *)

Module Hashlib.
Open Scope Z_scope.

Definition w32 (x : Z) : Z := x mod 2 ^ 32.
Definition rotl (n x : Z) : Z := Z.lor (w32 (Z.shiftl x n)) (Z.shiftr x (32 - n)).
Definition not32 (x : Z) : Z := Z.lxor x 0xFFFFFFFF.

Fixpoint bytes_of (s : string) : list Z :=
  match s with
  | EmptyString => []
  | String a s' => Z.of_N (N_of_ascii a) :: bytes_of s'
  end.

(** Big-endian bytes of [x], [n] of them. *)
Fixpoint be_bytes (n : nat) (x : Z) : list Z :=
  match n with
  | O => []
  | S n' => be_bytes n' (Z.shiftr x 8) ++ [Z.land x 0xFF]
  end.

Definition pad (msg : list Z) : list Z :=
  let len := Z.of_nat (length msg) in
  let k := (55 - len) mod 64 in
  msg ++ [0x80] ++ repeat 0 (Z.to_nat k) ++ be_bytes 8 (8 * len).

Fixpoint words_of (fuel : nat) (bs : list Z) : list Z :=
  match fuel, bs with
  | S fuel', b0 :: b1 :: b2 :: b3 :: rest =>
      (Z.shiftl b0 24 + Z.shiftl b1 16 + Z.shiftl b2 8 + b3) :: words_of fuel' rest
  | _, _ => []
  end.

Definition f_round (t b c d : Z) : Z :=
  if t <? 20 then Z.lor (Z.land b c) (Z.land (not32 b) d)
  else if t <? 40 then Z.lxor (Z.lxor b c) d
  else if t <? 60 then Z.lor (Z.lor (Z.land b c) (Z.land b d)) (Z.land c d)
  else Z.lxor (Z.lxor b c) d.

Definition k_round (t : Z) : Z :=
  if t <? 20 then 0x5A827999
  else if t <? 40 then 0x6ED9EBA1
  else if t <? 60 then 0x8F1BBCDC
  else 0xCA62C1D6.

Definition hstate : Type := Z * Z * Z * Z * Z.

(** The 80 rounds; [win] is the sliding window w[t..t+15] of the message
    schedule. *)
Fixpoint rounds (n : nat) (t : Z) (win : list Z) (st : hstate) : hstate :=
  match n with
  | O => st
  | S n' =>
      let '(a, b, c, d, e) := st in
      let wt := nth 0 win 0 in
      let nxt := rotl 1 (Z.lxor (Z.lxor (Z.lxor (nth 13 win 0) (nth 8 win 0))
                                        (nth 2 win 0)) wt) in
      let tmp := w32 (rotl 5 a + f_round t b c d + e + k_round t + wt) in
      rounds n' (t + 1) (tl win ++ [nxt]) (tmp, a, rotl 30 b, c, d)
  end.

Definition compress (h : hstate) (block : list Z) : hstate :=
  let '(h0, h1, h2, h3, h4) := h in
  let '(a, b, c, d, e) := rounds 80 0 block h in
  (w32 (h0 + a), w32 (h1 + b), w32 (h2 + c), w32 (h3 + d), w32 (h4 + e)).

Fixpoint blocks (fuel : nat) (ws : list Z) (h : hstate) : hstate :=
  match fuel, ws with
  | S fuel', _ :: _ => blocks fuel' (skipn 16 ws) (compress h (firstn 16 ws))
  | _, _ => h
  end.

Definition sha1 (s : string) : hstate :=
  let bs := pad (bytes_of s) in
  let ws := words_of (length bs) bs in
  blocks (length ws) ws (0x67452301, 0xEFCDAB89, 0x98BADCFE, 0x10325476, 0xC3D2E1F0).

Definition hex_digit (x : Z) : ascii :=
  nth (Z.to_nat x)
      ["0";"1";"2";"3";"4";"5";"6";"7";"8";"9";"a";"b";"c";"d";"e";"f"]%char "0"%char.

Fixpoint hex (n : nat) (x : Z) (acc : string) : string :=
  match n with
  | O => acc
  | S n' => hex n' (Z.shiftr x 4) (String (hex_digit (Z.land x 0xF)) acc)
  end.

(** [hashlib.sha1(data).hexdigest()] *)
Definition hexdigest (s : string) : string :=
  let '(h0, h1, h2, h3, h4) := sha1 s in
  hex 8 h0 (hex 8 h1 (hex 8 h2 (hex 8 h3 (hex 8 h4 "")))).

End Hashlib.

(** ** The working tree *)

Definition joinpath (a b : string) : string := a +:+ "/" +:+ b.
Declare Scope path_scope.
Delimit Scope path_scope with path.
Infix "/" := joinpath : path_scope.

Definition ROOT : string := ".".
Definition INCOMING_IMG : string := (ROOT / "incoming" / "images")%path.
Definition INCOMING_VID : string := (ROOT / "incoming" / "videos")%path.
Definition DATASET : string := (ROOT / "dataset")%path.
Definition UNLABELED_DIR : string := (DATASET / "unlabeled")%path.
Definition TO_LABEL_DIR : string := (DATASET / "to_label")%path.
Definition AUTOLABELED_DIR : string := (DATASET / "autolabeled")%path.
Definition LABELED_DIR : string := (DATASET / "labeled")%path.
Definition YOLO_OUT : string := (DATASET / "yolo")%path.
Definition YOLO_IMGS : string := (YOLO_OUT / "images")%path.
Definition YOLO_LABS : string := (YOLO_OUT / "labels")%path.

(** One row of the run log: the dict with keys [file], [route], [reason]. *)
Record row : Type := Row { file : string; route : string; reason : string }.

(** The persistent state: every directory with its files, the hash index
    [pipeline_runs/hash_index.json] (a JSON object digest -> file name,
    [None] while the file does not exist) and the run log
    [pipeline_runs/log.csv] ([None] while it does not exist). *)
Record filesystem : Type := Filesystem {
  dirs : gmap string (gmap string string);
  hash_index : option (gmap string string);
  LOG_CSV : option (list row)
}.

(** The files of directory [d]; a directory never written is empty. *)
Definition ls (fs : filesystem) (d : string) : gmap string string := dirs fs !!! d.

Definition set_dir (d : string) (m : gmap string string) (fs : filesystem) : filesystem :=
  {| dirs := <[d := m]> (dirs fs); hash_index := hash_index fs; LOG_CSV := LOG_CSV fs |}.

Definition set_hash_index (ix : gmap string string) (fs : filesystem) : filesystem :=
  {| dirs := dirs fs; hash_index := Some ix; LOG_CSV := LOG_CSV fs |}.

Definition write_file (d name data : string) (fs : filesystem) : filesystem :=
  set_dir d (<[name := data]> (ls fs d)) fs.

Definition unlink (d name : string) (fs : filesystem) : filesystem :=
  set_dir d (delete name (ls fs d)) fs.

(** [Path.exists()] *)
Definition file_exists (fs : filesystem) (d name : string) : bool :=
  bool_decide (is_Some (ls fs d !! name)).

(** [d.glob("*")]: the entries of [d] with their bytes, in the order the
    directory yields them. *)
Definition glob (fs : filesystem) (d : string) : list (string * string) :=
  map_to_list (ls fs d).

(** Order of [sorted] on paths of one directory: the order of the names. *)
Definition path_le (a b : string * string) : Prop := String.leb a.1 b.1 = true.

#[global] Instance path_le_dec (a b : string * string) : Decision (path_le a b).
Proof. unfold path_le. apply _. Defined.

Definition sorted (l : list (string * string)) : list (string * string) :=
  merge_sort path_le l.

(** The outcome of a call that may raise; an exception is its [repr]. *)
Inductive result (A : Type) : Type :=
| Ok (a : A)
| Raise (e : string).
Arguments Ok {A} a.
Arguments Raise {A} e.

Definition set_log (rows : list row) (fs : filesystem) : filesystem :=
  {| dirs := dirs fs; hash_index := hash_index fs; LOG_CSV := Some rows |}.

(** [save_log]: the new rows are appended to the rows already in the log.
    The log is held as the rows it has. [Some []] is the file that a run
    without rows writes when there is no log yet: [DataFrame([]).to_csv]
    writes a lone line feed, no header. On that file [pd.read_csv] raises
    [EmptyDataError], so the next [save_log] raises instead of writing. *)
Definition EmptyDataError : string := "EmptyDataError('No columns to parse from file')".

Definition save_log (rows : list row) (fs : filesystem) : result filesystem :=
  match LOG_CSV fs with
  | None => Ok (set_log rows fs)
  | Some [] => Raise EmptyDataError
  | Some old => Ok (set_log (old ++ rows) fs)
  end.

(** ** Numbers *)

(** [int(x)] on a float: truncation towards zero. *)
Definition py_int (x : Q) : Z := Z.quot (Qnum x) (Z.pos (Qden x)).

Definition Qltb (x y : Q) : bool := negb (Qle_bool y x).

#[global] Instance Qge_dec (x y : Q) : Decision (y <= x)%Q.
Proof. destruct (Qlt_le_dec x y) as [H|H]; [right; apply Qlt_not_le, H | left; exact H]. Defined.

(** Round to the nearest integer, ties to even: the rounding of Python's
    float formatting, on the exact value. *)
Definition round_half_even (x : Q) : Z :=
  let n := Qnum x in
  let d := Z.pos (Qden x) in
  let q := (n / d)%Z in
  let r := (n mod d)%Z in
  match (2 * r ?= d)%Z with
  | Lt => q
  | Gt => (q + 1)%Z
  | Eq => if Z.even q then q else (q + 1)%Z
  end.

(** Binary floating point: the numbers of a format of [prec] significant
    bits and least exponent [emin] are the multiples of [2 ^ (e - prec + 1)]
    in each binade [[2 ^ e, 2 ^ (e + 1))], [emin <= e] (below [2 ^ emin] the
    spacing stays the one of [emin]: subnormal numbers). The result of an
    arithmetic operation is the exact result rounded to the nearest number of
    the format, a tie to the one with an even significand. *)
Module Float.

(** The exponent [e] of the binade of [x]: [2 ^ e <= |x| < 2 ^ (e + 1)]. *)
Definition binade (x : Q) : Z :=
  let e0 := (Z.log2 (Z.abs (Qnum x)) - Z.log2 (Z.pos (Qden x)))%Z in
  if Qle_bool (2 ^ e0) (Qabs x) then e0 else (e0 - 1)%Z.

(** The spacing of the format around [x]. *)
Definition ulp (prec emin : Z) (x : Q) : Q :=
  (2 ^ (Z.max (binade x) emin - prec + 1))%Q.

Definition round (prec emin : Z) (x : Q) : Q :=
  if Qeq_bool x 0 then 0%Q
  else (inject_Z (round_half_even (x / ulp prec emin x)) * ulp prec emin x)%Q.

(** numpy's float32 and Python's float (binary64). *)
Definition round32 : Q -> Q := round 24 (-126).
Definition round64 : Q -> Q := round 53 (-1022).

End Float.

Fixpoint digits (n : nat) (x : Z) (acc : string) : string :=
  match n with
  | O => acc
  | S n' => digits n' (x / 10)%Z
              (String (ascii_of_nat (48 + Z.to_nat (x mod 10)%Z)) acc)
  end.

(** [f"{x:.<prec>f}"] *)
Definition format_f (prec : nat) (x : Q) : string :=
  let scale := (10 ^ Z.of_nat prec)%Z in
  let r := round_half_even (Qabs x * inject_Z scale) in
  (if Qltb x 0%Q then "-" else "")
  +:+ NilZero.string_of_uint (N.to_uint (Z.to_N (r / scale)%Z))
  +:+ (match prec with O => "" | _ => "." +:+ digits prec (r mod scale)%Z "" end).

(** [str(int)] *)
Definition str_int (z : Z) : string := NilZero.string_of_int (Z.to_int z).

(** [sep.join(lines)] *)
Fixpoint join (sep : string) (lines : list string) : string :=
  match lines with
  | [] => ""
  | [l] => l
  | l :: rest => l +:+ sep +:+ join sep rest
  end.

(** ** 1. Ingest *)

(** [sha1_of_file]: the hex digest of the bytes of the file; feeding the
    hash in chunks of 65536 bytes hashes the whole content. *)
Definition sha1_of_file (data : string) : string := Hashlib.hexdigest data.

(** The state threaded through the copy loop: [seen_hashes], the unlabeled
    pool and [new_paths]. *)
Definition ingest_state : Type := gmap string string * gmap string string * list string.

(** One iteration of the loop over [sorted(INCOMING_IMG.glob("*"))];
    [ip] is the entry with its bytes. *)
Definition ingest_one (st : ingest_state) (ip : string * string) : ingest_state :=
  let '(seen_hashes, unlabeled, new_paths) := st in
  if negb (is_image ip.1) then st
  else
    let h := sha1_of_file ip.2 in
    if bool_decide (is_Some (seen_hashes !! h)) then st
    else
      let dest := ip.1 in
      (<[h := dest]> seen_hashes, <[dest := ip.2]> unlabeled, new_paths ++ [dest]).

(** [stage_ingest], from the point where the frames of the incoming videos
    have been written to [INCOMING_IMG]: returns the new state and
    [new_paths] (the names under [UNLABELED_DIR]). *)
Definition stage_ingest (fs : filesystem) : filesystem * list string :=
  let seen_hashes := default ∅ (hash_index fs) in
  let '(seen_hashes', unlabeled', new_paths) :=
    fold_left ingest_one (sorted (glob fs INCOMING_IMG))
              (seen_hashes, ls fs UNLABELED_DIR, []) in
  (set_hash_index seen_hashes' (set_dir UNLABELED_DIR unlabeled' fs), new_paths).

(** ** 2. Select (active learning) *)

(** One detection of [res.boxes]: the entries of [boxes.cls], [boxes.conf]
    and [boxes.xywhn] at one index. *)
Record Detection : Type := mkDetection {
  det_cls : Q;
  det_conf : Q;
  det_xywhn : Q * Q * Q * Q
}.

(** What the run does not decide: the answer of [model.predict] for each
    image of the unlabeled pool ([res.boxes], [None] or the detections, or
    the exception raised); the value of [confs.mean()], which numpy computes
    in the precision of the array with a summation order of its own, and
    which only the reason text of a row shows; and the file operations that
    fail, by destination directory and file name. The confidences of the
    detections are float32 numbers. *)
Record environment : Type := Environment {
  predict : string -> result (option (list Detection));
  np_mean : list Q -> Q;
  copy_error : string -> string -> option string;
  write_error : string -> string -> option string;
  unlink_error : string -> string -> option string
}.

(** The mutable state of the loop of [stage_select]. *)
Record select_state : Type := SelectState {
  sel_fs : filesystem;
  stats : gmap string Z;
  rows : list row
}.

(** State and exceptions: the state reached is kept when a call raises. *)
Definition M (A : Type) : Type := select_state -> result A * select_state.

Definition ret {A : Type} (a : A) : M A := fun s => (Ok a, s).

Definition bind {A B : Type} (m : M A) (k : A -> M B) : M B :=
  fun s => match m s with
           | (Ok a, s') => k a s'
           | (Raise e, s') => (Raise e, s')
           end.

Definition raise {A : Type} (e : string) : M A := fun s => (Raise e, s).

Definition lift {A : Type} (r : result A) : M A := fun s => (r, s).

(** [try: body except Exception as e: handler(e)] *)
Definition try_except (body : M unit) (handler : string -> M unit) : M unit :=
  fun s => match body s with
           | (Ok a, s') => (Ok a, s')
           | (Raise e, s') => handler e s'
           end.

#[global] Instance M_ret : MRet M := @ret.
#[global] Instance M_bind : MBind M := fun A B k m => bind m k.

Definition modify_fs (f : filesystem -> filesystem) : M unit :=
  fun s => (Ok tt, {| sel_fs := f (sel_fs s); stats := stats s; rows := rows s |}).

(** [stats[key] += 1] *)
Definition incr (key : string) : M unit :=
  fun s => (Ok tt, {| sel_fs := sel_fs s;
                      stats := <[key := (stats s !!! key + 1)%Z]> (stats s);
                      rows := rows s |}).

(** [rows.append(r)] *)
Definition append_row (r : row) : M unit :=
  fun s => (Ok tt, {| sel_fs := sel_fs s; stats := stats s; rows := rows s ++ [r] |}).

(** [safe_copy(src_dir / name, dst_dir / name)] *)
Definition safe_copy_io (env : environment) (src_dir dst_dir name : string) : M unit :=
  fun s =>
    match copy_error env dst_dir name with
    | Some e => (Raise e, s)
    | None =>
        match ls (sel_fs s) src_dir !! name with
        | Some data => modify_fs (write_file dst_dir name data) s
        | None => (Raise "FileNotFoundError()", s)
        end
    end.

(** [img.unlink(missing_ok=True)] *)
Definition unlink_io (env : environment) (d name : string) : M unit :=
  fun s =>
    match unlink_error env d name with
    | Some e => (Raise e, s)
    | None => modify_fs (unlink d name) s
    end.

(** The text written by [write_yolo_labels]. *)
Definition yolo_line (b : Q * Q * Q * Q) (c : Z) : string :=
  let '(x, y, w, h) := b in
  str_int c +:+ " " +:+ format_f 6 x +:+ " " +:+ format_f 6 y +:+ " "
  +:+ format_f 6 w +:+ " " +:+ format_f 6 h.

Definition yolo_labels (boxes_xywhn : list (Q * Q * Q * Q)) (cls_ids : list Z) : string :=
  join (String (ascii_of_nat 10) "") (zip_with yolo_line boxes_xywhn cls_ids).

Definition write_yolo_labels (env : environment) (d name : string)
    (boxes_xywhn : list (Q * Q * Q * Q)) (cls_ids : list Z) : M unit :=
  fun s =>
    match write_error env d name with
    | Some e => (Raise e, s)
    | None => modify_fs (write_file d name (yolo_labels boxes_xywhn cls_ids)) s
    end.

(** [confs.max()] of a non-empty array. *)
Definition Qmax2 (x y : Q) : Q := if Qle_bool x y then y else x.

Definition np_max (confs : list Q) : Q :=
  match confs with
  | [] => 0%Q
  | c :: rest => fold_left Qmax2 rest c
  end.

(** [sorted(confs, reverse=True)] *)
Definition sorted_reverse (confs : list Q) : list Q :=
  merge_sort (fun a b => (b <= a)%Q) confs.

(** [sorted_confs[0] - (sorted_confs[1] if len(sorted_confs) > 1 else 0.0)];
    indexing the empty list raises. The entries are float32 scalars of
    numpy: the difference of two of them is rounded to float32; subtracting
    [0.0] changes nothing in any precision. *)
Definition float32_margin (confs : list Q) : result Q :=
  let sorted_confs := sorted_reverse confs in
  match sorted_confs !! 0%nat with
  | None => Raise "IndexError('list index out of range')"
  | Some top =>
      Ok (if (1 <? length sorted_confs)%nat
          then Float.round32 (top - nth 1 sorted_confs 0)
          else top - 0)%Q
  end.

(** [(max_conf <= conf_low) or (conf_low < max_conf <= conf_high)
     or (margin < 0.10)] *)
Definition uncertain (conf_low conf_high max_conf margin : Q) : bool :=
  Qle_bool max_conf conf_low
  || (Qltb conf_low max_conf && Qle_bool max_conf conf_high)
  || Qltb margin 0.10%Q.

(** The steps shared by the three branches that send an image to a human:
    copy to [TO_LABEL_DIR], count, log, remove from the unlabeled pool. *)
Definition send_to_label (env : environment) (img reason : string) : M unit :=
  safe_copy_io env UNLABELED_DIR TO_LABEL_DIR img ;;
  incr "to_label" ;;
  append_row (Row img "to_label" reason) ;;
  unlink_io env UNLABELED_DIR img.

(** The steps of the confident branch: copy to [AUTOLABELED_DIR], write the
    annotation file next to the copy, count, log, remove from the unlabeled
    pool. *)
Definition auto_label (env : environment) (img : string)
    (xywhn : list (Q * Q * Q * Q)) (cls : list Z) (reason : string) : M unit :=
  safe_copy_io env UNLABELED_DIR AUTOLABELED_DIR img ;;
  write_yolo_labels env AUTOLABELED_DIR (Pathlib.stem img +:+ ".txt") xywhn cls ;;
  incr "autolabeled" ;;
  append_row (Row img "autolabeled" reason) ;;
  unlink_io env UNLABELED_DIR img.

(** The body of the [try] for one image. *)
Definition select_body (env : environment) (conf_low conf_high : Q) (img : string) : M unit :=
  (res ← lift (predict env img) ;
   let det_count := match res with None => 0%nat | Some boxes => length boxes end in
   if (det_count =? 0)%nat then send_to_label env img "no_detections"
   else
     match res with
     | None => send_to_label env img "no_detections"
     | Some boxes =>
         let confs := map det_conf boxes in
         let cls := map (fun b => py_int (det_cls b)) boxes in
         let xywhn := map det_xywhn boxes in
         let max_conf := if (length confs =? 0)%nat then 0%Q else np_max confs in
         let mean_conf := if (length confs =? 0)%nat then 0%Q else np_mean env confs in
         margin ← lift (float32_margin confs) ;
         if uncertain conf_low conf_high max_conf margin then
           send_to_label env img
             ("uncertain(max=" +:+ format_f 2 max_conf +:+ ",mean=" +:+ format_f 2 mean_conf
              +:+ ",margin=" +:+ format_f 2 margin +:+ ")")
         else
           auto_label env img xywhn cls ("confident(max=" +:+ format_f 2 max_conf +:+ ")")
     end).

(** One iteration of the loop of [stage_select]. *)
Definition select_one (env : environment) (conf_low conf_high : Q) (img : string) : M unit :=
  incr "scanned" ;;
  try_except (select_body env conf_low conf_high img)
    (fun e => incr "errors" ;; append_row (Row img "error" e)).

(** [for x in l: body(x)] *)
Fixpoint for_each {A : Type} (body : A -> M unit) (l : list A) : M unit :=
  match l with
  | [] => ret tt
  | x :: l' => body x ;; for_each body l'
  end.

Definition stats0 : gmap string Z :=
  <["scanned" := 0%Z]> (<["to_label" := 0%Z]> (<["autolabeled" := 0%Z]> (<["errors" := 0%Z]> ∅))).

(** The images [stage_select] scans:
    [sorted([p for p in UNLABELED_DIR.glob("*") if p.suffix.lower() in IMAGE_EXTS])]. *)
Definition unlabeled_images (fs : filesystem) : list string :=
  (sorted (filter (fun p => is_image p.1 = true) (glob fs UNLABELED_DIR))).*1.

(** [stage_select]; the loaded model and [imgsz] are part of [predict].
    [save_log] is called after the loop, outside the [try]: when it raises,
    the stage raises, with the files already moved and no counter returned. *)
Definition stage_select (env : environment) (conf_low conf_high : Q) (fs : filesystem)
    : result (gmap string Z) * filesystem :=
  match for_each (select_one env conf_low conf_high) (unlabeled_images fs)
                 (SelectState fs stats0 []) with
  | (Ok _, s) =>
      match save_log (rows s) (sel_fs s) with
      | Ok fs' => (Ok (stats s), fs')
      | Raise e => (Raise e, sel_fs s)
      end
  | (Raise e, s) => (Raise e, sel_fs s)
  end.

(** ** 3. Dataset assembly *)

(** A path: directory and file name. *)
Definition path : Type := string * string.

(** [safe_copy(src, dst)] for a source taken from a directory listing. *)
Definition safe_copy (src dst : path) (fs : filesystem) : filesystem :=
  match ls fs src.1 !! src.2 with
  | Some data => write_file dst.1 dst.2 data fs
  | None => fs
  end.

(** The pairs of directory [d]: the images with an annotation file next to
    them. *)
Definition gather (fs : filesystem) (d : string) : list (path * path) :=
  omap (fun e : string * string =>
          let img := e.1 in
          if negb (is_image img) then None
          else
            let txt := Pathlib.with_suffix img ".txt" in
            if negb (file_exists fs d txt) then None
            else Some ((d, img), (d, txt)))
       (glob fs d).

(** [enumerate(l)] *)
Definition enumerate {A : Type} (l : list A) : list (Z * A) :=
  imap (fun i x => (Z.of_nat i, x)) l.

Definition split_of (n_val i : Z) : string := if (i <? n_val)%Z then "val" else "train".

(** One iteration of the split-and-copy loop. *)
Definition copy_pair (n_val : Z) (fs : filesystem) (it : Z * (path * path)) : filesystem :=
  let '(i, (img, lab)) := it in
  let split := split_of n_val i in
  let dst_img := ((YOLO_IMGS / split)%path, img.2) in
  let dst_lab := ((YOLO_LABS / split)%path, lab.2) in
  safe_copy lab dst_lab (safe_copy img dst_img fs).

(** Removing every file of the four destination directories. *)
Definition clear_splits (fs : filesystem) : filesystem :=
  fold_left (fun fs p => set_dir p ∅ fs)
            [(YOLO_IMGS / "train")%path; (YOLO_IMGS / "val")%path;
             (YOLO_LABS / "train")%path; (YOLO_LABS / "val")%path] fs.

(** [n_total * val_split]: the integer becomes a double, exactly while it is
    below [2 ^ 53], and the product is rounded to a double. A list of
    [2 ^ 53] pairs or more does not exist on a machine; for such a length
    the product is left exact. A product beyond the largest double (a
    fraction around 1e308, where [int] raises [OverflowError]) is not
    modelled. *)
Definition float_product (n_total : Z) (val_split : Q) : Q :=
  if (n_total <? 2 ^ 53)%Z then Float.round64 (inject_Z n_total * val_split)
  else (inject_Z n_total * val_split)%Q.

(** [n_val = max(1, int(n_total * val_split)) if n_total else 0] *)
Definition n_val_of (n_total : Z) (val_split : Q) : Z :=
  if (n_total =? 0)%Z then 0%Z else Z.max 1 (py_int (float_product n_total val_split)).

(** The list [sources] before the shuffle. *)
Definition sources_of (fs : filesystem) : list (path * path) :=
  gather fs LABELED_DIR ++ gather fs AUTOLABELED_DIR.

(** [stage_prep]; [shuffle] is the permutation [random.shuffle] applies. *)
Definition stage_prep (shuffle : list (path * path) -> list (path * path))
    (val_split : Q) (fs : filesystem) : filesystem * (Z * Z) :=
  let sources := shuffle (sources_of fs) in
  let n_total := Z.of_nat (length sources) in
  let n_val := n_val_of n_total val_split in
  let fs' := fold_left (copy_pair n_val) (enumerate sources) (clear_splits fs) in
  (fs', (Z.max 0 (n_total - n_val), n_val)).

(** ** Vocabulary of the statements *)

(** The order of [sorted(confs, reverse=True)]. *)
Definition Qge' (a b : Q) : Prop := (b <= a)%Q.

(** A list headed by an upper bound of its tail. *)
Definition headed (l : list Q) : Prop :=
  match l with
  | [] => True
  | x :: t => Forall (fun y => (y <= x)%Q) t
  end.

(** The margin over the reals, as the spec words it: the highest confidence
    minus the second highest, minus nothing when there is one confidence
    only. [float32_margin] is this value as the code's arithmetic gives it. *)
Definition margin_of (confs : list Q) : result Q :=
  let sorted_confs := sorted_reverse confs in
  match sorted_confs !! 0%nat with
  | None => Raise "IndexError('list index out of range')"
  | Some top =>
      Ok (top - (if (1 <? length sorted_confs)%nat then nth 1 sorted_confs 0 else 0))%Q
  end.

(** The collapsed form of the uncertainty predicate:
    [max_conf <= conf_high or margin < 0.10]. *)
Definition uncertain_collapsed (conf_high max_conf margin : Q) : bool :=
  Qle_bool max_conf conf_high || Qltb margin 0.10%Q.

(** The route counters of [stats]. *)
Definition is_route (rt : string) : Prop := rt = "to_label" \/ rt = "autolabeled".

(** The pool an image sent on route [rt] is copied to. *)
Definition pool_of (rt : string) : string :=
  if String.eqb rt "to_label" then TO_LABEL_DIR else AUTOLABELED_DIR.

(** [stats[key] += 1] on the dictionary alone. *)
Definition bump (key : string) (st : gmap string Z) : gmap string Z :=
  <[key := (st !!! key + 1)%Z]> st.

(** What the body of the [try] for image [x] may change, other than the
    entries of [x] itself: nothing outside the three pools, no other image of
    a pool, and in [AUTOLABELED_DIR] nothing but the annotation file of [x]. *)
Definition frame (x : string) (fs fs' : filesystem) : Prop :=
  (forall d, d ≠ UNLABELED_DIR -> d ≠ TO_LABEL_DIR -> d ≠ AUTOLABELED_DIR -> ls fs' d = ls fs d)
  /\ hash_index fs' = hash_index fs
  /\ LOG_CSV fs' = LOG_CSV fs
  /\ (forall y, y ≠ x -> ls fs' UNLABELED_DIR !! y = ls fs UNLABELED_DIR !! y)
  /\ (forall y, y ≠ x -> ls fs' TO_LABEL_DIR !! y = ls fs TO_LABEL_DIR !! y)
  /\ (forall y, y ≠ x -> y ≠ Pathlib.stem x +:+ ".txt" ->
        ls fs' AUTOLABELED_DIR !! y = ls fs AUTOLABELED_DIR !! y).

(** What the body of the [try] for image [x] does to [x], by its result
    [res]: when it returns, [x] has left the unlabeled pool for the pool of
    its route, with one row and one count; when it raises, [x] is still in
    the unlabeled pool, and a row and a count were added before the exception
    only when it is the removal from the unlabeled pool that failed. *)
Definition body_effect (env : environment) (x : string) (s s' : select_state)
    (res : result unit) : Prop :=
  match res with
  | Ok _ =>
      ls (sel_fs s') UNLABELED_DIR !! x = None
      /\ exists rt reason,
           is_route rt
           /\ rows s' = rows s ++ [Row x rt reason]
           /\ stats s' = bump rt (stats s)
           /\ ls (sel_fs s') (pool_of rt) !! x = ls (sel_fs s) UNLABELED_DIR !! x
           /\ is_Some (ls (sel_fs s) UNLABELED_DIR !! x)
  | Raise e =>
      ls (sel_fs s') UNLABELED_DIR !! x = ls (sel_fs s) UNLABELED_DIR !! x
      /\ ((rows s' = rows s /\ stats s' = stats s)
          \/ (exists rt reason,
                is_route rt
                /\ rows s' = rows s ++ [Row x rt reason]
                /\ stats s' = bump rt (stats s)
                /\ unlink_error env UNLABELED_DIR x = Some e))
  end.

(** The state after [stats["scanned"] += 1], and after the [except] clause
    for image [x] and exception [e]. *)
Definition scan (s : select_state) : select_state :=
  SelectState (sel_fs s) (bump "scanned" (stats s)) (rows s).

Definition log_error (x e : string) (s : select_state) : select_state :=
  SelectState (sel_fs s) (bump "errors" (stats s)) (rows s ++ [Row x "error" e]).

(** The exception, if any, that the body of the [try] raises for image [x]
    of the unlabeled pool of [fs]. *)
Definition raises (env : environment) (conf_low conf_high : Q) (fs : filesystem)
    (x : string) : option string :=
  match (select_body env conf_low conf_high x (SelectState fs stats0 [])).1 with
  | Raise e => Some e
  | Ok _ => None
  end.

(** The rows that the body of the [try] appends for image [x] of the
    unlabeled pool of [fs]. *)
Definition logged (env : environment) (conf_low conf_high : Q) (fs : filesystem)
    (x : string) : list row :=
  rows (select_body env conf_low conf_high x (SelectState fs stats0 [])).2.

(** What a run of the loop over the images [l] leaves alone. *)
Definition loop_frame (l : list string) (fs fs' : filesystem) : Prop :=
  (forall d, d ≠ UNLABELED_DIR -> d ≠ TO_LABEL_DIR -> d ≠ AUTOLABELED_DIR -> ls fs' d = ls fs d)
  /\ hash_index fs' = hash_index fs
  /\ LOG_CSV fs' = LOG_CSV fs
  /\ (forall y, y ∉ l ->
        ls fs' UNLABELED_DIR !! y = ls fs UNLABELED_DIR !! y
        /\ ls fs' TO_LABEL_DIR !! y = ls fs TO_LABEL_DIR !! y
        /\ (is_image y = true -> ls fs' AUTOLABELED_DIR !! y = ls fs AUTOLABELED_DIR !! y)).

(** The counters add up: every scanned image is counted once. *)
Definition accounted (st : gmap string Z) : Prop :=
  (st !!! "scanned" = st !!! "to_label" + st !!! "autolabeled" + st !!! "errors")%Z.

(** No file operation on image [y] fails. *)
Definition faultless (env : environment) (y : string) : Prop :=
  copy_error env TO_LABEL_DIR y = None
  /\ copy_error env AUTOLABELED_DIR y = None
  /\ write_error env AUTOLABELED_DIR (Pathlib.stem y +:+ ".txt") = None
  /\ unlink_error env UNLABELED_DIR y = None.

(** The log after [save_log] has appended [new] to the log of [fs]. *)
Definition log_extended (fs fs' : filesystem) (new : list row) : Prop :=
  LOG_CSV fs' = Some (default [] (LOG_CSV fs) ++ new).

(** ** Fixtures of the examples *)

(** A detection of confidence [c]. *)
Definition det (c : Q) : Detection := mkDetection 0 c (0.5, 0.5, 0.2, 0.2)%Q.

(** The mean without rounding, for the environments of the examples. *)
Definition exact_mean (confs : list Q) : Q :=
  (fold_right Qplus 0 confs / inject_Z (Z.of_nat (length confs)))%Q.

(** An environment in which no file operation fails. *)
Definition quiet (p : string -> result (option (list Detection))) : environment :=
  Environment p exact_mean (fun _ _ => None) (fun _ _ => None) (fun _ _ => None).

(** A tree with the given files in directory [d] and nothing else. *)
Definition tree_with (d : string) (files : list (string * string)) : filesystem :=
  Filesystem {[ d := list_to_map files ]} None None.

(** The pairs (file, route) of the run log. *)
Definition routes_logged (fs : filesystem) : list (string * string) :=
  (fun r => (file r, route r)) <$> default [] (LOG_CSV fs).

(** Two detections whose float32 confidences, 0.125 and 0.025, are 0.10
    apart on paper. *)
Definition two_close : list Detection := [det 0.125%Q; det (Float.round32 0.025)].

(** One image in the unlabeled pool. *)
Definition one_image : filesystem := tree_with UNLABELED_DIR [("img.jpg", "bytes")].

(** The run of the stage on [one_image] when the model answers [boxes], with
    the thresholds of the command line defaults. *)
Definition triage_of (boxes : list Detection) : result (gmap string Z) * filesystem :=
  stage_select (quiet (fun _ => Ok (Some boxes))) 0.15%Q 0.45%Q one_image.

(** Three images in the unlabeled pool, the second of which the model cannot
    read. *)
Definition three_images : filesystem :=
  tree_with UNLABELED_DIR [("a.jpg", "A"); ("b.jpg", "B"); ("c.jpg", "C")].

Definition one_corrupt : environment :=
  quiet (fun img => if String.eqb img "b.jpg" then Raise "OSError('image file is truncated')"
                    else if String.eqb img "a.jpg" then Ok (Some [det 0.9%Q])
                    else Ok (Some [])).

(** An unlabeled pool whose files can be read but not removed. *)
Definition read_only_pool : environment :=
  Environment (fun _ => Ok (Some [])) exact_mean (fun _ _ => None) (fun _ _ => None)
              (fun _ _ => Some "PermissionError(13, 'Permission denied')").

(** Every file of the unlabeled pool is the file its digest is indexed
    under: the state ingestion leaves, starting from an empty pool. *)
Definition pool_indexed (fs : filesystem) : Prop :=
  forall n c, ls fs UNLABELED_DIR !! n = Some c ->
              default ∅ (hash_index fs) !! sha1_of_file c = Some n.

(** The loop of [stage_ingest] on the tree [fs]. *)
Definition ingest_loop (fs : filesystem) : ingest_state :=
  fold_left ingest_one (sorted (glob fs INCOMING_IMG))
            (default ∅ (hash_index fs), ls fs UNLABELED_DIR, []).

(** The tree [fs] with the incoming images replaced by [files]. *)
Definition with_incoming (files : gmap string string) (fs : filesystem) : filesystem :=
  set_dir INCOMING_IMG files fs.

(** A tree with nothing but the incoming images [files]. *)
Definition fresh (files : gmap string string) : filesystem :=
  Filesystem {[ INCOMING_IMG := files ]} None None.

(** Incoming images: the same bytes under two names, and a third file. *)
Definition two_names : filesystem :=
  fresh {[ "a.jpg" := "X"; "b.png" := "X"; "c.jpg" := "first" ]}.

(** A pair of [sources] is an image of one of the two labelled pools together
    with the annotation file of the same stem next to it. *)
Definition matching_pair (fs : filesystem) (p : path * path) : Prop :=
  let '(img, lab) := p in
  (img.1 = LABELED_DIR \/ img.1 = AUTOLABELED_DIR)
  /\ lab = (img.1, Pathlib.with_suffix img.2 ".txt")
  /\ is_image img.2 = true
  /\ is_Some (ls fs img.1 !! img.2)
  /\ is_Some (ls fs lab.1 !! lab.2).

(** The split directories hold images and annotations in pairs: next to every
    file of an images directory there is the annotation file of the same stem
    in the labels directory of the same split. *)
Definition splits_paired (fs : filesystem) : Prop :=
  forall split name,
    split = "train" \/ split = "val" ->
    is_Some (ls fs (YOLO_IMGS / split)%path !! name) ->
    is_image name = true
    /\ is_Some (ls fs (YOLO_LABS / split)%path !! Pathlib.with_suffix name ".txt").

(** The labelled pools are as in [fs0]. *)
Definition pools_kept (fs0 fs : filesystem) : Prop :=
  ls fs LABELED_DIR = ls fs0 LABELED_DIR /\ ls fs AUTOLABELED_DIR = ls fs0 AUTOLABELED_DIR.

(** The annotation file names of a list of pairs. *)
Definition label_names (l : list (path * path)) : list string :=
  (fun p : path * path => p.2.2) <$> l.

(** [k] human-labelled images, each with its annotation file. *)
Definition numbered_pairs (k : nat) : filesystem :=
  tree_with LABELED_DIR
    (flat_map (fun i => [(str_int (Z.of_nat i) +:+ ".jpg", "image");
                         (str_int (Z.of_nat i) +:+ ".txt", "0 0.5 0.5 0.1 0.1")])
              (seq 0 k)).

(** Human-labelled and autolabelled files, some without annotation. *)
Definition labelled_tree : filesystem :=
  Filesystem {[ LABELED_DIR := {[ "a.jpg" := "A"; "a.txt" := "0 0.5 0.5 0.1 0.1";
                                  "b.jpg" := "B";
                                  "c.png" := "C"; "c.txt" := "" ]};
                AUTOLABELED_DIR := {[ "z.jpg" := "Z"; "z.txt" := "1 0.2 0.2 0.1 0.1" ]};
                (YOLO_IMGS / "train")%path := {[ "old.jpg" := "O" ]} ]} None None.

(** ** Further vocabulary *)

(** The images counted under a route or as an error. *)
Definition routed_total (st : gmap string Z) : Z :=
  (st !!! "to_label" + st !!! "autolabeled" + st !!! "errors")%Z.

(** The routes a row of the run log can have. *)
Definition is_log_route (rt : string) : Prop :=
  rt = "to_label" \/ rt = "autolabeled" \/ rt = "error".

(** A model that detects nothing, with no file operation failing. *)
Definition blind_model : environment := quiet (fun _ => Ok (Some [])).

(** The file [name] of directory [d] is one of the two that the iteration
    [it] of the copy loop of [stage_prep] writes. *)
Definition writes_to (n_val : Z) (it : Z * (path * path)) (d name : string) : Prop :=
  (d = (YOLO_IMGS / split_of n_val it.1)%path /\ name = it.2.1.2)
  \/ (d = (YOLO_LABS / split_of n_val it.1)%path /\ name = it.2.2.2).

(** The four directories of the assembled dataset. *)
Definition split_dirs : list string :=
  [(YOLO_IMGS / "train")%path; (YOLO_IMGS / "val")%path;
   (YOLO_LABS / "train")%path; (YOLO_LABS / "val")%path].

(** ** Frames of the incoming videos *)

Definition VIDEO_EXTS : list string := [".mp4"; ".mov"; ".avi"; ".mkv"; ".m4v"].

(** The test [vp.suffix.lower() in VIDEO_EXTS]. *)
Definition is_video (name : string) : bool :=
  bool_decide (Pathlib.lower (Pathlib.suffix name) ∈ VIDEO_EXTS).

(** An opened [cv2.VideoCapture]: the frame rate it reports
    ([CAP_PROP_FPS], 0 when the container does not give one) and the frames
    [cap.read()] returns before its first failure. *)
Record capture : Type := Capture { cap_fps : Q; cap_frames : list string }.

(** OpenCV as an oracle: [open_video name bytes] is [None] when
    [cap.isOpened()] is false; [imwrite name frame] is the encoded file
    [cv2.imwrite] writes, [None] when it writes nothing (it then returns
    [False], which the code does not look at). Both are taken to return:
    an exception of OpenCV would leave the stage, and is not modelled. *)
Record opencv : Type := OpenCV {
  open_video : string -> string -> option capture;
  imwrite : string -> string -> option string
}.

(** [s.zfill(width)] for a string of digits. *)
Definition zfill (width : nat) (s : string) : string :=
  string_of_list_ascii (repeat "0"%char (width - String.length s)) +:+ s.

(** [f"{video_path.stem}_f{count:06d}.jpg"] *)
Definition frame_name (stem : string) (count : Z) : string :=
  (stem +:+ "_f" +:+ zfill 6 (str_int count)) +:+ ".jpg".

(** [step = int(max(1, round(fps * every_n_sec)))] with
    [fps = cap.get(cv2.CAP_PROP_FPS) or 30.0]: the product of the two doubles
    is rounded to a double, and [round] takes that double to the nearest
    integer, ties to even. *)
Definition frame_step (fps every_n_sec : Q) : Z :=
  let fps := if Qeq_bool fps 0 then 30%Q else fps in
  Z.max 1 (round_half_even (Float.round64 (fps * every_n_sec))).

(** One iteration of the reading loop on a frame that was read; the state is
    the file system, [count] and [saved]. *)
Definition grab (cv : opencv) (out_dir stem : string) (step : Z)
    (st : filesystem * Z * Z) (frame : string) : filesystem * Z * Z :=
  let '(fs, count, saved) := st in
  if (count mod step =? 0)%Z then
    let name := frame_name stem count in
    (match imwrite cv name frame with
     | Some data => write_file out_dir name data fs
     | None => fs
     end, (count + 1)%Z, (saved + 1)%Z)
  else (fs, (count + 1)%Z, saved).

(** [video_to_frames(video_path, out_dir, every_n_sec)]; the video is given
    by its name and its bytes. Returns the file system and [saved]. *)
Definition video_to_frames (cv : opencv) (video : string * string) (out_dir : string)
    (every_n_sec : Q) (fs : filesystem) : filesystem * Z :=
  match open_video cv video.1 video.2 with
  | None => (fs, 0%Z)
  | Some cap =>
      let step := frame_step (cap_fps cap) every_n_sec in
      let '(fs', _, saved) :=
        fold_left (grab cv out_dir (Pathlib.stem video.1) step) (cap_frames cap)
                  (fs, 0%Z, 0%Z) in
      (fs', saved)
  end.

(** The first loop of [stage_ingest]: the frames of every video of
    [INCOMING_VID] are written to [INCOMING_IMG]. *)
Definition extract_one (cv : opencv) (fs : filesystem) (vp : string * string) : filesystem :=
  if negb (is_video vp.1) then fs else (video_to_frames cv vp INCOMING_IMG 1%Q fs).1.

Definition extract_videos (cv : opencv) (fs : filesystem) : filesystem :=
  fold_left (extract_one cv) (sorted (glob fs INCOMING_VID)) fs.

(** [stage_ingest] with its first loop: the frames are extracted, then the
    images are copied. *)
Definition stage_ingest_videos (cv : opencv) (fs : filesystem) : filesystem * list string :=
  stage_ingest (extract_videos cv fs).

(** A camera file of 30 frames per second holding 61 frames. *)
Definition two_seconds : opencv :=
  OpenCV (fun _ _ => Some (Capture 30%Q (repeat "F" 61)))
         (fun _ frame => Some frame).

(** U+212A KELVIN SIGN in UTF-8. *)
Definition kelvin_sign : string :=
  string_of_list_ascii [ascii_of_nat 226; ascii_of_nat 132; ascii_of_nat 170].

(** The number of counts below [c] that are multiples of [step]. *)
Definition saved_upto (step c : Z) : Z := ((c + step - 1) / step)%Z.

(** [s.count(c)] for a character [c]. *)
Fixpoint count_char (c : ascii) (s : string) : nat :=
  match s with
  | EmptyString => 0
  | String a s' => (if Ascii.eqb a c then 1 else 0) + count_char c s'
  end.

(** * Properties *)

(** ** Sanity checks of the library models *)

Example suffix_ex1 : Pathlib.suffix "lawn.01.JPG" = ".JPG".
Proof. reflexivity. Qed.
Example suffix_ex2 : Pathlib.suffix ".bashrc" = "".
Proof. reflexivity. Qed.
Example suffix_ex3 : Pathlib.suffix "trailing." = "".
Proof. reflexivity. Qed.
Example stem_ex1 : Pathlib.with_suffix "lawn.01.JPG" ".txt" = "lawn.01.txt".
Proof. reflexivity. Qed.
Example is_image_ex1 : is_image "lawn.01.JPG" = true.
Proof. reflexivity. Qed.
Example is_image_ex2 : is_image "lawn.txt" = false.
Proof. reflexivity. Qed.
Example sha1_empty : Hashlib.hexdigest "" = "da39a3ee5e6b4b0d3255bfef95601890afd80709".
Proof. vm_compute. reflexivity. Qed.
Example sha1_abc : Hashlib.hexdigest "abc" = "a9993e364706816aba3e25717850c26c9cd0d89d".
Proof. vm_compute. reflexivity. Qed.
Example sha1_two_blocks :
  Hashlib.hexdigest "abcdbcdecdefdefgefghfghighijhijkijkljklmklmnlmnomnopnopq"
  = "84983e441c3bd26ebaae4aa1f95129e5e54670f1".
Proof. vm_compute. reflexivity. Qed.

(** ** Floating point: rounding *)

Section Rounding.
Local Open Scope Q_scope.

Lemma round_half_even_floor (x : Q) :
  round_half_even x = Qfloor x
  \/ (round_half_even x = (Qfloor x + 1)%Z /\ inject_Z (Qfloor x) < x).
Proof.
  destruct x as [n d]. unfold round_half_even, Qfloor. cbn [Qnum Qden].
  pose proof (Z.div_mod n (Z.pos d) ltac:(lia)) as Hdm.
  pose proof (Z.mod_pos_bound n (Z.pos d) ltac:(lia)) as Hb.
  assert (Hlt : (0 < n mod Z.pos d)%Z -> inject_Z (n / Z.pos d) < n # d).
  { intros Hr. unfold Qlt, inject_Z. cbn [Qnum Qden]. nia. }
  destruct (Z.compare_spec (2 * (n mod Z.pos d)) (Z.pos d)) as [E|E|E].
  - destruct (Z.even (n / Z.pos d)); [by left|].
    right. split; [done|]. apply Hlt. lia.
  - by left.
  - right. split; [done|]. apply Hlt. lia.
Qed.

(** Rounding to the nearest integer does not cross an integer. *)
Lemma round_half_even_le (x : Q) (k : Z) : x <= inject_Z k -> (round_half_even x <= k)%Z.
Proof.
  intros Hx. destruct (round_half_even_floor x) as [-> | [-> Hlt]].
  - rewrite <- (Qfloor_Z k). by apply Qfloor_resp_le.
  - assert (H : inject_Z (Qfloor x) < inject_Z k) by (eapply Qlt_le_trans; eauto).
    rewrite <- Zlt_Qlt in H. lia.
Qed.

Lemma round_half_even_ge (x : Q) (k : Z) : inject_Z k <= x -> (k <= round_half_even x)%Z.
Proof.
  intros Hx.
  assert (H : (k <= Qfloor x)%Z).
  { rewrite <- (Qfloor_Z k). by apply Qfloor_resp_le. }
  destruct (round_half_even_floor x) as [-> | [-> _]]; lia.
Qed.

Lemma Qpower2_pos (e : Z) : 0 < 2 ^ e.
Proof. by apply Qpower_0_lt. Qed.

Lemma ulp_pos (prec emin : Z) (x : Q) : 0 < Float.ulp prec emin x.
Proof. apply Qpower2_pos. Qed.

(** A multiple of the spacing around [x] that is below [x] is below the
    rounded [x], and the same above. *)
Lemma round_ge_multiple (prec emin : Z) (x : Q) (m : Z) :
  inject_Z m * Float.ulp prec emin x <= x ->
  inject_Z m * Float.ulp prec emin x <= Float.round prec emin x.
Proof.
  intros H. unfold Float.round. destruct (Qeq_bool x 0) eqn:E.
  - apply Qeq_bool_iff in E. by rewrite <- E.
  - pose proof (ulp_pos prec emin x) as Hu.
    apply Qmult_le_compat_r; [|by apply Qlt_le_weak].
    rewrite <- Zle_Qle. apply round_half_even_ge.
    apply Qle_shift_div_l; done.
Qed.

Lemma round_le_multiple (prec emin : Z) (x : Q) (m : Z) :
  x <= inject_Z m * Float.ulp prec emin x ->
  Float.round prec emin x <= inject_Z m * Float.ulp prec emin x.
Proof.
  intros H. unfold Float.round. destruct (Qeq_bool x 0) eqn:E.
  - apply Qeq_bool_iff in E. by rewrite <- E.
  - pose proof (ulp_pos prec emin x) as Hu.
    apply Qmult_le_compat_r; [|by apply Qlt_le_weak].
    rewrite <- Zle_Qle. apply round_half_even_le.
    apply Qle_shift_div_r; done.
Qed.

Lemma round_nonneg (prec emin : Z) (x : Q) : 0 <= x -> 0 <= Float.round prec emin x.
Proof.
  intros H. pose proof (round_ge_multiple prec emin x 0) as H'.
  rewrite Qmult_0_l in H'. by apply H'.
Qed.

(** The binade of [x] starts below [|x|]. *)
Lemma binade_lower (x : Q) : ~ x == 0 -> 2 ^ Float.binade x <= Qabs x.
Proof.
  intros Hx. unfold Float.binade. cbv zeta.
  set (a := Z.log2 (Z.abs (Qnum x))). set (b := Z.log2 (Z.pos (Qden x))).
  destruct (Qle_bool (2 ^ (a - b)) (Qabs x)) eqn:E; [by apply Qle_bool_iff|].
  assert (Hn : (0 < Z.abs (Qnum x))%Z).
  { destruct x as [n d]. unfold Qeq in Hx. cbn in *. lia. }
  pose proof (Z.log2_spec (Z.abs (Qnum x)) Hn) as [Ha _]. fold a in Ha.
  pose proof (Z.log2_spec (Z.pos (Qden x)) ltac:(lia)) as [_ Hb]. fold b in Hb.
  pose proof (Z.log2_nonneg (Z.abs (Qnum x))) as Ha0. fold a in Ha0.
  pose proof (Z.log2_nonneg (Z.pos (Qden x))) as Hb0. fold b in Hb0.
  replace (a - b - 1)%Z with (a - Z.succ b)%Z by lia.
  rewrite Qpower_minus by discriminate.
  rewrite <- !(Zpower_Qpower 2) by lia.
  apply Qle_shift_div_r.
  { rewrite <- (Zlt_Qlt 0). lia. }
  destruct x as [n d]. unfold Qabs, Qle, Qmult, inject_Z. cbn [Qnum Qden] in *.
  rewrite Z.mul_1_r, Pos.mul_1_r. nia.
Qed.

Lemma binade_upper (x : Q) : ~ x == 0 -> Qabs x < 2 ^ (Float.binade x + 1).
Proof.
  intros Hx. unfold Float.binade. cbv zeta.
  set (a := Z.log2 (Z.abs (Qnum x))). set (b := Z.log2 (Z.pos (Qden x))).
  destruct (Qle_bool (2 ^ (a - b)) (Qabs x)) eqn:E.
  - assert (Hn : (0 < Z.abs (Qnum x))%Z).
    { destruct x as [n d]. unfold Qeq in Hx. cbn in *. lia. }
    pose proof (Z.log2_spec (Z.abs (Qnum x)) Hn) as [_ Ha]. fold a in Ha.
    pose proof (Z.log2_spec (Z.pos (Qden x)) ltac:(lia)) as [Hb _]. fold b in Hb.
    pose proof (Z.log2_nonneg (Z.abs (Qnum x))) as Ha0. fold a in Ha0.
    pose proof (Z.log2_nonneg (Z.pos (Qden x))) as Hb0. fold b in Hb0.
    replace (a - b + 1)%Z with (Z.succ a - b)%Z by lia.
    rewrite Qpower_minus by discriminate.
    rewrite <- !(Zpower_Qpower 2) by lia.
    apply Qlt_shift_div_l.
    { rewrite <- (Zlt_Qlt 0). lia. }
    destruct x as [n d]. unfold Qabs, Qlt, Qmult, inject_Z. cbn [Qnum Qden] in *.
    rewrite Z.mul_1_r, Pos.mul_1_r. nia.
  - replace (a - b - 1 + 1)%Z with (a - b)%Z by lia.
    apply Qnot_le_lt. intros H. apply Qle_bool_iff in H. congruence.
Qed.

Lemma binade_unique (x : Q) (e : Z) :
  2 ^ e <= Qabs x -> Qabs x < 2 ^ (e + 1) -> Float.binade x = e.
Proof.
  intros Hlo Hhi.
  assert (Hx : ~ x == 0).
  { intros E. rewrite E in Hlo. pose proof (Qpower2_pos e) as Hp.
    apply (Qlt_irrefl 0). eapply Qlt_le_trans; eauto. }
  pose proof (binade_lower x Hx) as Hlo'. pose proof (binade_upper x Hx) as Hhi'.
  assert (H1 : (Float.binade x < e + 1)%Z).
  { apply (Qpower_lt_compat_l_inv 2); [|reflexivity]. eapply Qle_lt_trans; eauto. }
  assert (H2 : (e < Float.binade x + 1)%Z).
  { apply (Qpower_lt_compat_l_inv 2); [|reflexivity]. eapply Qle_lt_trans; eauto. }
  lia.
Qed.

Lemma binade_comp (x y : Q) : ~ x == 0 -> x == y -> Float.binade x = Float.binade y.
Proof.
  intros Hx E. symmetry. apply binade_unique; rewrite <- E.
  - by apply binade_lower.
  - by apply binade_upper.
Qed.

Lemma round_half_even_comp (x y : Q) : x == y -> round_half_even x = round_half_even y.
Proof.
  intros E. pose proof (Qfloor_comp x y E) as Hf.
  destruct x as [n d], y as [n' d']. unfold round_half_even, Qfloor in *.
  cbn [Qnum Qden] in *. rewrite <- Hf. unfold Qeq in E. cbn [Qnum Qden] in E.
  set (q := (n / Z.pos d)%Z) in *.
  rewrite !Z.mod_eq by lia. fold q. rewrite <- Hf.
  assert (Hc : (2 * (n - Z.pos d * q) ?= Z.pos d)%Z
               = (2 * (n' - Z.pos d' * q) ?= Z.pos d')%Z).
  { destruct (Z.compare_spec (2 * (n - Z.pos d * q)) (Z.pos d)),
             (Z.compare_spec (2 * (n' - Z.pos d' * q)) (Z.pos d'));
      first [reflexivity | exfalso; nia]. }
  by rewrite Hc.
Qed.

#[global] Instance round_comp (prec emin : Z) : Proper (Qeq ==> Qeq) (Float.round prec emin).
Proof.
  intros x y E. unfold Float.round.
  assert (H0 : Qeq_bool y 0 = Qeq_bool x 0).
  { apply Qeqb_comp; [by symmetry|reflexivity]. }
  rewrite H0. destruct (Qeq_bool x 0) eqn:E0; [reflexivity|].
  assert (Hx : ~ x == 0).
  { intros H. apply Qeq_bool_iff in H. congruence. }
  unfold Float.ulp. rewrite <- (binade_comp x y Hx E).
  rewrite (round_half_even_comp (y / _) (x / 2 ^ (Z.max (Float.binade x) emin - prec + 1))).
  - reflexivity.
  - apply Qdiv_comp; [by symmetry|reflexivity].
Qed.

(** An integer below [2 ^ 53] is a double: rounding to a double does not
    cross it. *)
Lemma round64_ge_int (n : Z) (x : Q) :
  (0 < n < 2 ^ 53)%Z -> inject_Z n <= x -> inject_Z n <= Float.round64 x.
Proof.
  intros Hn Hx.
  assert (Hx0 : ~ x == 0).
  { intros E. setoid_rewrite E in Hx. change (inject_Z n <= inject_Z 0) in Hx.
    rewrite <- Zle_Qle in Hx. lia. }
  assert (Hxpos : 0 < x).
  { eapply Qlt_le_trans; [|exact Hx]. rewrite <- (Zlt_Qlt 0). lia. }
  set (e := Z.max (Float.binade x) (-1022)).
  destruct (Z.le_gt_cases e 52) as [He|He].
  - assert (Hm : inject_Z n == inject_Z (n * 2 ^ (52 - e)) * Float.ulp 53 (-1022) x).
    { unfold Float.ulp. fold e. rewrite inject_Z_mult, (Zpower_Qpower 2) by lia.
      rewrite <- Qmult_assoc, <- Qpower_plus by discriminate.
      replace (52 - e + (e - 53 + 1))%Z with 0%Z by lia. cbn. ring. }
    rewrite Hm. apply round_ge_multiple. by rewrite <- Hm.
  - assert (Hb : e = Float.binade x) by (subst e; lia).
    assert (Hm : 2 ^ e == inject_Z (2 ^ 52) * Float.ulp 53 (-1022) x).
    { unfold Float.ulp. fold e. rewrite (Zpower_Qpower 2) by lia.
      rewrite <- Qpower_plus by discriminate. by replace (52 + (e - 53 + 1))%Z with e by lia. }
    assert (Hlow : inject_Z n <= 2 ^ e).
    { apply Qle_trans with (2 ^ 53).
      - rewrite <- (Zpower_Qpower 2) by lia. rewrite <- Zle_Qle. lia.
      - apply Qpower_le_compat_l; [lia|discriminate]. }
    eapply Qle_trans; [exact Hlow|]. rewrite Hm. apply round_ge_multiple.
    rewrite <- Hm, Hb. rewrite <- (Qabs_pos x) at 2 by (by apply Qlt_le_weak).
    by apply binade_lower.
Qed.

Lemma round64_le_int (n : Z) (x : Q) :
  (0 < n <= 2 ^ 53)%Z -> 0 <= x -> x <= inject_Z n -> Float.round64 x <= inject_Z n.
Proof.
  intros Hn Hx0 Hx.
  destruct (Qeq_bool x 0) eqn:E.
  { unfold Float.round64, Float.round. rewrite E. rewrite <- (Zle_Qle 0). lia. }
  assert (Hx' : ~ x == 0).
  { intros H. apply Qeq_bool_iff in H. congruence. }
  set (e := Z.max (Float.binade x) (-1022)).
  destruct (Z.le_gt_cases e 52) as [He|He].
  - assert (Hm : inject_Z n == inject_Z (n * 2 ^ (52 - e)) * Float.ulp 53 (-1022) x).
    { unfold Float.ulp. fold e. rewrite inject_Z_mult, (Zpower_Qpower 2) by lia.
      rewrite <- Qmult_assoc, <- Qpower_plus by discriminate.
      replace (52 - e + (e - 53 + 1))%Z with 0%Z by lia. cbn. ring. }
    rewrite Hm. apply round_le_multiple. by rewrite <- Hm.
  - assert (Hb : e = Float.binade x) by (subst e; lia).
    pose proof (binade_lower x Hx') as Hlow. rewrite <- Hb, Qabs_pos in Hlow by done.
    assert (H53 : 2 ^ 53 <= x).
    { eapply Qle_trans; [|exact Hlow]. apply Qpower_le_compat_l; [lia|discriminate]. }
    assert (Hxn : x == inject_Z n).
    { apply Qle_antisym; [done|]. eapply Qle_trans; [|exact H53].
      rewrite <- (Zpower_Qpower 2) by lia. rewrite <- Zle_Qle. lia. }
    assert (He53 : e = 53%Z).
    { assert (H : 2 ^ e <= 2 ^ 53).
      { eapply Qle_trans; [exact Hlow|]. rewrite Hxn.
        rewrite <- (Zpower_Qpower 2) by lia. rewrite <- Zle_Qle. lia. }
      apply Qpower_le_compat_l_inv in H; [lia|reflexivity]. }
    assert (Hm : inject_Z n == inject_Z (n / 2) * Float.ulp 53 (-1022) x).
    { unfold Float.ulp. fold e. rewrite He53. cbn.
      assert (n = 2 ^ 53)%Z as ->.
      { apply Z.le_antisymm; [lia|]. rewrite Zle_Qle, <- Hxn.
        by rewrite (Zpower_Qpower 2) by lia. }
      reflexivity. }
    rewrite Hm. apply round_le_multiple. by rewrite <- Hm.
Qed.

End Rounding.

Example format_f_ex :
  (format_f 2 0.125%Q, format_f 2 0.451%Q, format_f 6 (1 # 3)%Q, format_f 2 (-0.001)%Q)
  = ("0.12", "0.45", "0.333333", "-0.00").
Proof. vm_compute. reflexivity. Qed.

(** ** Triage: margin and uncertainty *)

Section Margin.
Local Open Scope Q_scope.

#[local] Instance Qge'_trans : Transitive Qge'.
Proof. intros x y z Hxy Hyz. unfold Qge' in *. eapply Qle_trans; eauto. Qed.

#[local] Instance Qge'_total : Total Qge'.
Proof.
  intros x y. unfold Qge'. destruct (Qlt_le_dec x y) as [H|H].
  - right. apply Qlt_le_weak, H.
  - left. exact H.
Qed.

Lemma sorted_reverse_perm (confs : list Q) : sorted_reverse confs ≡ₚ confs.
Proof. apply merge_sort_Permutation. Qed.

Lemma sorted_reverse_sorted (confs : list Q) : StronglySorted Qge' (sorted_reverse confs).
Proof. apply (StronglySorted_merge_sort Qge'); apply _. Qed.

Lemma headed_max (x y : Q) (s t : list Q) :
  x :: s ≡ₚ y :: t -> headed (x :: s) -> headed (y :: t) -> x == y.
Proof.
  simpl. intros Hp Hs Ht.
  assert (Hx : x ∈ y :: t) by (rewrite <- Hp; left).
  assert (Hy : y ∈ x :: s) by (rewrite Hp; left).
  apply Qle_antisym.
  - apply elem_of_cons in Hx as [->|Hx]; [apply Qle_refl|].
    rewrite Forall_forall in Ht. auto.
  - apply elem_of_cons in Hy as [->|Hy]; [apply Qle_refl|].
    rewrite Forall_forall in Hs. auto.
Qed.

(** The two leading entries of two arrangements of the same confidences,
    each with its two largest values in front, agree. *)
Lemma top_two_unique (s0 s1 a b : Q) (t rest : list Q) :
  s0 :: s1 :: t ≡ₚ a :: b :: rest ->
  s1 <= s0 -> Forall (fun y => y <= s1) t ->
  b <= a -> Forall (fun y => y <= b) rest ->
  s0 == a /\ s1 == b.
Proof.
  intros Hp Hs10 Ht Hba Hrest.
  assert (Hhs : headed (s0 :: s1 :: t)).
  { simpl. constructor; [done|]. eapply Forall_impl; [exact Ht|].
    simpl. intros y Hy. eapply Qle_trans; eauto. }
  assert (Hha : headed (a :: b :: rest)).
  { simpl. constructor; [done|]. eapply Forall_impl; [exact Hrest|].
    simpl. intros y Hy. eapply Qle_trans; eauto. }
  assert (H0 : s0 == a) by (eapply headed_max; eauto).
  split; [exact H0|].
  assert (Ha : a ∈ s0 :: s1 :: t) by (rewrite Hp; left).
  apply elem_of_cons in Ha as [Heq|Ha].
  - subst a. apply Permutation_cons_inv in Hp.
    eapply headed_max; [exact Hp|exact Ht|exact Hrest].
  - apply elem_of_Permutation in Ha as [k Hk].
    assert (Hp' : a :: s0 :: k ≡ₚ a :: b :: rest).
    { rewrite <- Hp, Hk. apply perm_swap. }
    apply Permutation_cons_inv in Hp'.
    assert (Hs0b : s0 <= b).
    { assert (Hin : s0 ∈ b :: rest) by (rewrite <- Hp'; left).
      apply elem_of_cons in Hin as [->|Hin]; [apply Qle_refl|].
      rewrite Forall_forall in Hrest. auto. }
    assert (Has1 : a <= s1).
    { assert (Hin : a ∈ s1 :: t) by (rewrite Hk; left).
      apply elem_of_cons in Hin as [->|Hin]; [apply Qle_refl|].
      rewrite Forall_forall in Ht. auto. }
    apply Qle_antisym.
    + eapply Qle_trans; eauto.
    + eapply Qle_trans; [exact Hba|exact Has1].
Qed.

Lemma margin_of_single (c : Q) : margin_of [c] = Ok (c - 0).
Proof. reflexivity. Qed.

Lemma margin_of_two (confs : list Q) (a b : Q) (rest : list Q) :
  confs ≡ₚ a :: b :: rest ->
  b <= a -> Forall (fun y => y <= b) rest ->
  exists m, margin_of confs = Ok m /\ m == a - b.
Proof.
  intros Hp Hba Hrest. unfold margin_of.
  pose proof (sorted_reverse_sorted confs) as Hss.
  assert (Hs : sorted_reverse confs ≡ₚ a :: b :: rest).
  { etrans; [apply sorted_reverse_perm|exact Hp]. }
  destruct (sorted_reverse confs) as [|s0 [|s1 t]] eqn:E.
  - apply Permutation_length in Hs. discriminate.
  - apply Permutation_length in Hs. discriminate.
  - simpl. eexists; split; [reflexivity|].
    apply StronglySorted_inv in Hss as [Hss H0].
    apply StronglySorted_inv in Hss as [_ H1].
    inversion H0 as [|? ? H01 _]; subst.
    destruct (top_two_unique s0 s1 a b t rest) as [E0 E1]; auto.
    rewrite E0, E1. reflexivity.
Qed.

Lemma float32_margin_single (c : Q) : float32_margin [c] = Ok (c - 0).
Proof. reflexivity. Qed.

(** With two confidences or more, the code's margin is the difference of
    the two highest, rounded to float32. *)
Lemma float32_margin_two (confs : list Q) (a b : Q) (rest : list Q) :
  confs ≡ₚ a :: b :: rest ->
  b <= a -> Forall (fun y => y <= b) rest ->
  exists m, float32_margin confs = Ok m /\ m == Float.round32 (a - b).
Proof.
  intros Hp Hba Hrest. unfold float32_margin.
  pose proof (sorted_reverse_sorted confs) as Hss.
  assert (Hs : sorted_reverse confs ≡ₚ a :: b :: rest).
  { etrans; [apply sorted_reverse_perm|exact Hp]. }
  destruct (sorted_reverse confs) as [|s0 [|s1 t]] eqn:E.
  - apply Permutation_length in Hs. discriminate.
  - apply Permutation_length in Hs. discriminate.
  - exists (Float.round32 (s0 - s1)). split; [reflexivity|].
    apply StronglySorted_inv in Hss as [Hss H0].
    apply StronglySorted_inv in Hss as [_ H1].
    inversion H0 as [|? ? H01 _]; subst.
    destruct (top_two_unique s0 s1 a b t rest) as [E0 E1]; auto.
    apply round_comp. by apply Qminus_comp.
Qed.

(** The code's margin is the margin over the reals, rounded when there are
    two confidences or more. *)
Lemma float32_margin_of (confs : list Q) (m : Q) :
  margin_of confs = Ok m ->
  float32_margin confs = Ok (if (1 <? length confs)%nat then Float.round32 m else m).
Proof.
  unfold margin_of, float32_margin.
  pose proof (sorted_reverse_perm confs) as Hp. apply Permutation_length in Hp.
  rewrite <- Hp.
  destruct (sorted_reverse confs) as [|s0 [|s1 t]]; cbn; [discriminate|..];
    intros [= <-]; reflexivity.
Qed.

End Margin.

(** ** The working tree: reading after writing *)

Lemma ls_set_dir_eq (d : string) (m : gmap string string) (fs : filesystem) :
  ls (set_dir d m fs) d = m.
Proof. unfold ls, set_dir. simpl. apply lookup_total_insert_eq. Qed.

Lemma ls_set_dir_ne (d d' : string) (m : gmap string string) (fs : filesystem) :
  d ≠ d' -> ls (set_dir d m fs) d' = ls fs d'.
Proof. intros H. unfold ls, set_dir. simpl. by apply lookup_total_insert_ne. Qed.

Lemma ls_write_file_eq (d n c : string) (fs : filesystem) :
  ls (write_file d n c fs) d = <[n := c]> (ls fs d).
Proof. apply ls_set_dir_eq. Qed.

Lemma ls_write_file_ne (d d' n c : string) (fs : filesystem) :
  d ≠ d' -> ls (write_file d n c fs) d' = ls fs d'.
Proof. apply ls_set_dir_ne. Qed.

Lemma ls_unlink_eq (d n : string) (fs : filesystem) :
  ls (unlink d n fs) d = delete n (ls fs d).
Proof. apply ls_set_dir_eq. Qed.

Lemma ls_unlink_ne (d d' n : string) (fs : filesystem) :
  d ≠ d' -> ls (unlink d n fs) d' = ls fs d'.
Proof. apply ls_set_dir_ne. Qed.

Lemma ls_set_hash_index (ix : gmap string string) (fs : filesystem) (d : string) :
  ls (set_hash_index ix fs) d = ls fs d.
Proof. reflexivity. Qed.

Lemma ls_set_log (r : list row) (fs : filesystem) (d : string) :
  ls (set_log r fs) d = ls fs d.
Proof. reflexivity. Qed.

(** [save_log] writes the old rows followed by the new ones, unless the log
    is the file without rows, on which it raises. *)
Lemma save_log_cases (r : list row) (fs : filesystem) :
  (LOG_CSV fs <> Some []
   /\ save_log r fs = Ok (set_log (default [] (LOG_CSV fs) ++ r) fs))
  \/ (LOG_CSV fs = Some [] /\ save_log r fs = Raise EmptyDataError).
Proof.
  unfold save_log. destruct (LOG_CSV fs) as [[|r0 old]|]; [by right|left..];
    split; [discriminate|reflexivity|discriminate|reflexivity].
Qed.

(** The directories of the pipeline are pairwise different. *)
Lemma pipeline_dirs_NoDup :
  NoDup [INCOMING_IMG; UNLABELED_DIR; TO_LABEL_DIR; AUTOLABELED_DIR; LABELED_DIR;
         (YOLO_IMGS / "train")%path; (YOLO_IMGS / "val")%path;
         (YOLO_LABS / "train")%path; (YOLO_LABS / "val")%path].
Proof. apply (bool_decide_unpack _). vm_compute. exact I. Qed.

Ltac dir_ne :=
  first [ congruence
        | let H := fresh in intros H; vm_compute in H; discriminate H ].

Ltac ls_simpl :=
  repeat first
    [ rewrite ls_write_file_eq
    | rewrite ls_unlink_eq
    | rewrite ls_set_dir_eq
    | rewrite ls_write_file_ne by dir_ne
    | rewrite ls_unlink_ne by dir_ne
    | rewrite ls_set_dir_ne by dir_ne
    | rewrite ls_set_hash_index
    | rewrite ls_set_log ].

(** ** [pathlib]: an annotation file name is not an image name *)

Lemma rfind_app_no (c : ascii) (s t : string) :
  Pathlib.rfind c t = None -> Pathlib.rfind c (s +:+ t) = Pathlib.rfind c s.
Proof.
  intros Ht. induction s as [|a s IH]; simpl.
  - exact Ht.
  - rewrite IH. reflexivity.
Qed.

Lemma rfind_app_some (c : ascii) (s t : string) (i : nat) :
  Pathlib.rfind c t = Some i -> Pathlib.rfind c (s +:+ t) = Some (String.length s + i)%nat.
Proof.
  intros Ht. induction s as [|a s IH]; simpl.
  - exact Ht.
  - rewrite IH. reflexivity.
Qed.

Lemma substring_whole (t : string) : substring 0 (String.length t) t = t.
Proof. induction t as [|b t IHt]; simpl; [reflexivity|]. by rewrite IHt. Qed.

Lemma substring_app_drop (s t : string) :
  substring (String.length s) (String.length t) (s +:+ t) = t.
Proof.
  induction s as [|a s IH]; simpl.
  - apply substring_whole.
  - exact IH.
Qed.

Lemma length_app_string (s t : string) :
  String.length (s +:+ t) = (String.length s + String.length t)%nat.
Proof. induction s as [|a s IH]; simpl; [reflexivity|]. by rewrite IH. Qed.

Lemma suffix_txt (s : string) :
  Pathlib.suffix (s +:+ ".txt") = ".txt" \/ Pathlib.suffix (s +:+ ".txt") = "".
Proof.
  unfold Pathlib.suffix.
  rewrite (rfind_app_some "." s ".txt" 0) by reflexivity.
  destruct (Pathlib.splits _ _); [left|right; reflexivity].
  rewrite length_app_string, Nat.add_0_r.
  replace (String.length s + String.length ".txt" - String.length s)%nat
    with (String.length ".txt") by lia.
  apply substring_app_drop.
Qed.

Lemma is_image_txt (s : string) : is_image (s +:+ ".txt") = false.
Proof.
  unfold is_image. destruct (suffix_txt s) as [-> | ->]; reflexivity.
Qed.

(** ** Triage: one image *)

Ltac unfold_io :=
  unfold send_to_label, auto_label, safe_copy_io, unlink_io, write_yolo_labels,
    incr, append_row, modify_fs, lift, raise, try_except,
    mbind, M_bind, bind, mret, M_ret, ret in *.

Lemma float32_margin_nonempty (confs : list Q) :
  confs ≠ [] -> exists m, float32_margin confs = Ok m.
Proof.
  intros Hne. unfold float32_margin.
  pose proof (sorted_reverse_perm confs) as Hp.
  destruct (sorted_reverse confs) as [|s0 t].
  - apply Permutation_nil_l in Hp. congruence.
  - simpl. eauto.
Qed.

Section SelectBody.
Variable env : environment.
Variables conf_low conf_high : Q.

Lemma select_body_raise (x e : string) (s : select_state) :
  predict env x = Raise e ->
  select_body env conf_low conf_high x s = (Raise e, s).
Proof. intros H. unfold select_body. unfold_io. rewrite H. reflexivity. Qed.

Lemma select_body_no_boxes (x : string) (s : select_state) :
  predict env x = Ok None ->
  select_body env conf_low conf_high x s = send_to_label env x "no_detections" s.
Proof. intros H. unfold select_body. unfold mbind, M_bind, bind, lift. rewrite H. reflexivity. Qed.

Lemma select_body_zero (x : string) (s : select_state) :
  predict env x = Ok (Some []) ->
  select_body env conf_low conf_high x s = send_to_label env x "no_detections" s.
Proof. intros H. unfold select_body. unfold mbind, M_bind, bind, lift. rewrite H. reflexivity. Qed.

Lemma select_body_boxes (x : string) (boxes : list Detection) (m : Q) (s : select_state) :
  predict env x = Ok (Some boxes) ->
  boxes ≠ [] ->
  float32_margin (map det_conf boxes) = Ok m ->
  select_body env conf_low conf_high x s =
    if uncertain conf_low conf_high (np_max (map det_conf boxes)) m
    then send_to_label env x
           ("uncertain(max=" +:+ format_f 2 (np_max (map det_conf boxes))
            +:+ ",mean=" +:+ format_f 2 (np_mean env (map det_conf boxes))
            +:+ ",margin=" +:+ format_f 2 m +:+ ")") s
    else auto_label env x (map det_xywhn boxes)
           (map (fun b => py_int (det_cls b)) boxes)
           ("confident(max=" +:+ format_f 2 (np_max (map det_conf boxes)) +:+ ")") s.
Proof.
  intros H Hne Hm. unfold select_body. unfold mbind, M_bind, bind, lift.
  rewrite H. destruct boxes as [|b bs]; [congruence|].
  cbn [length Nat.eqb]. rewrite Hm.
  rewrite length_map. cbn [length Nat.eqb].
  destruct (uncertain _ _ _ _); reflexivity.
Qed.

(** The three ways the body of the [try] can go. *)
Lemma select_body_cases (x : string) :
  (exists e, forall s, select_body env conf_low conf_high x s = (Raise e, s))
  \/ (exists reason, forall s,
        select_body env conf_low conf_high x s = send_to_label env x reason s)
  \/ (exists xywhn cls reason, forall s,
        select_body env conf_low conf_high x s = auto_label env x xywhn cls reason s).
Proof.
  destruct (predict env x) as [[boxes|]|e] eqn:Hp.
  - destruct boxes as [|b bs].
    + right; left. eexists. intros s. by apply select_body_zero.
    + destruct (float32_margin_nonempty (map det_conf (b :: bs))) as [m Hm]; [done|].
      destruct (uncertain conf_low conf_high (np_max (map det_conf (b :: bs))) m) eqn:Hu.
      * right; left. eexists. intros s.
        rewrite (select_body_boxes x (b :: bs) m s Hp) by done. rewrite Hu. reflexivity.
      * right; right. do 3 eexists. intros s.
        rewrite (select_body_boxes x (b :: bs) m s Hp) by done. rewrite Hu. reflexivity.
  - right; left. eexists. intros s. by apply select_body_no_boxes.
  - left. exists e. intros s. by apply select_body_raise.
Qed.

End SelectBody.

Section Effects.
Variable env : environment.

Ltac frame_tac :=
  unfold frame; simpl; repeat split; intros; ls_simpl;
  try reflexivity;
  rewrite ?lookup_delete_ne, ?lookup_insert_ne by congruence; reflexivity.

Lemma send_to_label_frame (x reason : string) (s : select_state) :
  frame x (sel_fs s) (sel_fs (send_to_label env x reason s).2).
Proof.
  unfold_io.
  destruct (copy_error env TO_LABEL_DIR x); [frame_tac|].
  destruct (ls (sel_fs s) UNLABELED_DIR !! x); [|frame_tac].
  simpl. destruct (unlink_error env UNLABELED_DIR x); frame_tac.
Qed.

Lemma auto_label_frame (x : string) (xywhn : list (Q * Q * Q * Q)) (cls : list Z)
    (reason : string) (s : select_state) :
  frame x (sel_fs s) (sel_fs (auto_label env x xywhn cls reason s).2).
Proof.
  unfold_io.
  destruct (copy_error env AUTOLABELED_DIR x); [frame_tac|].
  destruct (ls (sel_fs s) UNLABELED_DIR !! x); [|frame_tac].
  simpl. destruct (write_error env AUTOLABELED_DIR _); [frame_tac|].
  simpl. destruct (unlink_error env UNLABELED_DIR x); frame_tac.
Qed.

Lemma frame_refl (x : string) (fs : filesystem) : frame x fs fs.
Proof. unfold frame. repeat split; reflexivity. Qed.

Lemma select_body_frame (conf_low conf_high : Q) (x : string) (s : select_state) :
  frame x (sel_fs s) (sel_fs (select_body env conf_low conf_high x s).2).
Proof.
  destruct (select_body_cases env conf_low conf_high x)
    as [[e H]|[[reason H]|(xywhn & cls & reason & H)]]; rewrite H.
  - apply frame_refl.
  - apply send_to_label_frame.
  - apply auto_label_frame.
Qed.

Lemma stem_txt_ne (x : string) : is_image x = true -> Pathlib.stem x +:+ ".txt" ≠ x.
Proof. intros Hx E. rewrite <- E, is_image_txt in Hx. discriminate. Qed.

Lemma send_to_label_effect (x reason : string) (s : select_state) :
  body_effect env x s (send_to_label env x reason s).2 (send_to_label env x reason s).1.
Proof.
  unfold_io.
  destruct (copy_error env TO_LABEL_DIR x) as [e|] eqn:Hc; [simpl; auto|].
  destruct (ls (sel_fs s) UNLABELED_DIR !! x) as [data|] eqn:Hx; [|simpl; auto].
  simpl. destruct (unlink_error env UNLABELED_DIR x) as [e|] eqn:Hu; simpl.
  - split; [by ls_simpl|]. right. exists "to_label", reason.
    repeat split; auto. by left.
  - split; [ls_simpl; apply lookup_delete_eq|].
    exists "to_label", reason. repeat split; [by left|..].
    + change (pool_of "to_label") with TO_LABEL_DIR. ls_simpl.
      rewrite Hx. apply lookup_insert_eq.
    + eauto.
Qed.

Lemma auto_label_effect (x : string) (xywhn : list (Q * Q * Q * Q)) (cls : list Z)
    (reason : string) (s : select_state) :
  is_image x = true ->
  body_effect env x s (auto_label env x xywhn cls reason s).2
              (auto_label env x xywhn cls reason s).1.
Proof.
  intros Himg. unfold_io.
  destruct (copy_error env AUTOLABELED_DIR x) as [e|] eqn:Hc; [simpl; auto|].
  destruct (ls (sel_fs s) UNLABELED_DIR !! x) as [data|] eqn:Hx; [|simpl; auto].
  simpl. destruct (write_error env AUTOLABELED_DIR _) as [e|] eqn:Hw; simpl.
  { split; [by ls_simpl|]. by left. }
  destruct (unlink_error env UNLABELED_DIR x) as [e|] eqn:Hu; simpl.
  - split; [by ls_simpl|]. right. exists "autolabeled", reason.
    repeat split; auto. by right.
  - split; [ls_simpl; apply lookup_delete_eq|].
    exists "autolabeled", reason. repeat split; [by right|..].
    + change (pool_of "autolabeled") with AUTOLABELED_DIR. ls_simpl.
      rewrite Hx. rewrite lookup_insert_ne by (by apply stem_txt_ne).
      apply lookup_insert_eq.
    + eauto.
Qed.

Lemma select_body_effect (conf_low conf_high : Q) (x : string) (s : select_state) :
  is_image x = true ->
  body_effect env x s (select_body env conf_low conf_high x s).2
              (select_body env conf_low conf_high x s).1.
Proof.
  intros Himg.
  destruct (select_body_cases env conf_low conf_high x)
    as [[e H]|[[reason H]|(xywhn & cls & reason & H)]]; rewrite H.
  - simpl. auto.
  - apply send_to_label_effect.
  - by apply auto_label_effect.
Qed.

End Effects.

(** ** Triage: the loop *)

Section SelectLoop.
Variable env : environment.
Variables conf_low conf_high : Q.

Abbreviation body := (select_body env conf_low conf_high).
Abbreviation step := (select_one env conf_low conf_high).

Lemma select_one_unfold (x : string) (s : select_state) :
  step x s =
    match body x (scan s) with
    | (Ok a, s') => (Ok a, s')
    | (Raise e, s') => (Ok tt, log_error x e s')
    end.
Proof.
  unfold select_one, scan, log_error, bump. unfold_io.
  destruct (body x _) as [[a|e] s']; reflexivity.
Qed.

Lemma for_each_cons (x : string) (l : list string) (s : select_state) :
  for_each step (x :: l) s =
    match step x s with
    | (Ok _, s') => for_each step l s'
    | (Raise e, s') => (Raise e, s')
    end.
Proof. reflexivity. Qed.

Lemma for_each_app (l1 l2 : list string) (s : select_state) :
  for_each step (l1 ++ l2) s =
    match for_each step l1 s with
    | (Ok _, s') => for_each step l2 s'
    | (Raise e, s') => (Raise e, s')
    end.
Proof.
  revert s. induction l1 as [|x l1 IH]; intros s; [reflexivity|].
  simpl app. rewrite !for_each_cons. destruct (step x s) as [[a|e] s']; [apply IH|reflexivity].
Qed.

(** The result of the body depends on the state through the presence of the
    image alone. *)
Lemma select_body_result_ext (x : string) (s1 s2 : select_state) :
  ls (sel_fs s1) UNLABELED_DIR !! x = ls (sel_fs s2) UNLABELED_DIR !! x ->
  (body x s1).1 = (body x s2).1.
Proof.
  intros H.
  destruct (select_body_cases env conf_low conf_high x)
    as [[e E]|[[reason E]|(xywhn & cls & reason & E)]]; rewrite !E; [reflexivity|..].
  - unfold_io. rewrite H.
    destruct (copy_error env TO_LABEL_DIR x); [reflexivity|].
    destruct (ls (sel_fs s2) UNLABELED_DIR !! x); [|reflexivity].
    simpl. destruct (unlink_error env UNLABELED_DIR x); reflexivity.
  - unfold_io. rewrite H.
    destruct (copy_error env AUTOLABELED_DIR x); [reflexivity|].
    destruct (ls (sel_fs s2) UNLABELED_DIR !! x); [|reflexivity].
    simpl. destruct (write_error env AUTOLABELED_DIR _); [reflexivity|].
    simpl. destruct (unlink_error env UNLABELED_DIR x); reflexivity.
Qed.

Lemma raises_body (fs : filesystem) (x : string) (s : select_state) :
  ls (sel_fs s) UNLABELED_DIR !! x = ls fs UNLABELED_DIR !! x ->
  raises env conf_low conf_high fs x =
    match (body x s).1 with Raise e => Some e | Ok _ => None end.
Proof.
  intros H. unfold raises.
  by rewrite (select_body_result_ext x (SelectState fs stats0 []) s).
Qed.

(** So do the rows it appends. *)
Lemma body_rows (fs : filesystem) (x : string) (s : select_state) :
  ls (sel_fs s) UNLABELED_DIR !! x = ls fs UNLABELED_DIR !! x ->
  rows (body x s).2 = rows s ++ logged env conf_low conf_high fs x.
Proof.
  intros H. unfold logged.
  destruct (select_body_cases env conf_low conf_high x)
    as [[e E]|[[reason E]|(xywhn & cls & reason & E)]]; rewrite !E.
  - simpl. by rewrite app_nil_r.
  - unfold_io. simpl. rewrite H.
    destruct (copy_error env TO_LABEL_DIR x); [simpl; by rewrite app_nil_r|].
    destruct (ls fs UNLABELED_DIR !! x); [|simpl; by rewrite app_nil_r].
    simpl. destruct (unlink_error env UNLABELED_DIR x); reflexivity.
  - unfold_io. simpl. rewrite H.
    destruct (copy_error env AUTOLABELED_DIR x); [simpl; by rewrite app_nil_r|].
    destruct (ls fs UNLABELED_DIR !! x); [|simpl; by rewrite app_nil_r].
    simpl. destruct (write_error env AUTOLABELED_DIR _); [simpl; by rewrite app_nil_r|].
    simpl. destruct (unlink_error env UNLABELED_DIR x); reflexivity.
Qed.

(** One iteration never raises, and leaves the other images alone. *)
Lemma select_one_frame (x : string) (s : select_state) :
  exists s', step x s = (Ok tt, s') /\ frame x (sel_fs s) (sel_fs s').
Proof.
  rewrite select_one_unfold.
  pose proof (select_body_frame env conf_low conf_high x (scan s)) as Hf.
  destruct (body x (scan s)) as [[[]|e] s']; simpl in Hf; eauto.
Qed.

Lemma loop_frame_refl (l : list string) (fs : filesystem) : loop_frame l fs fs.
Proof. unfold loop_frame. repeat split; reflexivity. Qed.

(** The loop never raises, and leaves alone what is not in its list. *)
Lemma for_each_frame (l : list string) (s : select_state) :
  exists s', for_each step l s = (Ok tt, s') /\ loop_frame l (sel_fs s) (sel_fs s').
Proof.
  revert s. induction l as [|x l IH]; intros s.
  - exists s. split; [reflexivity|apply loop_frame_refl].
  - rewrite for_each_cons.
    destruct (select_one_frame x s) as (s1 & -> & Hd & Hh & Hl & Hu & Ht & Ha).
    destruct (IH s1) as (s' & -> & Hd' & Hh' & Hl' & Hy').
    exists s'. split; [reflexivity|].
    unfold loop_frame. split; [|split; [congruence|split; [congruence|]]].
    + intros d ? ? ?. rewrite Hd', Hd; auto.
    + intros y Hy. apply not_elem_of_cons in Hy as [Hyx Hyl].
      destruct (Hy' y Hyl) as (E1 & E2 & E3).
      rewrite E1, E2, Hu, Ht by done. repeat split.
      intros Hi. rewrite E3 by done.
      apply Ha; [done|]. intros ->. by rewrite is_image_txt in Hi.
Qed.

(** One iteration, in full. *)
Lemma select_one_effect (x : string) (s : select_state) :
  is_image x = true ->
  exists s' new,
    step x s = (Ok tt, s')
    /\ frame x (sel_fs s) (sel_fs s')
    /\ rows s' = rows s ++ new
    /\ match (body x (scan s)).1 with
       | Ok _ =>
           ls (sel_fs s') UNLABELED_DIR !! x = None
           /\ exists rt reason,
                is_route rt
                /\ new = [Row x rt reason]
                /\ stats s' = bump rt (bump "scanned" (stats s))
                /\ ls (sel_fs s') (pool_of rt) !! x = ls (sel_fs s) UNLABELED_DIR !! x
                /\ is_Some (ls (sel_fs s) UNLABELED_DIR !! x)
                /\ rows (body x (scan s)).2 = rows s ++ [Row x rt reason]
       | Raise e =>
           ls (sel_fs s') UNLABELED_DIR !! x = ls (sel_fs s) UNLABELED_DIR !! x
           /\ ((new = [Row x "error" e]
                /\ stats s' = bump "errors" (bump "scanned" (stats s)))
               \/ (exists rt reason,
                     is_route rt
                     /\ new = [Row x rt reason; Row x "error" e]
                     /\ stats s' = bump "errors" (bump rt (bump "scanned" (stats s)))
                     /\ unlink_error env UNLABELED_DIR x = Some e))
       end.
Proof.
  intros Himg. rewrite select_one_unfold.
  pose proof (select_body_frame env conf_low conf_high x (scan s)) as Hf.
  pose proof (select_body_effect env conf_low conf_high x (scan s) Himg) as He.
  destruct (body x (scan s)) as [[[]|e] s1] eqn:Hb; simpl in Hf, He |- *.
  - destruct He as (Hu & rt & reason & Hrt & Hrows & Hst & Hp & Hs).
    exists s1, [Row x rt reason].
    split; [done|]. split; [done|]. split; [done|]. split; [done|].
    exists rt, reason. by repeat split.
  - destruct He as (Hu & [[Hrows Hst]|(rt & reason & Hrt & Hrows & Hst & Hue)]).
    + exists (log_error x e s1), [Row x "error" e]. simpl.
      split; [done|]. split; [done|]. split; [by rewrite Hrows|]. split; [done|].
      left. by rewrite Hst.
    + exists (log_error x e s1), [Row x rt reason; Row x "error" e]. simpl.
      split; [done|]. split; [done|]. split; [by rewrite Hrows, <- app_assoc|].
      split; [done|].
      right. exists rt, reason. by rewrite Hst.
Qed.

Lemma bump_lookup_eq (k : string) (st : gmap string Z) :
  bump k st !!! k = (st !!! k + 1)%Z.
Proof. unfold bump. apply lookup_total_insert_eq. Qed.

Lemma bump_lookup_ne (k k' : string) (st : gmap string Z) :
  k ≠ k' -> bump k st !!! k' = st !!! k'.
Proof. intros H. unfold bump. by apply lookup_total_insert_ne. Qed.

Lemma is_route_ne (rt k : string) :
  is_route rt -> k ≠ "to_label" -> k ≠ "autolabeled" -> rt ≠ k.
Proof. intros [-> | ->]; congruence. Qed.

(** The rows a run of the loop appends are about the images of its list. *)
Lemma for_each_rows (l : list string) (s : select_state) :
  Forall (fun y => is_image y = true) l ->
  exists s' new,
    for_each step l s = (Ok tt, s')
    /\ rows s' = rows s ++ new
    /\ Forall (fun r => file r ∈ l) new.
Proof.
  revert s. induction l as [|x l IH]; intros s Hl.
  - exists s, []. split; [reflexivity|]. split; [by rewrite app_nil_r|constructor].
  - apply Forall_cons in Hl as [Hx Hl].
    destruct (select_one_effect x s Hx) as (s1 & newx & Hstep & _ & Hrows & Hcase).
    destruct (IH s1 Hl) as (s' & newl & Hloop & Hrows' & Hfiles).
    exists s', (newx ++ newl). rewrite for_each_cons, Hstep.
    split; [done|]. split; [by rewrite Hrows', Hrows, <- app_assoc|].
    apply Forall_app. split.
    + destruct ((body x (scan s)).1).
      * destruct Hcase as (_ & rt & reason & _ & -> & _).
        repeat constructor.
      * destruct Hcase as (_ & [[-> _]|(rt & reason & _ & -> & _)]);
          repeat constructor.
    + eapply Forall_impl; [exact Hfiles|]. simpl. intros r Hr. by right.
Qed.

Lemma filter_error_route (x rt reason : string) (rest : list row) :
  is_route rt ->
  filter (fun r => route r = "error") (Row x rt reason :: rest)
  = filter (fun r => route r = "error") rest.
Proof.
  intros Hrt. apply filter_cons_False. simpl. apply is_route_ne; done.
Qed.

Lemma filter_error_error (x e : string) (rest : list row) :
  filter (fun r => route r = "error") (Row x "error" e :: rest)
  = Row x "error" e :: filter (fun r => route r = "error") rest.
Proof. by apply filter_cons_True. Qed.

(** The error rows and the counters [scanned] and [errors] after a run of
    the loop, from the images that raise. *)
Lemma for_each_accounting (fs0 : filesystem) (l : list string) (s : select_state) :
  NoDup l ->
  Forall (fun y => is_image y = true) l ->
  (forall y, y ∈ l -> ls (sel_fs s) UNLABELED_DIR !! y = ls fs0 UNLABELED_DIR !! y) ->
  exists s' new,
    for_each step l s = (Ok tt, s')
    /\ rows s' = rows s ++ new
    /\ filter (fun r => route r = "error") new
       = omap (fun y => Row y "error" <$> raises env conf_low conf_high fs0 y) l
    /\ (stats s' !!! "scanned" = stats s !!! "scanned" + Z.of_nat (length l))%Z
    /\ (stats s' !!! "errors"
        = stats s !!! "errors"
          + Z.of_nat (length (omap (raises env conf_low conf_high fs0) l)))%Z.
Proof.
  revert s. induction l as [|x l IH]; intros s Hnd Hl Hpres.
  - exists s, []. simpl. rewrite app_nil_r, !Z.add_0_r. done.
  - apply NoDup_cons in Hnd as [Hxl Hnd]. apply Forall_cons in Hl as [Hx Hl].
    destruct (select_one_effect x s Hx) as (s1 & newx & Hstep & Hf & Hrows & Hcase).
    assert (Hr : raises env conf_low conf_high fs0 x
                 = match (body x (scan s)).1 with Raise e => Some e | Ok _ => None end).
    { apply raises_body. simpl. apply Hpres. by left. }
    destruct (IH s1 Hnd Hl) as (s' & newl & Hloop & Hrows' & Herr & Hsc & Her).
    { intros y Hy. destruct Hf as (_ & _ & _ & Hu & _).
      rewrite Hu by (intros ->; done). apply Hpres. by right. }
    exists s', (newx ++ newl). rewrite for_each_cons, Hstep.
    split; [done|]. split; [by rewrite Hrows', Hrows, <- app_assoc|].
    cbn [omap list_omap length]. rewrite Hr.
    destruct ((body x (scan s)).1) as [[]|e].
    + destruct Hcase as (_ & rt & reason & Hrt & -> & Hst & _).
      simpl. rewrite filter_error_route by done. split; [done|].
      rewrite Hsc, Her, Hst.
      rewrite !(bump_lookup_ne rt) by (apply is_route_ne; done).
      rewrite bump_lookup_eq, bump_lookup_ne by done. lia.
    + destruct Hcase as (_ & [[-> Hst]|(rt & reason & Hrt & -> & Hst & _)]); simpl.
      * rewrite filter_error_error, Herr. split; [done|].
        rewrite Hsc, Her, Hst.
        rewrite bump_lookup_eq, !(bump_lookup_ne "errors"), bump_lookup_eq by done.
        rewrite bump_lookup_ne by done. lia.
      * rewrite filter_error_route, filter_error_error, Herr by done. split; [done|].
        rewrite Hsc, Her, Hst.
        rewrite bump_lookup_eq, !(bump_lookup_ne "errors") by done.
        rewrite !(bump_lookup_ne rt) by (apply is_route_ne; done).
        rewrite bump_lookup_eq, bump_lookup_ne by done. lia.
Qed.

Lemma filter_file_none (y : string) (l : list string) (new : list row) :
  Forall (fun r => file r ∈ l) new -> y ∉ l ->
  filter (fun r => file r = y) new = [].
Proof.
  intros Hf Hy. induction Hf as [|r new Hr _ IH]; [reflexivity|].
  rewrite filter_cons_False; [exact IH|]. intros E. apply Hy. by rewrite <- E.
Qed.

(** What a run of the loop does to one image of its list. *)
Lemma for_each_image (fs0 : filesystem) (l : list string) (s : select_state) (y : string) :
  NoDup l ->
  Forall (fun z => is_image z = true) l ->
  (forall z, z ∈ l -> ls (sel_fs s) UNLABELED_DIR !! z = ls fs0 UNLABELED_DIR !! z) ->
  y ∈ l ->
  exists s' new,
    for_each step l s = (Ok tt, s')
    /\ rows s' = rows s ++ new
    /\ match raises env conf_low conf_high fs0 y with
       | Some e => ls (sel_fs s') UNLABELED_DIR !! y = ls fs0 UNLABELED_DIR !! y
       | None =>
           ls (sel_fs s') UNLABELED_DIR !! y = None
           /\ exists rt reason,
                is_route rt
                /\ logged env conf_low conf_high fs0 y = [Row y rt reason]
                /\ filter (fun r => file r = y) new = [Row y rt reason]
                /\ ls (sel_fs s') (pool_of rt) !! y = ls fs0 UNLABELED_DIR !! y
       end.
Proof.
  intros Hnd Hl Hpres Hy.
  apply list_elem_of_split in Hy as (l1 & l2 & ->).
  apply NoDup_app in Hnd as (_ & Hy1 & Hnd2).
  apply NoDup_cons in Hnd2 as [Hy2 _].
  assert (Hy1' : y ∉ l1) by (intros H; apply (Hy1 y H); by left).
  apply Forall_app in Hl as [Hl1 Hl2]. apply Forall_cons in Hl2 as [Hyi Hl2].
  destruct (for_each_rows l1 s Hl1) as (sa & new1 & H1 & Hr1 & Hf1).
  destruct (for_each_frame l1 s) as (sa' & H1' & Hfr1).
  rewrite H1 in H1'. injection H1' as <-.
  destruct (select_one_effect y sa Hyi) as (sb & newy & Hstep & Hf & Hrows & Hcase).
  destruct (for_each_rows l2 sb Hl2) as (s' & new2 & H2 & Hr2 & Hf2).
  destruct (for_each_frame l2 sb) as (sb' & H2' & Hfr2).
  rewrite H2 in H2'. injection H2' as <-.
  destruct Hfr1 as (_ & _ & _ & Hfr1). destruct (Hfr1 y Hy1') as (Hu1 & _).
  destruct Hfr2 as (_ & _ & _ & Hfr2). destruct (Hfr2 y Hy2) as (Hu2 & Ht2 & Ha2).
  assert (Hpy : ls (sel_fs sa) UNLABELED_DIR !! y = ls fs0 UNLABELED_DIR !! y).
  { rewrite Hu1. apply Hpres. apply elem_of_app. right. by left. }
  assert (Hr : raises env conf_low conf_high fs0 y
               = match (body y (scan sa)).1 with Raise e => Some e | Ok _ => None end).
  { apply raises_body. exact Hpy. }
  exists s', (new1 ++ newy ++ new2).
  rewrite for_each_app, H1, for_each_cons, Hstep.
  split; [done|]. split; [by rewrite Hr2, Hrows, Hr1, <- !app_assoc|].
  rewrite Hr. destruct ((body y (scan sa)).1) as [[]|e].
  - destruct Hcase as (Hgone & rt & reason & Hrt & -> & _ & Hpool & _ & Hlog).
    split; [by rewrite Hu2|]. exists rt, reason. split; [done|]. split.
    { rewrite (body_rows fs0) in Hlog by exact Hpy. simpl in Hlog.
      by apply app_inv_head in Hlog. }
    split.
    + rewrite !filter_app.
      rewrite (filter_file_none y l1 new1 Hf1 Hy1'), (filter_file_none y l2 new2 Hf2 Hy2).
      rewrite filter_cons_True by done. reflexivity.
    + rewrite <- Hpy, <- Hpool. destruct Hrt as [-> | ->].
      * exact Ht2.
      * by apply Ha2.
  - destruct Hcase as (Hsame & _). by rewrite Hu2, Hsame.
Qed.

End SelectLoop.

(** ** Triage: the stage *)

Lemma unlabeled_images_perm (fs : filesystem) :
  unlabeled_images fs ≡ₚ (filter (fun p => is_image p.1 = true) (glob fs UNLABELED_DIR)).*1.
Proof. unfold unlabeled_images, sorted. by rewrite merge_sort_Permutation. Qed.

Lemma unlabeled_images_NoDup (fs : filesystem) : NoDup (unlabeled_images fs).
Proof.
  rewrite unlabeled_images_perm.
  eapply sublist_NoDup; [apply (NoDup_fst_map_to_list (ls fs UNLABELED_DIR))|].
  apply fmap_sublist, sublist_filter.
Qed.

Lemma elem_of_unlabeled_images (fs : filesystem) (y : string) :
  y ∈ unlabeled_images fs <->
  is_image y = true /\ exists data, ls fs UNLABELED_DIR !! y = Some data.
Proof.
  rewrite unlabeled_images_perm, list_elem_of_fmap. split.
  - intros ([n c] & -> & H). apply list_elem_of_filter in H as [Hi H].
    apply elem_of_map_to_list in H. simpl in *. eauto.
  - intros (Hi & data & H). exists (y, data). split; [done|].
    apply list_elem_of_filter. split; [done|]. by apply elem_of_map_to_list.
Qed.

Lemma unlabeled_images_image (fs : filesystem) :
  Forall (fun y => is_image y = true) (unlabeled_images fs).
Proof. apply Forall_forall. intros y Hy. by apply elem_of_unlabeled_images in Hy as [? _]. Qed.

(** No exception leaves the loop of [stage_select]: the stage ends with the
    tree the loop leaves, and returns the counters of the loop unless
    [save_log] raises, which it does on the log without rows. *)
Lemma stage_select_returns (env : environment) (conf_low conf_high : Q) (fs : filesystem) :
  exists s,
    for_each (select_one env conf_low conf_high) (unlabeled_images fs)
             (SelectState fs stats0 []) = (Ok tt, s)
    /\ LOG_CSV (sel_fs s) = LOG_CSV fs
    /\ dirs (stage_select env conf_low conf_high fs).2 = dirs (sel_fs s)
    /\ hash_index (stage_select env conf_low conf_high fs).2 = hash_index (sel_fs s)
    /\ ((LOG_CSV fs <> Some []
         /\ stage_select env conf_low conf_high fs
            = (Ok (stats s), set_log (default [] (LOG_CSV fs) ++ rows s) (sel_fs s)))
        \/ (LOG_CSV fs = Some []
            /\ stage_select env conf_low conf_high fs = (Raise EmptyDataError, sel_fs s))).
Proof.
  destruct (for_each_frame env conf_low conf_high (unlabeled_images fs)
              (SelectState fs stats0 [])) as (s & H & _ & _ & Hlog & _).
  cbn [sel_fs] in Hlog.
  exists s. split; [done|]. split; [done|]. unfold stage_select. rewrite H.
  destruct (save_log_cases (rows s) (sel_fs s)) as [[Hne ->]|[He ->]]; rewrite Hlog in *.
  - split; [done|]. split; [done|]. by left.
  - split; [done|]. split; [done|]. by right.
Qed.

Lemma stage_select_ls (env : environment) (conf_low conf_high : Q) (fs : filesystem)
    (s : select_state) (d : string) :
  dirs (stage_select env conf_low conf_high fs).2 = dirs (sel_fs s) ->
  ls (stage_select env conf_low conf_high fs).2 d = ls (sel_fs s) d.
Proof. intros H. unfold ls. by rewrite H. Qed.

(** ** Triage: the specified properties *)

Section SelectRuns.
Variable env : environment.
Variables conf_low conf_high : Q.

Lemma send_to_label_run (y data reason : string) (s : select_state) :
  copy_error env TO_LABEL_DIR y = None ->
  unlink_error env UNLABELED_DIR y = None ->
  ls (sel_fs s) UNLABELED_DIR !! y = Some data ->
  send_to_label env y reason s =
    (Ok tt, SelectState (unlink UNLABELED_DIR y (write_file TO_LABEL_DIR y data (sel_fs s)))
                        (bump "to_label" (stats s))
                        (rows s ++ [Row y "to_label" reason])).
Proof. intros Hc Hu Hy. unfold_io. rewrite Hc, Hy. simpl. rewrite Hu. reflexivity. Qed.

Lemma auto_label_run (y data reason : string) (xywhn : list (Q * Q * Q * Q))
    (cls : list Z) (s : select_state) :
  copy_error env AUTOLABELED_DIR y = None ->
  write_error env AUTOLABELED_DIR (Pathlib.stem y +:+ ".txt") = None ->
  unlink_error env UNLABELED_DIR y = None ->
  ls (sel_fs s) UNLABELED_DIR !! y = Some data ->
  auto_label env y xywhn cls reason s =
    (Ok tt, SelectState
              (unlink UNLABELED_DIR y
                 (write_file AUTOLABELED_DIR (Pathlib.stem y +:+ ".txt")
                    (yolo_labels xywhn cls)
                    (write_file AUTOLABELED_DIR y data (sel_fs s))))
              (bump "autolabeled" (stats s))
              (rows s ++ [Row y "autolabeled" reason])).
Proof.
  intros Hc Hw Hu Hy. unfold_io. rewrite Hc, Hy. simpl. rewrite Hw. simpl.
  rewrite Hu. reflexivity.
Qed.

(** An image without detections, when its copy and its removal succeed. *)
Lemma zero_detections_run (fs : filesystem) (y data : string) :
  ls fs UNLABELED_DIR !! y = Some data ->
  predict env y = Ok None \/ predict env y = Ok (Some []) ->
  copy_error env TO_LABEL_DIR y = None ->
  unlink_error env UNLABELED_DIR y = None ->
  raises env conf_low conf_high fs y = None
  /\ logged env conf_low conf_high fs y = [Row y "to_label" "no_detections"].
Proof.
  intros Hy Hp Hc Hu. unfold raises, logged.
  assert (E : select_body env conf_low conf_high y (SelectState fs stats0 [])
              = send_to_label env y "no_detections" (SelectState fs stats0 [])).
  { destruct Hp as [Hp|Hp]; [by apply select_body_no_boxes|by apply select_body_zero]. }
  rewrite E, (send_to_label_run y data) by done. done.
Qed.

(** An image with detections, when no file operation on it fails. *)
Lemma detections_run (fs : filesystem) (y data : string) (boxes : list Detection) (m : Q) :
  ls fs UNLABELED_DIR !! y = Some data ->
  predict env y = Ok (Some boxes) ->
  boxes ≠ [] ->
  float32_margin (map det_conf boxes) = Ok m ->
  faultless env y ->
  raises env conf_low conf_high fs y = None
  /\ exists reason,
       logged env conf_low conf_high fs y =
         [Row y (if uncertain conf_low conf_high (np_max (map det_conf boxes)) m
                 then "to_label" else "autolabeled") reason].
Proof.
  intros Hy Hp Hne Hm (Hc1 & Hc2 & Hw & Hu). unfold raises, logged.
  rewrite (select_body_boxes env conf_low conf_high y boxes m _ Hp Hne Hm).
  destruct (uncertain _ _ _ _).
  - rewrite (send_to_label_run y data) by done. simpl. eauto.
  - rewrite (auto_label_run y data) by done. simpl. eauto.
Qed.

End SelectRuns.


(** The stage as a whole. It returns the counters, with the rows of the run
    appended to the log, unless the log is the file without rows, on which
    [save_log] raises. Either way the error rows and the counters [scanned]
    and [errors] of the run are those of the images that raise; each image
    that raises stays in the unlabeled pool, each other image leaves it for
    the pool of its route with the row it logs. *)
Lemma stage_select_spec (env : environment) (conf_low conf_high : Q) (fs : filesystem) :
  exists st new,
    ((LOG_CSV fs <> Some []
      /\ (stage_select env conf_low conf_high fs).1 = Ok st
      /\ log_extended fs (stage_select env conf_low conf_high fs).2 new)
     \/ (LOG_CSV fs = Some []
         /\ (stage_select env conf_low conf_high fs).1 = Raise EmptyDataError
         /\ LOG_CSV (stage_select env conf_low conf_high fs).2 = Some []))
    /\ filter (fun r => route r = "error") new
       = omap (fun y => Row y "error" <$> raises env conf_low conf_high fs y)
              (unlabeled_images fs)
    /\ st !!! "scanned" = Z.of_nat (length (unlabeled_images fs))
    /\ st !!! "errors"
       = Z.of_nat (length (omap (raises env conf_low conf_high fs) (unlabeled_images fs)))
    /\ forall y, y ∈ unlabeled_images fs ->
         match raises env conf_low conf_high fs y with
         | Some e => ls (stage_select env conf_low conf_high fs).2 UNLABELED_DIR !! y
                     = ls fs UNLABELED_DIR !! y
         | None =>
             ls (stage_select env conf_low conf_high fs).2 UNLABELED_DIR !! y = None
             /\ exists rt reason,
                  is_route rt
                  /\ logged env conf_low conf_high fs y = [Row y rt reason]
                  /\ filter (fun r => file r = y) new = [Row y rt reason]
                  /\ ls (stage_select env conf_low conf_high fs).2 (pool_of rt) !! y
                     = ls fs UNLABELED_DIR !! y
         end.
Proof.
  pose proof (unlabeled_images_NoDup fs) as Hnd.
  pose proof (unlabeled_images_image fs) as Himg.
  destruct (stage_select_returns env conf_low conf_high fs)
    as (s & Hloop & Hlog & Hdirs & _ & Hout).
  destruct (for_each_accounting env conf_low conf_high fs (unlabeled_images fs)
              (SelectState fs stats0 []) Hnd Himg ltac:(done))
    as (s1 & new & Hloop1 & Hrows & Herr & Hsc & Her).
  rewrite Hloop in Hloop1. injection Hloop1 as <-. simpl in Hrows.
  pose proof (fun d => stage_select_ls env conf_low conf_high fs s d Hdirs) as Hls.
  exists (stats s), new. split.
  { destruct Hout as [[Hne E]|[He E]]; [left|right]; rewrite E; cbn [fst snd].
    - split; [done|]. split; [done|]. unfold log_extended. cbn. by rewrite Hrows.
    - split; [done|]. split; [done|]. by rewrite Hlog. }
  split; [exact Herr|]. split; [by rewrite Hsc|]. split; [by rewrite Her|].
  intros y Hy.
  destruct (for_each_image env conf_low conf_high fs (unlabeled_images fs)
              (SelectState fs stats0 []) y Hnd Himg ltac:(done) Hy)
    as (s3 & new3 & Hloop3 & Hrows3 & Hcase).
  rewrite Hloop in Hloop3. injection Hloop3 as <-. simpl in Hrows3.
  assert (new3 = new) as -> by congruence.
  destruct (raises env conf_low conf_high fs y); [by rewrite Hls|].
  destruct Hcase as (Hgone & rt & reason & H1 & H2 & H3 & H4).
  rewrite Hls. split; [exact Hgone|]. exists rt, reason. rewrite Hls. done.
Qed.

(** C1, as stated, fails: with one detection of confidence 0.451 (the float32
    number nearest to it) the margin is that confidence, not 0, and the clause
    [margin < 0.10] is false. *)
Lemma margin_single_detection_not_zero :
  exists m, float32_margin [Float.round32 0.451] = Ok m
            /\ ~ (m == 0)%Q /\ Qltb m 0.10%Q = false.
Proof.
  eexists. split; [reflexivity|]. split; [|vm_compute; reflexivity].
  intros H. vm_compute in H. discriminate H.
Qed.

(** C1, amended: with one detection the margin is the confidence of that
    detection (the missing second confidence counts as 0.0), so the clause
    [margin < 0.10] holds exactly when that confidence is below 0.10; with two
    detections or more the margin is the difference between the two highest
    confidences, rounded to float32 as the subtraction of numpy does. *)
Theorem float32_margin_top_two (c a b : Q) (confs rest : list Q) :
  confs ≡ₚ a :: b :: rest ->
  (b <= a)%Q ->
  Forall (fun y => (y <= b)%Q) rest ->
  (exists m, float32_margin [c] = Ok m /\ (m == c)%Q
             /\ (Qltb m 0.10%Q = true <-> (c < 0.10)%Q))
  /\ (exists m, float32_margin confs = Ok m /\ (m == Float.round32 (a - b))%Q).
Proof.
  intros Hp Hba Hrest. split.
  - exists (c - 0)%Q. split; [reflexivity|].
    assert (E : (c - 0 == c)%Q) by ring.
    split; [exact E|].
    unfold Qltb. rewrite negb_true_iff, <- not_true_iff_false, Qle_bool_iff.
    split.
    + intros H. apply Qnot_le_lt. intros H'. apply H.
      eapply Qle_trans; [exact H'|]. apply Qle_lteq. right. by symmetry.
    + intros H H'. apply (Qlt_not_le _ _ H). eapply Qle_trans; [exact H'|].
      apply Qle_lteq. by right.
  - by apply (float32_margin_two confs a b rest).
Qed.

Lemma float32_margin_top_two_witness :
  (exists m, float32_margin [Float.round32 0.451] = Ok m /\ (m == Float.round32 0.451)%Q
             /\ (Qltb m 0.10%Q = true <-> (Float.round32 0.451 < 0.10)%Q))
  /\ (exists m, float32_margin [Float.round32 0.025; 0.01%Q; 0.125%Q] = Ok m
                /\ (m == Float.round32 (0.125 - Float.round32 0.025))%Q).
Proof.
  apply (float32_margin_top_two (Float.round32 0.451) 0.125%Q (Float.round32 0.025)
           [Float.round32 0.025; 0.01%Q; 0.125%Q] [0.01%Q]).
  - etrans; [apply perm_skip, perm_swap|apply perm_swap].
  - vm_compute. discriminate.
  - constructor; [vm_compute; discriminate|constructor].
Defined.

(** The rounding matters at the threshold: for the float32 confidences 0.125
    and 0.025 the difference over the reals is below 0.10 and the margin the
    code computes is not. *)
Example float32_margin_rounds_up :
  exists m m',
    margin_of [0.125%Q; Float.round32 0.025] = Ok m /\ Qltb m 0.10%Q = true
    /\ float32_margin [0.125%Q; Float.round32 0.025] = Ok m' /\ Qltb m' 0.10%Q = false.
Proof.
  do 2 eexists. split; [reflexivity|]. split; [vm_compute; reflexivity|].
  split; [reflexivity|]. vm_compute. reflexivity.
Qed.



(** C8. An image of the unlabeled pool for which inference returns no
    detection ([res.boxes] is [None] or empty) is routed [to_label] with reason
    [no_detections], whatever the thresholds: when its copy and its removal
    succeed, the image is in [TO_LABEL_DIR] and no longer in the unlabeled
    pool, the body logs for it the single row
    (file, "to_label", "no_detections"), and that row is its one row in the
    log the stage writes, when the log is absent or holds rows. *)
Theorem stage_select_no_detections (env : environment) (conf_low conf_high : Q)
    (fs : filesystem) (y data : string) :
  ls fs UNLABELED_DIR !! y = Some data ->
  is_image y = true ->
  predict env y = Ok None \/ predict env y = Ok (Some []) ->
  copy_error env TO_LABEL_DIR y = None ->
  unlink_error env UNLABELED_DIR y = None ->
  let r := stage_select env conf_low conf_high fs in
  ls r.2 TO_LABEL_DIR !! y = Some data
  /\ ls r.2 UNLABELED_DIR !! y = None
  /\ logged env conf_low conf_high fs y = [Row y "to_label" "no_detections"]
  /\ (LOG_CSV fs <> Some [] ->
      exists st new,
        r.1 = Ok st
        /\ log_extended fs r.2 new
        /\ filter (fun r => file r = y) new = [Row y "to_label" "no_detections"]).
Proof.
  intros Hy Himg Hp Hc Hu. cbv zeta.
  destruct (zero_detections_run env conf_low conf_high fs y data Hy Hp Hc Hu) as [Hr Hl].
  destruct (stage_select_spec env conf_low conf_high fs)
    as (st & new & Hout & _ & _ & _ & Hall).
  assert (Hin : y ∈ unlabeled_images fs) by (apply elem_of_unlabeled_images; eauto).
  specialize (Hall y Hin). rewrite Hr in Hall.
  destruct Hall as (Hgone & rt & reason & _ & Hlogged & Hrows & Hpool).
  rewrite Hl in Hlogged. injection Hlogged as <- <-.
  change (pool_of "to_label") with TO_LABEL_DIR in Hpool.
  split; [by rewrite Hpool|]. split; [exact Hgone|]. split; [exact Hl|].
  intros Hlog. destruct Hout as [(_ & Hrun & Hext)|(He & _)]; [|congruence].
  eauto.
Qed.

Lemma stage_select_no_detections_witness :
  let r := stage_select one_corrupt 0.9%Q 0.95%Q three_images in
  ls r.2 TO_LABEL_DIR !! "c.jpg" = Some "C"
  /\ ls r.2 UNLABELED_DIR !! "c.jpg" = None
  /\ logged one_corrupt 0.9%Q 0.95%Q three_images "c.jpg"
     = [Row "c.jpg" "to_label" "no_detections"]
  /\ (LOG_CSV three_images <> Some [] ->
      exists st new,
        r.1 = Ok st
        /\ log_extended three_images r.2 new
        /\ filter (fun r => file r = "c.jpg") new = [Row "c.jpg" "to_label" "no_detections"]).
Proof.
  apply (stage_select_no_detections one_corrupt 0.9%Q 0.95%Q three_images "c.jpg" "C").
  - vm_compute. reflexivity.
  - vm_compute. reflexivity.
  - right. vm_compute. reflexivity.
  - vm_compute. reflexivity.
  - vm_compute. reflexivity.
Defined.

(** The three-clause predicate and the collapsed one agree when
    [conf_low < conf_high]. *)
Lemma uncertain_collapse (conf_low conf_high max_conf margin : Q) :
  (conf_low < conf_high)%Q ->
  uncertain conf_low conf_high max_conf margin
  = uncertain_collapsed conf_high max_conf margin.
Proof.
  intros Hlt. unfold uncertain, uncertain_collapsed, Qltb.
  destruct (Qle_bool max_conf conf_low) eqn:Hlo; simpl.
  - assert (Hhi : Qle_bool max_conf conf_high = true).
    { apply Qle_bool_iff. apply Qle_bool_iff in Hlo.
      apply Qlt_le_weak. eapply Qle_lt_trans; eauto. }
    by rewrite Hhi.
  - reflexivity.
Qed.

(** C7. For thresholds [conf_low < conf_high] the three-clause uncertainty
    predicate of the code equals the collapsed predicate
    [max_conf <= conf_high or margin < 0.10] at every [max_conf] and [margin],
    and the route the stage takes for an image with detections is the one both
    give at the highest confidence and the margin the code computes for the
    image (a float32 difference): [to_label] when the predicate holds,
    [autolabeled] otherwise. The image is moved to the pool of that route and
    logged with it by the body; the row is its one row in the log the stage
    writes, when the log is absent or holds rows. *)
Theorem stage_select_uncertainty_collapsed (env : environment) (conf_low conf_high : Q)
    (fs : filesystem) (y data : string) (boxes : list Detection) :
  (conf_low < conf_high)%Q ->
  ls fs UNLABELED_DIR !! y = Some data ->
  is_image y = true ->
  predict env y = Ok (Some boxes) ->
  boxes ≠ [] ->
  faultless env y ->
  (forall max_conf margin,
     uncertain conf_low conf_high max_conf margin
     = uncertain_collapsed conf_high max_conf margin)
  /\ exists margin reason,
       float32_margin (map det_conf boxes) = Ok margin
       /\ let rt := if uncertain_collapsed conf_high (np_max (map det_conf boxes)) margin
                    then "to_label" else "autolabeled" in
          let r := stage_select env conf_low conf_high fs in
          logged env conf_low conf_high fs y = [Row y rt reason]
          /\ ls r.2 (pool_of rt) !! y = Some data
          /\ ls r.2 UNLABELED_DIR !! y = None
          /\ (LOG_CSV fs <> Some [] ->
              exists st new,
                r.1 = Ok st
                /\ log_extended fs r.2 new
                /\ filter (fun r => file r = y) new = [Row y rt reason]).
Proof.
  intros Hlt Hy Himg Hp Hne Hfl.
  split; [intros; by apply uncertain_collapse|].
  destruct (float32_margin_nonempty (map det_conf boxes)) as [m Hm].
  { destruct boxes; [done|discriminate]. }
  destruct (detections_run env conf_low conf_high fs y data boxes m Hy Hp Hne Hm Hfl)
    as (Hr & reason & Hl).
  destruct (stage_select_spec env conf_low conf_high fs)
    as (st & new & Hout & _ & _ & _ & Hall).
  assert (Hin : y ∈ unlabeled_images fs) by (apply elem_of_unlabeled_images; eauto).
  specialize (Hall y Hin). rewrite Hr in Hall.
  destruct Hall as (Hgone & rt & reason' & _ & Hlogged & Hrows & Hpool).
  rewrite Hl in Hlogged. injection Hlogged as <- <-.
  rewrite (uncertain_collapse _ _ _ _ Hlt) in Hrows, Hpool, Hl.
  exists m, reason. cbv zeta.
  split; [exact Hm|]. split; [exact Hl|]. split; [by rewrite Hpool|].
  split; [exact Hgone|].
  intros Hlog. destruct Hout as [(_ & Hrun & Hext)|(He & _)]; [|congruence].
  eauto.
Qed.

Lemma stage_select_uncertainty_collapsed_witness :
  (forall max_conf margin,
     uncertain 0.05%Q 0.12%Q max_conf margin = uncertain_collapsed 0.12%Q max_conf margin)
  /\ exists margin reason,
       float32_margin (map det_conf two_close) = Ok margin
       /\ let rt := if uncertain_collapsed 0.12%Q (np_max (map det_conf two_close)) margin
                    then "to_label" else "autolabeled" in
          let r := stage_select (quiet (fun _ => Ok (Some two_close))) 0.05%Q 0.12%Q one_image in
          logged (quiet (fun _ => Ok (Some two_close))) 0.05%Q 0.12%Q one_image "img.jpg"
          = [Row "img.jpg" rt reason]
          /\ ls r.2 (pool_of rt) !! "img.jpg" = Some "bytes"
          /\ ls r.2 UNLABELED_DIR !! "img.jpg" = None
          /\ (LOG_CSV one_image <> Some [] ->
              exists st new,
                r.1 = Ok st
                /\ log_extended one_image r.2 new
                /\ filter (fun r => file r = "img.jpg") new = [Row "img.jpg" rt reason]).
Proof.
  apply (stage_select_uncertainty_collapsed (quiet (fun _ => Ok (Some two_close)))
           0.05%Q 0.12%Q one_image "img.jpg" "bytes" two_close).
  - vm_compute. reflexivity.
  - vm_compute. reflexivity.
  - vm_compute. reflexivity.
  - reflexivity.
  - discriminate.
  - repeat split; reflexivity.
Defined.

(** With the confidences [two_close] the image is autolabeled: its margin,
    rounded to float32, is not below 0.10, while the difference over the
    reals is. *)
Example two_close_autolabeled :
  routes_logged (stage_select (quiet (fun _ => Ok (Some two_close))) 0.05%Q 0.12%Q
                   one_image).2
  = [("img.jpg", "autolabeled")].
Proof. vm_compute. reflexivity. Qed.

(** C6. With [conf_low = 0.15] and [conf_high = 0.45]: an image whose only
    detection has confidence 0.45 goes to [to_label]; one whose only detection
    has confidence 0.451 is autolabeled; one with detections of confidence 0.80
    and 0.75, whose margin 0.05 is below 0.10, goes to [to_label] although its
    highest confidence is above [conf_high]. *)
Theorem triage_boundary_routes :
  routes_logged (triage_of [det 0.45%Q]).2 = [("img.jpg", "to_label")]
  /\ ls (triage_of [det 0.45%Q]).2 TO_LABEL_DIR !! "img.jpg" = Some "bytes"
  /\ routes_logged (triage_of [det 0.451%Q]).2 = [("img.jpg", "autolabeled")]
  /\ ls (triage_of [det 0.451%Q]).2 AUTOLABELED_DIR !! "img.jpg" = Some "bytes"
  /\ routes_logged (triage_of [det 0.80%Q; det 0.75%Q]).2 = [("img.jpg", "to_label")]
  /\ ls (triage_of [det 0.80%Q; det 0.75%Q]).2 TO_LABEL_DIR !! "img.jpg" = Some "bytes"
  /\ Qltb 0.45%Q (np_max [0.80%Q; 0.75%Q]) = true
  /\ (exists m, margin_of [0.80%Q; 0.75%Q] = Ok m /\ (m == 0.05)%Q /\ (m < 0.10)%Q).
Proof.
  repeat split; try (vm_compute; reflexivity).
  exists (0.80 - 0.75)%Q. repeat split; vm_compute; reflexivity.
Qed.

(** C9 fails on the code: in an unlabeled pool whose files cannot be removed,
    the one image scanned is counted under [to_label] and, when its removal
    raises, under [errors] as well. *)
Theorem stage_select_counts_twice :
  exists st fs',
    stage_select read_only_pool 0.15%Q 0.45%Q one_image = (Ok st, fs')
    /\ st !!! "scanned" = 1%Z
    /\ st !!! "to_label" = 1%Z
    /\ st !!! "autolabeled" = 0%Z
    /\ st !!! "errors" = 1%Z
    /\ routes_logged fs' = [("img.jpg", "to_label"); ("img.jpg", "error")]
    /\ ls fs' UNLABELED_DIR !! "img.jpg" = Some "bytes"
    /\ ls fs' TO_LABEL_DIR !! "img.jpg" = Some "bytes".
Proof.
  exists (match (stage_select read_only_pool 0.15%Q 0.45%Q one_image).1 with
          | Ok st => st
          | Raise _ => ∅
          end),
         (stage_select read_only_pool 0.15%Q 0.45%Q one_image).2.
  repeat split; vm_compute; reflexivity.
Qed.

(** ** Ingest: the copy loop *)

Arguments sha1_of_file : simpl never.

Lemma sorted_perm (l : list (string * string)) : sorted l ≡ₚ l.
Proof. apply merge_sort_Permutation. Qed.

Lemma elem_of_sorted_glob (fs : filesystem) (d n c : string) :
  (n, c) ∈ sorted (glob fs d) <-> ls fs d !! n = Some c.
Proof. rewrite sorted_perm. apply elem_of_map_to_list. Qed.

Lemma ingest_one_skip (st : ingest_state) (ip : string * string) :
  is_image ip.1 = false \/ is_Some (st.1.1 !! sha1_of_file ip.2) ->
  ingest_one st ip = st.
Proof.
  destruct st as [[seen unl] new]. simpl. intros [H|H]; unfold ingest_one.
  - by rewrite H.
  - destruct (is_image ip.1); [|done]. simpl. by rewrite bool_decide_eq_true_2.
Qed.

Lemma ingest_one_copy (seen unl : gmap string string) (new : list string)
    (ip : string * string) :
  is_image ip.1 = true ->
  seen !! sha1_of_file ip.2 = None ->
  ingest_one (seen, unl, new) ip
  = (<[sha1_of_file ip.2 := ip.1]> seen, <[ip.1 := ip.2]> unl, new ++ [ip.1]).
Proof.
  intros Hi Hs. unfold ingest_one. rewrite Hi. simpl.
  rewrite bool_decide_eq_false_2; [done|]. rewrite Hs. by intros [? ?].
Qed.

(** The two ways one iteration can go. *)
Lemma ingest_one_cases (st : ingest_state) (ip : string * string) :
  (ingest_one st ip = st
   /\ (is_image ip.1 = false \/ is_Some (st.1.1 !! sha1_of_file ip.2)))
  \/ (ingest_one st ip
      = (<[sha1_of_file ip.2 := ip.1]> st.1.1, <[ip.1 := ip.2]> st.1.2, st.2 ++ [ip.1])
      /\ is_image ip.1 = true
      /\ st.1.1 !! sha1_of_file ip.2 = None).
Proof.
  destruct (is_image ip.1) eqn:Hi.
  - destruct (st.1.1 !! sha1_of_file ip.2) eqn:Hs.
    + left. split; [|right; eauto].
      apply ingest_one_skip. right. rewrite Hs. eauto.
    + right. destruct st as [[seen unl] new]. simpl in *.
      split; [by apply ingest_one_copy|done].
  - left. split; [|by left]. apply ingest_one_skip. by left.
Qed.

(** The index only grows, by one entry for each path added to [new_paths]. *)
Lemma ingest_loop_grows (items : list (string * string)) (st : ingest_state) :
  exists added,
    st.1.1 ⊆ (fold_left ingest_one items st).1.1
    /\ (fold_left ingest_one items st).2 = st.2 ++ added
    /\ size (fold_left ingest_one items st).1.1 = (size st.1.1 + length added)%nat.
Proof.
  revert st. induction items as [|ip items IH]; intros st.
  - exists []. simpl. rewrite app_nil_r. split; [done|]. split; [done|lia].
  - simpl. destruct (ingest_one_cases st ip) as [[-> _]|(E & _ & Hnone)].
    + apply IH.
    + rewrite E. destruct (IH (<[sha1_of_file ip.2 := ip.1]> st.1.1,
                               <[ip.1 := ip.2]> st.1.2, st.2 ++ [ip.1]))
        as (added & Hsub & Hnew & Hsize). simpl in *.
      exists (ip.1 :: added). split; [|split].
      * etrans; [|exact Hsub]. by apply insert_subseteq.
      * by rewrite Hnew, <- app_assoc.
      * rewrite Hsize, map_size_insert_None by done. simpl. lia.
Qed.

(** After the loop, the digest of every image it went over is indexed. *)
Lemma ingest_loop_indexed (items : list (string * string)) (st : ingest_state)
    (n c : string) :
  (n, c) ∈ items -> is_image n = true ->
  is_Some ((fold_left ingest_one items st).1.1 !! sha1_of_file c).
Proof.
  revert st. induction items as [|ip items IH]; intros st Hin Hi.
  - by apply elem_of_nil in Hin.
  - simpl. apply elem_of_cons in Hin as [<-|Hin]; [|by apply IH].
    destruct (ingest_loop_grows items (ingest_one st (n, c))) as (_ & Hsub & _).
    assert (Hs : is_Some ((ingest_one st (n, c)).1.1 !! sha1_of_file c)).
    { destruct (ingest_one_cases st (n, c)) as [[-> [H|H]]|(E & _ & _)]; simpl in *.
      - congruence.
      - exact H.
      - rewrite E. simpl. rewrite lookup_insert_eq. eauto. }
    destruct Hs as [m Hm]. exists m.
    eapply lookup_weaken; eauto.
Qed.

(** A loop over files whose digests are all indexed changes nothing. *)
Lemma ingest_loop_noop (items : list (string * string)) (st : ingest_state) :
  (forall n c, (n, c) ∈ items -> is_image n = true -> is_Some (st.1.1 !! sha1_of_file c)) ->
  fold_left ingest_one items st = st.
Proof.
  induction items as [|ip items IH]; intros H; [done|].
  simpl. rewrite ingest_one_skip.
  - apply IH. intros n c Hin. apply H. by right.
  - destruct (is_image ip.1) eqn:Hi; [right|by left].
    apply (H ip.1 ip.2); [|done]. destruct ip. by left.
Qed.

(** Every file of the pool is one that was there before the loop or the file
    its digest is indexed under. *)
Lemma ingest_loop_pool (items : list (string * string)) (st : ingest_state) :
  (forall n c, st.1.2 !! n = Some c -> st.1.1 !! sha1_of_file c = Some n) ->
  forall n c, (fold_left ingest_one items st).1.2 !! n = Some c ->
              (fold_left ingest_one items st).1.1 !! sha1_of_file c = Some n.
Proof.
  revert st. induction items as [|ip items IH]; intros st Hinv; [exact Hinv|].
  simpl. apply IH.
  destruct (ingest_one_cases st ip) as [[-> _]|(E & _ & Hnone)]; [exact Hinv|].
  rewrite E. simpl. intros n c Hn.
  destruct (decide (ip.1 = n)) as [<-|Hne].
  - rewrite lookup_insert_eq in Hn. injection Hn as <-. apply lookup_insert_eq.
  - rewrite lookup_insert_ne in Hn by done.
    specialize (Hinv n c Hn).
    rewrite lookup_insert_ne; [done|]. intros Eh. rewrite Eh in Hnone. congruence.
Qed.

(** ** Ingest: the stage *)

Lemma stage_ingest_unfold (fs : filesystem) :
  stage_ingest fs
  = (set_hash_index (ingest_loop fs).1.1 (set_dir UNLABELED_DIR (ingest_loop fs).1.2 fs),
     (ingest_loop fs).2).
Proof.
  unfold stage_ingest. fold (ingest_loop fs).
  by destruct (ingest_loop fs) as [[seen unl] new].
Qed.

Lemma stage_ingest_incoming (fs : filesystem) :
  ls (stage_ingest fs).1 INCOMING_IMG = ls fs INCOMING_IMG.
Proof. rewrite stage_ingest_unfold. simpl. by ls_simpl. Qed.

Lemma stage_ingest_pool (fs : filesystem) :
  ls (stage_ingest fs).1 UNLABELED_DIR = (ingest_loop fs).1.2.
Proof. rewrite stage_ingest_unfold. simpl. by ls_simpl. Qed.

Lemma stage_ingest_index (fs : filesystem) :
  hash_index (stage_ingest fs).1 = Some (ingest_loop fs).1.1.
Proof. by rewrite stage_ingest_unfold. Qed.

Lemma stage_ingest_new (fs : filesystem) : (stage_ingest fs).2 = (ingest_loop fs).2.
Proof. by rewrite stage_ingest_unfold. Qed.

(** A second run over the same inputs is a no-op. *)
Lemma stage_ingest_twice (fs : filesystem) :
  stage_ingest (stage_ingest fs).1 = ((stage_ingest fs).1, []).
Proof.
  assert (Hloop : ingest_loop (stage_ingest fs).1
                  = ((ingest_loop fs).1.1, (ingest_loop fs).1.2, [])).
  { unfold ingest_loop at 1. unfold glob.
    rewrite stage_ingest_incoming, stage_ingest_pool, stage_ingest_index. simpl.
    apply ingest_loop_noop. simpl. intros n c Hin Hi.
    by apply (ingest_loop_indexed _ _ n c). }
  rewrite (stage_ingest_unfold (stage_ingest fs).1), Hloop. simpl.
  f_equal. rewrite stage_ingest_unfold. simpl.
  unfold set_hash_index, set_dir. simpl. f_equal. apply insert_insert_eq.
Qed.

Lemma sorted_singleton (ip : string * string) : sorted [ip] = [ip].
Proof. reflexivity. Qed.

(** The loop over a single incoming file. *)
Lemma ingest_loop_single (fs : filesystem) (n c : string) :
  ls fs INCOMING_IMG = {[ n := c ]} ->
  ingest_loop fs = ingest_one (default ∅ (hash_index fs), ls fs UNLABELED_DIR, []) (n, c).
Proof.
  intros H. unfold ingest_loop, glob. rewrite H, map_to_list_singleton.
  by rewrite sorted_singleton.
Qed.

Lemma ls_with_incoming_eq (files : gmap string string) (fs : filesystem) :
  ls (with_incoming files fs) INCOMING_IMG = files.
Proof. apply ls_set_dir_eq. Qed.

Lemma ls_with_incoming_pool (files : gmap string string) (fs : filesystem) :
  ls (with_incoming files fs) UNLABELED_DIR = ls fs UNLABELED_DIR.
Proof. unfold with_incoming. by ls_simpl. Qed.

Lemma ls_fresh_incoming (files : gmap string string) :
  ls (fresh files) INCOMING_IMG = files.
Proof. unfold ls, fresh. simpl. apply lookup_total_singleton_eq. Qed.

Lemma ls_fresh_pool (files : gmap string string) : ls (fresh files) UNLABELED_DIR = ∅.
Proof.
  unfold ls, fresh. simpl. rewrite lookup_total_singleton_ne; [done|dir_ne].
Qed.

(** The paths the loop adds: each once, each an image it went over, copied
    with its bytes, its digest not indexed before the loop. *)
Lemma ingest_loop_copied (all : list (string * string)) (seen0 : gmap string string)
    (items : list (string * string)) (st : ingest_state) :
  (forall ip, ip ∈ items -> ip ∈ all) ->
  NoDup items.*1 ->
  (forall n, n ∈ st.2 -> n ∉ items.*1) ->
  seen0 ⊆ st.1.1 ->
  NoDup st.2 ->
  (forall n, n ∈ st.2 ->
     exists c, (n, c) ∈ all /\ is_image n = true /\ st.1.2 !! n = Some c
               /\ seen0 !! sha1_of_file c = None) ->
  NoDup (fold_left ingest_one items st).2
  /\ forall n, n ∈ (fold_left ingest_one items st).2 ->
       exists c, (n, c) ∈ all /\ is_image n = true
                 /\ (fold_left ingest_one items st).1.2 !! n = Some c
                 /\ seen0 !! sha1_of_file c = None.
Proof.
  revert st. induction items as [|ip items IH]; intros st Hall Hnd Hfresh Hsub Hnew Hinv;
    [by split|].
  cbn [fold_left]. apply NoDup_cons in Hnd as [Hip Hnd].
  assert (Htail : forall n, n ∈ st.2 -> n ∉ items.*1).
  { intros n Hn Hin. apply (Hfresh n Hn). by right. }
  destruct (ingest_one_cases st ip) as [[-> _]|(E & Hi & Hnone)].
  - apply IH; auto. intros; apply Hall; by right.
  - rewrite E. apply IH; cbn [fst snd].
    + intros; apply Hall; by right.
    + exact Hnd.
    + intros n Hn. apply elem_of_app in Hn as [Hn|Hn]; [by apply Htail|].
      apply list_elem_of_singleton in Hn as ->. exact Hip.
    + etrans; [exact Hsub|]. by apply insert_subseteq.
    + apply NoDup_app. split; [exact Hnew|]. split; [|apply NoDup_singleton].
      intros n Hn Hn'. apply list_elem_of_singleton in Hn' as ->.
      apply (Hfresh ip.1 Hn). by left.
    + intros n Hn. apply elem_of_app in Hn as [Hn|Hn].
      * destruct (Hinv n Hn) as (c & Hc & Hic & Hp & Hs). exists c.
        split; [done|]. split; [done|]. split; [|done].
        rewrite lookup_insert_ne; [done|]. intros <-. apply (Hfresh ip.1 Hn). by left.
      * apply list_elem_of_singleton in Hn as ->. exists ip.2.
        split; [apply Hall; destruct ip; by left|]. split; [done|].
        split; [apply lookup_insert_eq|].
        eapply lookup_weaken_None; eauto.
Qed.

Lemma sorted_glob_NoDup (fs : filesystem) (d : string) : NoDup (sorted (glob fs d)).*1.
Proof.
  unfold sorted, glob. rewrite merge_sort_Permutation. apply NoDup_fst_map_to_list.
Qed.

(** The new paths of the stage. *)
Lemma stage_ingest_new_copied (fs : filesystem) :
  NoDup (stage_ingest fs).2
  /\ forall n, n ∈ (stage_ingest fs).2 ->
       exists c, ls fs INCOMING_IMG !! n = Some c
                 /\ is_image n = true
                 /\ ls (stage_ingest fs).1 UNLABELED_DIR !! n = Some c
                 /\ default ∅ (hash_index fs) !! sha1_of_file c = None.
Proof.
  rewrite stage_ingest_new, stage_ingest_pool. unfold ingest_loop.
  destruct (ingest_loop_copied (sorted (glob fs INCOMING_IMG)) (default ∅ (hash_index fs))
              (sorted (glob fs INCOMING_IMG))
              (default ∅ (hash_index fs), ls fs UNLABELED_DIR, [])) as [Hnd Hall].
  - done.
  - apply sorted_glob_NoDup.
  - intros n Hn. exfalso. eapply elem_of_nil, Hn.
  - done.
  - apply NoDup_nil_2.
  - intros n Hn. exfalso. eapply elem_of_nil, Hn.
  - split; [exact Hnd|]. intros n Hn.
    destruct (Hall n Hn) as (c & Hc & Hi & Hp & Hs). exists c.
    split; [by apply elem_of_sorted_glob|done].
Qed.

(** An entry of the index after the loop was loaded, or is the digest of an
    image the loop went over and added to the new paths, under its name. *)
Lemma ingest_loop_entry (items : list (string * string)) (st : ingest_state)
    (h m : string) :
  (fold_left ingest_one items st).1.1 !! h = Some m ->
  st.1.1 !! h = Some m
  \/ exists c, (m, c) ∈ items /\ is_image m = true /\ h = sha1_of_file c
               /\ m ∈ (fold_left ingest_one items st).2.
Proof.
  revert st. induction items as [|ip items IH]; intros st Hm; [by left|].
  cbn [fold_left] in *.
  destruct (IH _ Hm) as [H|(c & Hc & Hi & Hh & Hn)].
  2:{ right. exists c. split; [by right|done]. }
  destruct (ingest_one_cases st ip) as [[E _]|(E & Hi & Hnone)]; rewrite E in H.
  - by left.
  - cbn [fst snd] in H. destruct (decide (sha1_of_file ip.2 = h)) as [<-|Hne].
    + rewrite lookup_insert_eq in H. injection H as <-.
      right. exists ip.2. split; [destruct ip; by left|]. split; [done|]. split; [done|].
      destruct (ingest_loop_grows items (ingest_one st ip)) as (added & _ & -> & _).
      rewrite E. cbn [snd]. apply elem_of_app. left. apply elem_of_app. right. by left.
    + rewrite lookup_insert_ne in H by done. by left.
Qed.

(** An incoming image whose digest is not in the loaded index and is the
    digest of no other incoming image is copied under its name, and its
    digest is indexed under that name. *)
Lemma stage_ingest_copies_new (fs : filesystem) (n c : string) :
  ls fs INCOMING_IMG !! n = Some c ->
  is_image n = true ->
  default ∅ (hash_index fs) !! sha1_of_file c = None ->
  (forall n' c', ls fs INCOMING_IMG !! n' = Some c' -> is_image n' = true ->
                 sha1_of_file c' = sha1_of_file c -> n' = n) ->
  n ∈ (stage_ingest fs).2
  /\ ls (stage_ingest fs).1 UNLABELED_DIR !! n = Some c
  /\ exists idx, hash_index (stage_ingest fs).1 = Some idx
                 /\ idx !! sha1_of_file c = Some n.
Proof.
  intros Hn Hi Hnew Huniq.
  destruct (ingest_loop_indexed (sorted (glob fs INCOMING_IMG))
              (default ∅ (hash_index fs), ls fs UNLABELED_DIR, []) n c) as [m Hm];
    [by apply elem_of_sorted_glob|done|].
  fold (ingest_loop fs) in Hm.
  assert (Hmn : m = n /\ n ∈ (ingest_loop fs).2).
  { unfold ingest_loop in *.
    destruct (ingest_loop_entry _ _ _ _ Hm) as [H|(c' & Hc' & Hi' & Hh & Hin)].
    - cbn [fst snd] in H. congruence.
    - apply elem_of_sorted_glob in Hc'.
      assert (m = n) as -> by (apply (Huniq m c'); done). done. }
  destruct Hmn as [-> Hin]. rewrite <- stage_ingest_new in Hin.
  split; [exact Hin|]. split.
  - destruct (stage_ingest_new_copied fs) as [_ Hall].
    destruct (Hall n Hin) as (c' & Hc' & _ & Hp & _). congruence.
  - exists (ingest_loop fs).1.1. split; [apply stage_ingest_index|exact Hm].
Qed.

(** Every path added to [new_paths] is a file the loop went over, indexed
    under its digest. *)
Lemma ingest_loop_new (all items : list (string * string)) (st : ingest_state) :
  (forall ip, ip ∈ items -> ip ∈ all) ->
  (forall n, n ∈ st.2 -> exists c, (n, c) ∈ all /\ st.1.1 !! sha1_of_file c = Some n) ->
  forall n, n ∈ (fold_left ingest_one items st).2 ->
            exists c, (n, c) ∈ all
                      /\ (fold_left ingest_one items st).1.1 !! sha1_of_file c = Some n.
Proof.
  revert st. induction items as [|ip items IH]; intros st Hall Hinv; [exact Hinv|].
  simpl. apply IH; [intros; apply Hall; by right|].
  destruct (ingest_one_cases st ip) as [[-> _]|(E & _ & Hnone)]; [exact Hinv|].
  rewrite E. simpl. intros n Hn. apply elem_of_app in Hn as [Hn|Hn].
  - destruct (Hinv n Hn) as (c & Hc & Hs). exists c. split; [done|].
    rewrite lookup_insert_ne; [done|]. intros Eh. rewrite Eh in Hnone. congruence.
  - apply list_elem_of_singleton in Hn as ->. exists ip.2. split.
    + apply Hall. destruct ip. by left.
    + apply lookup_insert_eq.
Qed.

(** The entries of the loaded index are in the index the run writes. *)
Lemma stage_ingest_index_kept (fs : filesystem) :
  exists idx',
    hash_index (stage_ingest fs).1 = Some idx'
    /\ forall h name, default ∅ (hash_index fs) !! h = Some name -> idx' !! h = Some name.
Proof.
  exists (ingest_loop fs).1.1. split; [apply stage_ingest_index|].
  unfold ingest_loop.
  destruct (ingest_loop_grows (sorted (glob fs INCOMING_IMG))
              (default ∅ (hash_index fs), ls fs UNLABELED_DIR, [])) as (added & Hsub & _).
  intros h name Hh. eapply lookup_weaken; eauto.
Qed.

(** The cases of a membership in an explicit list. *)
Ltac in_list H :=
  repeat (apply elem_of_cons in H as [H|H]; [injection H as -> ->|]);
  [..|exfalso; eapply elem_of_nil, H].

(** C10. The index written by a run of [stage_ingest] contains every entry of
    the index it loaded, under the same file name, and has one entry more for
    each path of [new_paths]. *)
Theorem stage_ingest_index_grows (fs : filesystem) :
  exists idx',
    hash_index (stage_ingest fs).1 = Some idx'
    /\ (forall h name, default ∅ (hash_index fs) !! h = Some name -> idx' !! h = Some name)
    /\ size idx' = (size (default ∅ (hash_index fs)) + length (stage_ingest fs).2)%nat.
Proof.
  exists (ingest_loop fs).1.1. split; [apply stage_ingest_index|].
  rewrite stage_ingest_new. unfold ingest_loop.
  destruct (ingest_loop_grows (sorted (glob fs INCOMING_IMG))
              (default ∅ (hash_index fs), ls fs UNLABELED_DIR, []))
    as (added & Hsub & Hnew & Hsize).
  simpl in *. split.
  - intros h name Hh. eapply lookup_weaken; eauto.
  - by rewrite Hnew.
Qed.

(** The same bytes under two names, in one run on a tree with nothing else. *)
Lemma ingest_loop_two_names (n1 n2 X : string) :
  is_image n1 = true -> is_image n2 = true -> n1 ≠ n2 ->
  exists n, ingest_loop (fresh {[ n1 := X; n2 := X ]})
            = ({[ sha1_of_file X := n ]}, {[ n := X ]}, [n]).
Proof.
  intros H1 H2 Hne.
  assert (Hitems : sorted (glob (fresh {[ n1 := X; n2 := X ]}) INCOMING_IMG) = [(n1, X); (n2, X)]
                   \/ sorted (glob (fresh {[ n1 := X; n2 := X ]}) INCOMING_IMG)
                      = [(n2, X); (n1, X)]).
  { apply Permutation_length_2_inv. symmetry. rewrite sorted_perm. unfold glob.
    rewrite ls_fresh_incoming, map_to_list_insert, map_to_list_singleton; [done|].
    by apply lookup_singleton_ne. }
  unfold ingest_loop. rewrite ls_fresh_pool. simpl hash_index. simpl default.
  destruct Hitems as [-> | ->]; cbn [fold_left].
  - exists n1. rewrite (ingest_one_copy ∅ ∅ [] (n1, X) H1 (lookup_empty _)).
    cbn [fst snd app].
    rewrite ingest_one_skip; [by rewrite !insert_empty|].
    right. cbn [fst snd]. rewrite lookup_insert_eq. eauto.
  - exists n2. rewrite (ingest_one_copy ∅ ∅ [] (n2, X) H2 (lookup_empty _)).
    cbn [fst snd app].
    rewrite ingest_one_skip; [by rewrite !insert_empty|].
    right. cbn [fst snd]. rewrite lookup_insert_eq. eauto.
Qed.

(** C4. Ingest is idempotent: a file whose digest is in the index is skipped
    (no copy, no index entry, no new path); a second run over the same inputs
    changes nothing and returns no new path; the same bytes ingested in two
    successive runs, under the same or another name, or in one run under two
    names, leave exactly one file in the unlabeled pool and one entry in the
    index. *)
Theorem stage_ingest_idempotent (fs : filesystem) (st : ingest_state)
    (ip : string * string) (n1 n2 X : string) :
  is_image n1 = true ->
  is_image n2 = true ->
  (is_Some (st.1.1 !! sha1_of_file ip.2) -> ingest_one st ip = st)
  /\ stage_ingest (stage_ingest fs).1 = ((stage_ingest fs).1, [])
  /\ (let r1 := stage_ingest (fresh {[ n1 := X ]}) in
      let r2 := stage_ingest (with_incoming {[ n2 := X ]} r1.1) in
      r1.2 = [n1] /\ r2.2 = []
      /\ ls r2.1 UNLABELED_DIR = {[ n1 := X ]}
      /\ hash_index r2.1 = Some {[ sha1_of_file X := n1 ]})
  /\ (n1 ≠ n2 ->
      let r := stage_ingest (fresh {[ n1 := X; n2 := X ]}) in
      length r.2 = 1%nat
      /\ size (ls r.1 UNLABELED_DIR) = 1%nat
      /\ (exists idx, hash_index r.1 = Some idx /\ size idx = 1%nat)
      /\ (stage_ingest r.1).2 = []).
Proof.
  intros H1 H2. split; [|split; [|split]].
  - intros Hs. apply ingest_one_skip. by right.
  - apply stage_ingest_twice.
  - cbv zeta.
    assert (L1 : ingest_loop (fresh {[ n1 := X ]})
                 = ({[ sha1_of_file X := n1 ]}, {[ n1 := X ]}, [n1])).
    { rewrite (ingest_loop_single _ n1 X) by apply ls_fresh_incoming.
      rewrite ls_fresh_pool. simpl hash_index. simpl default.
      rewrite (ingest_one_copy ∅ ∅ [] (n1, X) H1 (lookup_empty _)).
      cbn [fst snd app]. by rewrite !insert_empty. }
    assert (L2 : ingest_loop (with_incoming {[ n2 := X ]} (stage_ingest (fresh {[ n1 := X ]})).1)
                 = ({[ sha1_of_file X := n1 ]}, {[ n1 := X ]}, [])).
    { rewrite (ingest_loop_single _ n2 X) by apply ls_with_incoming_eq.
      rewrite ls_with_incoming_pool, stage_ingest_pool, L1.
      change (hash_index (with_incoming {[ n2 := X ]} (stage_ingest (fresh {[ n1 := X ]})).1))
        with (hash_index (stage_ingest (fresh {[ n1 := X ]})).1).
      rewrite stage_ingest_index, L1. cbn [from_option id fst snd].
      apply ingest_one_skip. right. cbn [fst snd]. rewrite lookup_singleton_eq. eauto. }
    rewrite stage_ingest_new, L1. split; [done|].
    rewrite stage_ingest_new, stage_ingest_pool, stage_ingest_index, L2. done.
  - intros Hne. cbv zeta.
    destruct (ingest_loop_two_names n1 n2 X H1 H2 Hne) as [n L].
    rewrite stage_ingest_new, stage_ingest_pool, stage_ingest_index, L.
    cbn [fst snd length].
    split; [done|]. split; [apply map_size_singleton|].
    split; [eexists; split; [done|apply map_size_singleton]|].
    by rewrite stage_ingest_twice.
Qed.

Lemma stage_ingest_idempotent_witness :
  (is_Some ((({[ sha1_of_file "X" := "a.jpg" ]}, ∅, []) : ingest_state).1.1
              !! sha1_of_file ("b.png", "X").2) ->
   ingest_one ({[ sha1_of_file "X" := "a.jpg" ]}, ∅, []) ("b.png", "X")
   = ({[ sha1_of_file "X" := "a.jpg" ]}, ∅, []))
  /\ stage_ingest (stage_ingest (fresh {[ "a.jpg" := "X"; "c.txt" := "notes" ]})).1
     = ((stage_ingest (fresh {[ "a.jpg" := "X"; "c.txt" := "notes" ]})).1, [])
  /\ (let r1 := stage_ingest (fresh {[ "a.jpg" := "X" ]}) in
      let r2 := stage_ingest (with_incoming {[ "b.png" := "X" ]} r1.1) in
      r1.2 = ["a.jpg"] /\ r2.2 = []
      /\ ls r2.1 UNLABELED_DIR = {[ "a.jpg" := "X" ]}
      /\ hash_index r2.1 = Some {[ sha1_of_file "X" := "a.jpg" ]})
  /\ ("a.jpg" ≠ "b.png" ->
      let r := stage_ingest (fresh {[ "a.jpg" := "X"; "b.png" := "X" ]}) in
      length r.2 = 1%nat
      /\ size (ls r.1 UNLABELED_DIR) = 1%nat
      /\ (exists idx, hash_index r.1 = Some idx /\ size idx = 1%nat)
      /\ (stage_ingest r.1).2 = []).
Proof.
  apply (stage_ingest_idempotent (fresh {[ "a.jpg" := "X"; "c.txt" := "notes" ]})
           ({[ sha1_of_file "X" := "a.jpg" ]}, ∅, []) ("b.png", "X") "a.jpg" "b.png" "X").
  - vm_compute. reflexivity.
  - vm_compute. reflexivity.
Defined.

(** C2, as stated, fails in its second half: a file [a.jpg] ingested in one
    run and a file of the same name with other bytes ingested in the next
    leave one file in the unlabeled pool, the second; both runs report the
    path as new. *)
Lemma stage_ingest_same_name_overwrites :
  let r1 := stage_ingest (fresh {[ "a.jpg" := "first" ]}) in
  let r2 := stage_ingest (with_incoming {[ "a.jpg" := "second" ]} r1.1) in
  r1.2 = ["a.jpg"]
  /\ map_to_list (ls r1.1 UNLABELED_DIR) = [("a.jpg", "first")]
  /\ r2.2 = ["a.jpg"]
  /\ map_to_list (ls r2.1 UNLABELED_DIR) = [("a.jpg", "second")].
Proof. vm_compute. repeat split; reflexivity. Qed.

(** C2, amended. Dedup is by content: of two incoming images with the same
    bytes and different names at most one is copied in a run, the digest has
    its entry in the index, and, in a pool whose files are all indexed, the two
    names never both hold those bytes. It is not by name: when a file [n]
    comes in one run and a file of the same name in the next run, each with a
    digest that is not in the index when its run starts and that no other
    incoming image of its run has, both runs copy it: both digests are indexed
    under [n], and the unlabeled pool holds the bytes of the later file
    under [n]. *)
Theorem stage_ingest_dedup_by_content (fs : filesystem) :
  (forall n1 n2 X : string,
     n1 ≠ n2 ->
     ls fs INCOMING_IMG !! n1 = Some X ->
     ls fs INCOMING_IMG !! n2 = Some X ->
     is_image n1 = true ->
     let r := stage_ingest fs in
     ~ (n1 ∈ r.2 /\ n2 ∈ r.2)
     /\ (exists idx m, hash_index r.1 = Some idx /\ idx !! sha1_of_file X = Some m)
     /\ (pool_indexed fs ->
         ~ (ls r.1 UNLABELED_DIR !! n1 = Some X /\ ls r.1 UNLABELED_DIR !! n2 = Some X)))
  /\ (forall (files2 : gmap string string) (n X1 X2 : string),
        is_image n = true ->
        ls fs INCOMING_IMG !! n = Some X1 ->
        default ∅ (hash_index fs) !! sha1_of_file X1 = None ->
        (forall n' c', ls fs INCOMING_IMG !! n' = Some c' -> is_image n' = true ->
                       sha1_of_file c' = sha1_of_file X1 -> n' = n) ->
        files2 !! n = Some X2 ->
        default ∅ (hash_index (stage_ingest fs).1) !! sha1_of_file X2 = None ->
        (forall n' c', files2 !! n' = Some c' -> is_image n' = true ->
                       sha1_of_file c' = sha1_of_file X2 -> n' = n) ->
        let r1 := stage_ingest fs in
        let r2 := stage_ingest (with_incoming files2 r1.1) in
        n ∈ r1.2 /\ n ∈ r2.2
        /\ ls r1.1 UNLABELED_DIR !! n = Some X1
        /\ ls r2.1 UNLABELED_DIR !! n = Some X2
        /\ exists idx, hash_index r2.1 = Some idx
                       /\ idx !! sha1_of_file X1 = Some n
                       /\ idx !! sha1_of_file X2 = Some n).
Proof.
  split.
  - intros n1 n2 X Hne Hn1 Hn2 Hi1. cbv zeta.
    rewrite stage_ingest_new, stage_ingest_pool, stage_ingest_index.
    unfold ingest_loop.
    set (items := sorted (glob fs INCOMING_IMG)).
    set (st := (default ∅ (hash_index fs), ls fs UNLABELED_DIR, [] : list string)).
    split; [|split].
    + intros [Hin1 Hin2].
      destruct (ingest_loop_new items items st ltac:(done)
                  ltac:(intros ? H; by apply elem_of_nil in H) n1 Hin1) as (c1 & Hc1 & Hs1).
      destruct (ingest_loop_new items items st ltac:(done)
                  ltac:(intros ? H; by apply elem_of_nil in H) n2 Hin2) as (c2 & Hc2 & Hs2).
      apply elem_of_sorted_glob in Hc1, Hc2.
      assert (c1 = X) as -> by congruence. assert (c2 = X) as -> by congruence.
      congruence.
    + destruct (ingest_loop_indexed items st n1 X) as [m Hm]; [|done|].
      { by apply elem_of_sorted_glob. }
      eauto.
    + intros Hpool [Hp1 Hp2].
      pose proof (ingest_loop_pool items st Hpool n1 X Hp1) as E1.
      pose proof (ingest_loop_pool items st Hpool n2 X Hp2) as E2.
      congruence.
  - intros files2 n X1 X2 Hi Hx1 Hnew1 Hu1 Hx2 Hnew2 Hu2. cbv zeta.
    destruct (stage_ingest_copies_new fs n X1 Hx1 Hi Hnew1 Hu1)
      as (Hin1 & Hp1 & idx1 & Hidx1 & Hd1).
    destruct (stage_ingest_copies_new (with_incoming files2 (stage_ingest fs).1) n X2)
      as (Hin2 & Hp2 & idx2 & Hidx2 & Hd2).
    { by rewrite ls_with_incoming_eq. }
    { done. }
    { exact Hnew2. }
    { intros n' c'. rewrite ls_with_incoming_eq. apply Hu2. }
    split; [exact Hin1|]. split; [exact Hin2|]. split; [exact Hp1|]. split; [exact Hp2|].
    exists idx2. split; [exact Hidx2|]. split; [|exact Hd2].
    destruct (stage_ingest_index_kept (with_incoming files2 (stage_ingest fs).1))
      as (idx' & Hidx' & Hkept).
    rewrite Hidx2 in Hidx'. injection Hidx' as <-.
    apply Hkept.
    change (hash_index (with_incoming files2 (stage_ingest fs).1))
      with (hash_index (stage_ingest fs).1).
    rewrite Hidx1. exact Hd1.
Qed.

(** The theorem at three incoming files, two of them with the same bytes,
    followed by a run in which [c.jpg] comes back with other bytes. *)
Lemma stage_ingest_dedup_by_content_witness :
  (let r := stage_ingest two_names in
   ~ ("a.jpg" ∈ r.2 /\ "b.png" ∈ r.2)
   /\ (exists idx m, hash_index r.1 = Some idx /\ idx !! sha1_of_file "X" = Some m)
   /\ ~ (ls r.1 UNLABELED_DIR !! "a.jpg" = Some "X"
         /\ ls r.1 UNLABELED_DIR !! "b.png" = Some "X"))
  /\ (let r1 := stage_ingest two_names in
      let r2 := stage_ingest (with_incoming {[ "c.jpg" := "second"; "d.jpg" := "X" ]} r1.1) in
      "c.jpg" ∈ r1.2 /\ "c.jpg" ∈ r2.2
      /\ ls r1.1 UNLABELED_DIR !! "c.jpg" = Some "first"
      /\ ls r2.1 UNLABELED_DIR !! "c.jpg" = Some "second"
      /\ exists idx, hash_index r2.1 = Some idx
                     /\ idx !! sha1_of_file "first" = Some "c.jpg"
                     /\ idx !! sha1_of_file "second" = Some "c.jpg").
Proof.
  destruct (stage_ingest_dedup_by_content two_names) as [Hsame Hname].
  split.
  - destruct (Hsame "a.jpg" "b.png" "X") as (H1 & H2 & H3).
    + discriminate.
    + vm_compute. reflexivity.
    + vm_compute. reflexivity.
    + vm_compute. reflexivity.
    + split; [exact H1|]. split; [exact H2|]. apply H3.
      intros m c H. unfold two_names in H. rewrite ls_fresh_pool, lookup_empty in H.
      discriminate H.
  - apply (Hname {[ "c.jpg" := "second"; "d.jpg" := "X" ]} "c.jpg" "first" "second").
    + vm_compute. reflexivity.
    + vm_compute. reflexivity.
    + vm_compute. reflexivity.
    + intros n' c' H _ Hs. unfold two_names in H. rewrite ls_fresh_incoming in H.
      apply elem_of_map_to_list in H. vm_compute in H.
      in_list H; first [reflexivity | vm_compute in Hs; discriminate Hs].
    + vm_compute. reflexivity.
    + vm_compute. reflexivity.
    + intros n' c' H _ Hs.
      apply elem_of_map_to_list in H. vm_compute in H.
      in_list H; first [reflexivity | vm_compute in Hs; discriminate Hs].
Defined.

(** ** Dataset assembly *)

Lemma elem_of_gather (fs : filesystem) (d : string) (p : path * path) :
  p ∈ gather fs d <->
  exists img data,
    ls fs d !! img = Some data
    /\ is_image img = true
    /\ is_Some (ls fs d !! Pathlib.with_suffix img ".txt")
    /\ p = ((d, img), (d, Pathlib.with_suffix img ".txt")).
Proof.
  unfold gather. rewrite list_elem_of_omap. split.
  - intros ([img data] & Hin & Hf). apply elem_of_map_to_list in Hin. simpl in Hf.
    destruct (is_image img) eqn:Hi; simpl in Hf; [|discriminate].
    unfold file_exists in Hf.
    destruct (bool_decide (is_Some (ls fs d !! Pathlib.with_suffix img ".txt"))) eqn:He;
      simpl in Hf; [|discriminate].
    apply bool_decide_eq_true in He. injection Hf as <-. eauto 10.
  - intros (img & data & Hin & Hi & He & ->). exists (img, data).
    split; [by apply elem_of_map_to_list|]. simpl. rewrite Hi. simpl.
    unfold file_exists. by rewrite bool_decide_eq_true_2.
Qed.

Lemma sources_matching (fs : filesystem) (p : path * path) :
  p ∈ sources_of fs -> matching_pair fs p.
Proof.
  unfold sources_of. rewrite elem_of_app, !elem_of_gather.
  intros [(img & data & Hin & Hi & He & ->)|(img & data & Hin & Hi & He & ->)];
    simpl; rewrite Hin; eauto 10.
Qed.

(** An image without annotation file is in no pair. *)
Lemma sources_need_annotation (fs : filesystem) (d img : string) (lab : path) :
  ls fs d !! Pathlib.with_suffix img ".txt" = None ->
  ((d, img), lab) ∉ sources_of fs.
Proof.
  intros Hnone Hin. apply sources_matching in Hin.
  destruct Hin as (_ & -> & _ & _ & [? Hs]). simpl in Hs. congruence.
Qed.

Section Counts.
Local Open Scope Z_scope.

Lemma py_int_floor (x : Q) : (0 <= x)%Q -> py_int x = Qfloor x.
Proof.
  intros Hx. unfold py_int, Qfloor. destruct x as [a b]. simpl.
  apply Z.quot_div_nonneg; [|lia].
  unfold Qle in Hx. simpl in Hx. lia.
Qed.

Lemma Qfloor_le_int (x : Q) (k : Z) : (x <= inject_Z k)%Q -> Qfloor x <= k.
Proof. intros H. rewrite <- (Qfloor_Z k). by apply Qfloor_resp_le. Qed.

Lemma Qfloor_ge_int (x : Q) (k : Z) : (inject_Z k <= x)%Q -> k <= Qfloor x.
Proof. intros H. rewrite <- (Qfloor_Z k). by apply Qfloor_resp_le. Qed.

(** The product as the code computes it is not negative, and its floor is
    the floor of the exact product or one more. *)
Lemma float_product_floor (n : Z) (v : Q) :
  0 < n -> (0 <= v)%Q -> (v <= 1)%Q ->
  (0 <= float_product n v)%Q
  /\ Qfloor (inject_Z n * v) <= Qfloor (float_product n v) <= Qfloor (inject_Z n * v) + 1
  /\ Qfloor (float_product n v) <= n.
Proof.
  intros Hn H0 H1.
  assert (Hx0 : (0 <= inject_Z n * v)%Q).
  { apply Qmult_le_0_compat; [|done]. unfold Qle. simpl. lia. }
  assert (Hxn : (inject_Z n * v <= inject_Z n)%Q).
  { rewrite <- (Qmult_1_r (inject_Z n)) at 2.
    apply Qmult_le_l; [|done]. unfold Qlt. simpl. lia. }
  assert (HF0 : 0 <= Qfloor (inject_Z n * v)) by (by apply Qfloor_ge_int).
  assert (HFn : Qfloor (inject_Z n * v) <= n) by (by apply Qfloor_le_int).
  unfold float_product. destruct (Z.ltb_spec n (2 ^ 53)) as [Hlt|Hge].
  - split; [by apply round_nonneg|]. split; [split|].
    + destruct (Z.eq_dec (Qfloor (inject_Z n * v)) 0) as [->|Hne].
      * apply Qfloor_ge_int. by apply round_nonneg.
      * apply Qfloor_ge_int. apply round64_ge_int; [lia|apply Qfloor_le].
    + apply Qfloor_le_int. apply round64_le_int; [lia|done|].
      apply Qlt_le_weak, Qlt_floor.
    + apply Qfloor_le_int. apply round64_le_int; [lia|done|done].
  - split; [done|]. lia.
Qed.

(** [n_val] for a pool that is not empty and a fraction in [0, 1]: the
    floor of the rounded product, at least 1; it is the value over the reals
    or one more, and at most the number of pairs. *)
Lemma n_val_of_spec (n : Z) (val_split : Q) :
  0 < n -> (0 <= val_split)%Q -> (val_split <= 1)%Q ->
  (n < 2 ^ 53 ->
   n_val_of n val_split = Z.max 1 (Qfloor (Float.round64 (inject_Z n * val_split))))
  /\ Z.max 1 (Qfloor (inject_Z n * val_split)) <= n_val_of n val_split
     <= Z.max 1 (Qfloor (inject_Z n * val_split) + 1)
  /\ 1 <= n_val_of n val_split <= n.
Proof.
  intros Hn H0 H1.
  destruct (float_product_floor n val_split Hn H0 H1) as (Hp & Hb & Hle).
  unfold n_val_of. destruct (Z.eqb_spec n 0) as [->|_]; [lia|].
  rewrite py_int_floor by done. split; [|lia].
  intros Hlt. unfold float_product. destruct (Z.ltb_spec n (2 ^ 53)); [done|lia].
Qed.

End Counts.

(** The split of an index is one of the two split names. *)
Lemma split_of_cases (n_val i : Z) :
  split_of n_val i = "train" \/ split_of n_val i = "val".
Proof. unfold split_of. destruct (i <? n_val)%Z; auto. Qed.

Ltac split_cases H := destruct H as [-> | ->].

Lemma write_file_mono (d n c d' n' : string) (fs : filesystem) :
  is_Some (ls fs d' !! n') -> is_Some (ls (write_file d n c fs) d' !! n').
Proof.
  intros H. destruct (decide (d = d')) as [->|Hd].
  - rewrite ls_write_file_eq. destruct (decide (n = n')) as [->|Hn].
    + rewrite lookup_insert_eq. eauto.
    + by rewrite lookup_insert_ne.
  - by rewrite ls_write_file_ne.
Qed.

Lemma clear_splits_pools (fs : filesystem) : pools_kept fs (clear_splits fs).
Proof. unfold pools_kept, clear_splits. simpl. split; by ls_simpl. Qed.

Lemma clear_splits_paired (fs : filesystem) : splits_paired (clear_splits fs).
Proof.
  intros split name Hs [c Hc]. exfalso. unfold clear_splits in Hc. simpl in Hc.
  split_cases Hs; revert Hc; ls_simpl; by rewrite lookup_empty.
Qed.

(** One iteration of the copy loop writes the image and its annotation
    file. *)
Lemma copy_pair_writes (fs0 fs : filesystem) (n_val i : Z) (img lab : path) :
  matching_pair fs0 (img, lab) ->
  pools_kept fs0 fs ->
  exists di dl,
    copy_pair n_val fs (i, (img, lab))
    = write_file (YOLO_LABS / split_of n_val i)%path lab.2 dl
        (write_file (YOLO_IMGS / split_of n_val i)%path img.2 di fs).
Proof.
  intros (Hd & -> & _ & [di Hi] & [dl Hl]) [Hk1 Hk2]. simpl in Hl.
  exists di, dl. unfold copy_pair, safe_copy. simpl.
  assert (Hi' : ls fs img.1 !! img.2 = Some di).
  { destruct Hd as [E|E]; rewrite E in *; by rewrite ?Hk1, ?Hk2. }
  rewrite Hi'.
  assert (Hl' : ls (write_file (YOLO_IMGS / split_of n_val i)%path img.2 di fs) img.1
                  !! Pathlib.with_suffix img.2 ".txt" = Some dl).
  { destruct Hd as [E|E]; rewrite E in *;
      destruct (split_of_cases n_val i) as [-> | ->]; ls_simpl;
      by rewrite ?Hk1, ?Hk2. }
  by rewrite Hl'.
Qed.

(** Writing an image and its annotation file into a split keeps the split
    directories paired. *)
Lemma write_pair_paired (fs : filesystem) (sp name0 di dl : string) :
  sp = "train" \/ sp = "val" ->
  is_image name0 = true ->
  splits_paired fs ->
  splits_paired (write_file (YOLO_LABS / sp)%path (Pathlib.with_suffix name0 ".txt") dl
                   (write_file (YOLO_IMGS / sp)%path name0 di fs)).
Proof.
  intros Hsp Hi Hp split name Hs Hn.
  assert (Hold : is_Some (ls fs (YOLO_IMGS / split)%path !! name) ->
                 is_image name = true
                 /\ is_Some (ls (write_file (YOLO_LABS / sp)%path
                                   (Pathlib.with_suffix name0 ".txt") dl
                                   (write_file (YOLO_IMGS / sp)%path name0 di fs))
                                (YOLO_LABS / split)%path
                              !! Pathlib.with_suffix name ".txt")).
  { intros H. destruct (Hp split name Hs H) as [Hi' Hl]. split; [done|].
    by do 2 apply write_file_mono. }
  destruct (decide (split = sp)) as [->|Hd].
  - rewrite ls_write_file_ne in Hn by (split_cases Hsp; dir_ne).
    rewrite ls_write_file_eq in Hn.
    destruct (decide (name0 = name)) as [<-|Hne].
    + split; [done|]. rewrite ls_write_file_eq, lookup_insert_eq. eauto.
    + rewrite lookup_insert_ne in Hn by done. by apply Hold.
  - apply Hold.
    rewrite ls_write_file_ne in Hn by (split_cases Hsp; split_cases Hs; dir_ne).
    rewrite ls_write_file_ne in Hn by (split_cases Hsp; split_cases Hs; dir_ne).
    exact Hn.
Qed.

Lemma copy_pair_inv (fs0 fs : filesystem) (n_val i : Z) (img lab : path) :
  matching_pair fs0 (img, lab) ->
  pools_kept fs0 fs ->
  splits_paired fs ->
  pools_kept fs0 (copy_pair n_val fs (i, (img, lab)))
  /\ splits_paired (copy_pair n_val fs (i, (img, lab)))
  /\ is_Some (ls (copy_pair n_val fs (i, (img, lab)))
                 (YOLO_IMGS / split_of n_val i)%path !! img.2)
  /\ is_Some (ls (copy_pair n_val fs (i, (img, lab)))
                 (YOLO_LABS / split_of n_val i)%path !! lab.2)
  /\ (forall d n, is_Some (ls fs d !! n) ->
                  is_Some (ls (copy_pair n_val fs (i, (img, lab))) d !! n)).
Proof.
  intros Hm Hk Hp.
  destruct (copy_pair_writes fs0 fs n_val i img lab Hm Hk) as (di & dl & ->).
  destruct Hm as (_ & -> & Himg & _ & _). cbn [snd].
  destruct Hk as [Hk1 Hk2].
  pose proof (split_of_cases n_val i) as Hsp.
  split; [|split; [|split; [|split]]].
  - unfold pools_kept. split_cases Hsp; ls_simpl; done.
  - by apply write_pair_paired.
  - apply write_file_mono. rewrite ls_write_file_eq, lookup_insert_eq. eauto.
  - rewrite ls_write_file_eq, lookup_insert_eq. eauto.
  - intros d n Hn. by do 2 apply write_file_mono.
Qed.

(** The copy loop keeps the labelled pools and the pairing of the split
    directories, removes nothing, and writes every pair it goes over. *)
Lemma copy_loop_inv (fs0 : filesystem) (n_val : Z) (items : list (Z * (path * path)))
    (fs : filesystem) :
  Forall (fun it => matching_pair fs0 it.2) items ->
  pools_kept fs0 fs ->
  splits_paired fs ->
  pools_kept fs0 (fold_left (copy_pair n_val) items fs)
  /\ splits_paired (fold_left (copy_pair n_val) items fs)
  /\ (forall d n, is_Some (ls fs d !! n) ->
                  is_Some (ls (fold_left (copy_pair n_val) items fs) d !! n))
  /\ (forall i img lab, (i, (img, lab)) ∈ items ->
        is_Some (ls (fold_left (copy_pair n_val) items fs)
                    (YOLO_IMGS / split_of n_val i)%path !! img.2)
        /\ is_Some (ls (fold_left (copy_pair n_val) items fs)
                       (YOLO_LABS / split_of n_val i)%path !! lab.2)).
Proof.
  revert fs. induction items as [|[i [img lab]] items IH]; intros fs Hall Hk Hp.
  - simpl. split; [done|]. split; [done|]. split; [done|].
    intros i img lab H. exfalso. eapply elem_of_nil, H.
  - apply Forall_cons in Hall as [Hm Hall]. cbn [snd] in Hm.
    destruct (copy_pair_inv fs0 fs n_val i img lab Hm Hk Hp)
      as (Hk1 & Hp1 & Hi1 & Hl1 & Hmono1).
    destruct (IH _ Hall Hk1 Hp1) as (Hk' & Hp' & Hmono' & Hw').
    simpl. split; [done|]. split; [done|]. split; [auto|].
    intros j img' lab' Hin. apply elem_of_cons in Hin as [E|Hin]; [|by apply Hw'].
    injection E as -> -> ->. split; by apply Hmono'.
Qed.

Lemma elem_of_enumerate {A : Type} (l : list A) (i : nat) (x : A) :
  l !! i = Some x -> (Z.of_nat i, x) ∈ enumerate l.
Proof.
  intros H. unfold enumerate. apply list_elem_of_lookup. exists i.
  by rewrite list_lookup_imap, H.
Qed.

Lemma enumerate_snd {A : Type} (P : A -> Prop) (l : list A) :
  Forall P l -> Forall (fun it => P it.2) (enumerate l).
Proof.
  intros H. apply Forall_forall. intros [i x] Hin.
  unfold enumerate in Hin. apply list_elem_of_lookup in Hin as [k Hk].
  rewrite list_lookup_imap in Hk. destruct (l !! k) as [y|] eqn:E; [|discriminate].
  injection Hk as <- <-. simpl. rewrite Forall_forall in H. apply H.
  by apply list_elem_of_lookup_2 in E.
Qed.

Example stage_prep_example :
  (stage_prep (@rev (path * path)) (Float.round64 0.15) labelled_tree).2 = (2%Z, 1%Z)
  /\ map_to_list (ls (stage_prep (@rev (path * path)) (Float.round64 0.15) labelled_tree).1
                     (YOLO_IMGS / "train")%path)
     ≡ₚ [("a.jpg", "A"); ("c.png", "C")]
  /\ map_to_list (ls (stage_prep (@rev (path * path)) (Float.round64 0.15) labelled_tree).1
                     (YOLO_IMGS / "val")%path)
     = [("z.jpg", "Z")].
Proof.
  split; [vm_compute; reflexivity|]. split; [|vm_compute; reflexivity].
  vm_compute. apply perm_swap || reflexivity.
Qed.

(** ** Triage: counters, log and frame of the stage *)

Section SelectCounters.
Variable env : environment.
Variables conf_low conf_high : Q.

Abbreviation step' := (select_one env conf_low conf_high).

Lemma routed_total_bump_route (rt : string) (st : gmap string Z) :
  is_route rt ->
  routed_total (bump rt st) = (routed_total st + 1)%Z
  /\ bump rt st !!! "scanned" = st !!! "scanned".
Proof.
  intros [-> | ->]; unfold routed_total;
    rewrite ?bump_lookup_eq, ?bump_lookup_ne by done; split; lia.
Qed.

Lemma routed_total_bump_errors (st : gmap string Z) :
  routed_total (bump "errors" st) = (routed_total st + 1)%Z
  /\ bump "errors" st !!! "scanned" = st !!! "scanned".
Proof.
  unfold routed_total. rewrite ?bump_lookup_eq, ?bump_lookup_ne by done. split; lia.
Qed.

Lemma routed_total_bump_scanned (st : gmap string Z) :
  routed_total (bump "scanned" st) = routed_total st
  /\ bump "scanned" st !!! "scanned" = (st !!! "scanned" + 1)%Z.
Proof.
  unfold routed_total. rewrite ?bump_lookup_eq, ?bump_lookup_ne by done. split; lia.
Qed.

(** One iteration counts the image once as scanned, and once or twice under
    the routes and errors: twice only when its removal fails. *)
Lemma select_one_counts (x : string) (s : select_state) :
  is_image x = true ->
  exists s',
    step' x s = (Ok tt, s')
    /\ stats s' !!! "scanned" = (stats s !!! "scanned" + 1)%Z
    /\ (routed_total (stats s') = (routed_total (stats s) + 1)%Z
        \/ (routed_total (stats s') = (routed_total (stats s) + 2)%Z
            /\ is_Some (unlink_error env UNLABELED_DIR x))).
Proof.
  intros Hx.
  destruct (select_one_effect env conf_low conf_high x s Hx)
    as (s' & new & Hstep & _ & _ & Hcase).
  exists s'. split; [exact Hstep|].
  destruct (routed_total_bump_scanned (stats s)) as [Ts Ss].
  destruct ((select_body env conf_low conf_high x (scan s)).1) as [[]|e].
  - destruct Hcase as (_ & rt & reason & Hrt & _ & -> & _).
    destruct (routed_total_bump_route rt (bump "scanned" (stats s)) Hrt) as [T S].
    rewrite T, S, Ts, Ss. auto.
  - destruct Hcase as (_ & [[_ ->]|(rt & reason & Hrt & _ & -> & Hu)]).
    + destruct (routed_total_bump_errors (bump "scanned" (stats s))) as [T S].
      rewrite T, S, Ts, Ss. auto.
    + destruct (routed_total_bump_errors (bump rt (bump "scanned" (stats s)))) as [T S].
      destruct (routed_total_bump_route rt (bump "scanned" (stats s)) Hrt) as [T' S'].
      rewrite T, S, T', S', Ts, Ss. split; [done|]. right. split; [lia|].
      rewrite Hu. eauto.
Qed.

Lemma for_each_counts (l : list string) (s : select_state) :
  Forall (fun y => is_image y = true) l ->
  exists s',
    for_each step' l s = (Ok tt, s')
    /\ stats s' !!! "scanned" = (stats s !!! "scanned" + Z.of_nat (length l))%Z
    /\ (routed_total (stats s) + Z.of_nat (length l) <= routed_total (stats s'))%Z
    /\ (routed_total (stats s') <= routed_total (stats s) + 2 * Z.of_nat (length l))%Z
    /\ ((forall y, y ∈ l -> unlink_error env UNLABELED_DIR y = None) ->
        routed_total (stats s') = (routed_total (stats s) + Z.of_nat (length l))%Z).
Proof.
  revert s. induction l as [|x l IH]; intros s Hl.
  - exists s. simpl. split; [done|]. repeat split; intros; lia.
  - apply Forall_cons in Hl as [Hx Hl].
    destruct (select_one_counts x s Hx) as (s1 & Hstep & Hsc & Hrt).
    destruct (IH s1 Hl) as (s' & Hloop & Hsc' & Hlo & Hhi & Hex).
    exists s'. rewrite for_each_cons, Hstep. split; [done|].
    cbn [length]. rewrite Nat2Z.inj_succ.
    split; [lia|]. split; [destruct Hrt as [?|[? _]]; lia|].
    split; [destruct Hrt as [?|[? _]]; lia|].
    intros Hno. rewrite Hex by (intros y Hy; apply Hno; by right).
    destruct Hrt as [?|[_ [e He]]]; [lia|].
    rewrite (Hno x) in He by (by left). discriminate.
Qed.

End SelectCounters.

(** The stage returns the counters of its loop, or raises from [save_log]. *)
Lemma stage_select_result (env : environment) (conf_low conf_high : Q) (fs : filesystem) :
  exists s,
    for_each (select_one env conf_low conf_high) (unlabeled_images fs)
             (SelectState fs stats0 []) = (Ok tt, s)
    /\ (LOG_CSV fs <> Some [] -> (stage_select env conf_low conf_high fs).1 = Ok (stats s))
    /\ (LOG_CSV fs = Some [] ->
        (stage_select env conf_low conf_high fs).1 = Raise EmptyDataError
        /\ LOG_CSV (stage_select env conf_low conf_high fs).2 = Some [])
    /\ (forall st, (stage_select env conf_low conf_high fs).1 = Ok st -> st = stats s).
Proof.
  destruct (stage_select_returns env conf_low conf_high fs)
    as (s & Hloop & Hlog & _ & _ & [[Hne E]|[He E]]);
    exists s; (split; [exact Hloop|]); rewrite E; cbn [fst snd].
  - split; [done|]. split; [done|]. intros st H. by injection H as <-.
  - split; [done|]. split; [by rewrite Hlog|]. intros st H. discriminate H.
Qed.

(** X1. With the removal of no image failing, the counters [stage_select]
    returns add up: [scanned = to_label + autolabeled + errors]; and it
    returns counters when the run log is absent or holds rows. *)
Theorem stage_select_accounted (env : environment) (conf_low conf_high : Q)
    (fs : filesystem) :
  (forall y, y ∈ unlabeled_images fs -> unlink_error env UNLABELED_DIR y = None) ->
  (LOG_CSV fs <> Some [] -> exists st, (stage_select env conf_low conf_high fs).1 = Ok st)
  /\ (forall st, (stage_select env conf_low conf_high fs).1 = Ok st -> accounted st).
Proof.
  intros Hno.
  destruct (stage_select_result env conf_low conf_high fs) as (s & Hloop & Hok & _ & Hst).
  destruct (for_each_counts env conf_low conf_high (unlabeled_images fs)
              (SelectState fs stats0 []) (unlabeled_images_image fs))
    as (s' & Hloop' & Hsc & _ & _ & Hex).
  rewrite Hloop in Hloop'. injection Hloop' as <-.
  split; [intros Hne; eauto|].
  intros st H. rewrite (Hst st H). unfold accounted.
  fold (routed_total (stats s)). rewrite Hsc, (Hex Hno). reflexivity.
Qed.

Lemma stage_select_accounted_witness :
  (LOG_CSV three_images <> Some [] ->
   exists st, (stage_select one_corrupt 0.15%Q 0.45%Q three_images).1 = Ok st)
  /\ (forall st, (stage_select one_corrupt 0.15%Q 0.45%Q three_images).1 = Ok st ->
                 accounted st).
Proof.
  apply (stage_select_accounted one_corrupt 0.15%Q 0.45%Q three_images).
  intros y _. reflexivity.
Defined.

(** X2. Whatever fails in the loop, [stage_select] returns its counters when
    the run log is absent or holds rows, and raises [EmptyDataError] from
    [save_log], after the loop, when the log is a file without rows. In the
    counters it returns, [scanned] is the number of images of the unlabeled
    pool and every image scanned is counted at least once and at most twice
    under the routes and errors. *)
Theorem stage_select_counter_bounds (env : environment) (conf_low conf_high : Q)
    (fs : filesystem) :
  (LOG_CSV fs <> Some [] -> exists st, (stage_select env conf_low conf_high fs).1 = Ok st)
  /\ (LOG_CSV fs = Some [] ->
      (stage_select env conf_low conf_high fs).1 = Raise EmptyDataError
      /\ LOG_CSV (stage_select env conf_low conf_high fs).2 = Some [])
  /\ (forall st, (stage_select env conf_low conf_high fs).1 = Ok st ->
        st !!! "scanned" = Z.of_nat (length (unlabeled_images fs))
        /\ (st !!! "scanned" <= routed_total st)%Z
        /\ (routed_total st <= 2 * st !!! "scanned")%Z).
Proof.
  destruct (stage_select_result env conf_low conf_high fs) as (s & Hloop & Hok & Hraise & Hst).
  destruct (for_each_counts env conf_low conf_high (unlabeled_images fs)
              (SelectState fs stats0 []) (unlabeled_images_image fs))
    as (s' & Hloop' & Hsc & Hlo & Hhi & _).
  rewrite Hloop in Hloop'. injection Hloop' as <-.
  split; [intros Hne; eauto|]. split; [exact Hraise|].
  intros st H. rewrite (Hst st H). cbn [stats] in *.
  change (stats0 !!! "scanned") with 0%Z in Hsc.
  change (routed_total stats0) with 0%Z in Hlo, Hhi.
  split; [lia|]. split; lia.
Qed.

(** A run over an empty unlabeled pool, with no log yet, writes a log without
    rows; the next run moves its image and raises. *)
Example empty_run_breaks_the_log :
  let fs1 := (stage_select blind_model 0.15%Q 0.45%Q (tree_with UNLABELED_DIR [])).2 in
  let r2 := stage_select blind_model 0.15%Q 0.45%Q
              (write_file UNLABELED_DIR "img.jpg" "bytes" fs1) in
  LOG_CSV fs1 = Some []
  /\ r2.1 = Raise EmptyDataError
  /\ ls r2.2 TO_LABEL_DIR !! "img.jpg" = Some "bytes"
  /\ ls r2.2 UNLABELED_DIR !! "img.jpg" = None
  /\ LOG_CSV r2.2 = Some [].
Proof. cbv zeta. repeat split; vm_compute; reflexivity. Qed.

(** What the stage leaves alone. *)
Lemma stage_select_outside (env : environment) (conf_low conf_high : Q)
    (fs : filesystem) :
  (forall d, d ≠ UNLABELED_DIR -> d ≠ TO_LABEL_DIR -> d ≠ AUTOLABELED_DIR ->
             ls (stage_select env conf_low conf_high fs).2 d = ls fs d)
  /\ hash_index (stage_select env conf_low conf_high fs).2 = hash_index fs
  /\ (forall y, y ∉ unlabeled_images fs ->
        ls (stage_select env conf_low conf_high fs).2 UNLABELED_DIR !! y
        = ls fs UNLABELED_DIR !! y
        /\ ls (stage_select env conf_low conf_high fs).2 TO_LABEL_DIR !! y
           = ls fs TO_LABEL_DIR !! y
        /\ (is_image y = true ->
            ls (stage_select env conf_low conf_high fs).2 AUTOLABELED_DIR !! y
            = ls fs AUTOLABELED_DIR !! y)).
Proof.
  destruct (stage_select_returns env conf_low conf_high fs)
    as (s & Hloop & _ & Hdirs & Hhash & _).
  destruct (for_each_frame env conf_low conf_high (unlabeled_images fs)
              (SelectState fs stats0 [])) as (s' & Hloop' & Hd & Hh & Hl & Hy).
  rewrite Hloop in Hloop'. injection Hloop' as <-.
  pose proof (fun d => stage_select_ls env conf_low conf_high fs s d Hdirs) as Hls.
  cbn [snd sel_fs] in *. split; [|split].
  - intros d H1 H2 H3. rewrite Hls. by apply Hd.
  - by rewrite Hhash.
  - intros y Hy'. rewrite !Hls. by apply Hy.
Qed.

(** X3. [stage_select] changes nothing outside the three pools it moves
    images between: the incoming directory, the human-labelled pool, the
    assembled dataset and the hash index are as before, and so is every file
    of a pool that is not an image of the unlabeled pool (in the autolabeled
    pool: every such image file). *)
Theorem stage_select_frame (env : environment) (conf_low conf_high : Q)
    (fs : filesystem) :
  (forall d, d ≠ UNLABELED_DIR -> d ≠ TO_LABEL_DIR -> d ≠ AUTOLABELED_DIR ->
             ls (stage_select env conf_low conf_high fs).2 d = ls fs d)
  /\ hash_index (stage_select env conf_low conf_high fs).2 = hash_index fs
  /\ (forall y, y ∉ unlabeled_images fs ->
        ls (stage_select env conf_low conf_high fs).2 UNLABELED_DIR !! y
        = ls fs UNLABELED_DIR !! y
        /\ ls (stage_select env conf_low conf_high fs).2 TO_LABEL_DIR !! y
           = ls fs TO_LABEL_DIR !! y
        /\ (is_image y = true ->
            ls (stage_select env conf_low conf_high fs).2 AUTOLABELED_DIR !! y
            = ls fs AUTOLABELED_DIR !! y)).
Proof.
  apply stage_select_outside.
Qed.

(** The bytes of a file of the unlabeled pool stay in one of the three pools. *)
Lemma stage_select_bytes_stay (env : environment) (conf_low conf_high : Q)
    (fs : filesystem) (y data : string) :
  ls fs UNLABELED_DIR !! y = Some data ->
  ls (stage_select env conf_low conf_high fs).2 UNLABELED_DIR !! y = Some data
  \/ ls (stage_select env conf_low conf_high fs).2 TO_LABEL_DIR !! y = Some data
  \/ ls (stage_select env conf_low conf_high fs).2 AUTOLABELED_DIR !! y = Some data.
Proof.
  intros Hy.
  destruct (decide (y ∈ unlabeled_images fs)) as [Hin|Hout].
  - destruct (stage_select_spec env conf_low conf_high fs)
      as (st & new & _ & _ & _ & _ & Hall).
    specialize (Hall y Hin).
    destruct (raises env conf_low conf_high fs y) as [e|].
    + left. by rewrite Hall.
    + destruct Hall as (_ & rt & reason & [-> | ->] & _ & _ & Hpool).
      * right; left. by rewrite <- Hy.
      * right; right. by rewrite <- Hy.
  - left. destruct (stage_select_outside env conf_low conf_high fs) as (_ & _ & Hf).
    destruct (Hf y Hout) as [-> _]. exact Hy.
Qed.

(** X4. No file of the unlabeled pool is lost: after the stage its bytes are
    under the same name in the unlabeled pool, in [TO_LABEL_DIR] or in
    [AUTOLABELED_DIR], whatever fails. *)
Theorem stage_select_keeps_bytes (env : environment) (conf_low conf_high : Q)
    (fs : filesystem) (y data : string) :
  ls fs UNLABELED_DIR !! y = Some data ->
  ls (stage_select env conf_low conf_high fs).2 UNLABELED_DIR !! y = Some data
  \/ ls (stage_select env conf_low conf_high fs).2 TO_LABEL_DIR !! y = Some data
  \/ ls (stage_select env conf_low conf_high fs).2 AUTOLABELED_DIR !! y = Some data.
Proof. apply stage_select_bytes_stay. Qed.

Lemma stage_select_keeps_bytes_witness :
  ls (stage_select read_only_pool 0.15%Q 0.45%Q one_image).2 UNLABELED_DIR !! "img.jpg"
  = Some "bytes"
  \/ ls (stage_select read_only_pool 0.15%Q 0.45%Q one_image).2 TO_LABEL_DIR !! "img.jpg"
     = Some "bytes"
  \/ ls (stage_select read_only_pool 0.15%Q 0.45%Q one_image).2 AUTOLABELED_DIR !! "img.jpg"
     = Some "bytes".
Proof.
  apply (stage_select_keeps_bytes read_only_pool 0.15%Q 0.45%Q one_image "img.jpg" "bytes").
  vm_compute. reflexivity.
Defined.

Section SelectLog.
Variable env : environment.
Variables conf_low conf_high : Q.

(** The rows a run of the loop appends: one or two for each image, each about
    an image of the list and with one of the three routes. *)
Lemma for_each_log (l : list string) (s : select_state) :
  Forall (fun y => is_image y = true) l ->
  exists s' new,
    for_each (select_one env conf_low conf_high) l s = (Ok tt, s')
    /\ rows s' = rows s ++ new
    /\ Forall (fun r => file r ∈ l /\ is_log_route (route r)) new
    /\ (length l <= length new <= 2 * length l)%nat.
Proof.
  revert s. induction l as [|x l IH]; intros s Hl.
  - exists s, []. split; [reflexivity|]. split; [by rewrite app_nil_r|].
    split; [constructor|simpl; lia].
  - apply Forall_cons in Hl as [Hx Hl].
    destruct (select_one_effect env conf_low conf_high x s Hx)
      as (s1 & newx & Hstep & _ & Hrows & Hcase).
    destruct (IH s1 Hl) as (s' & newl & Hloop & Hrows' & Hshape & Hlen).
    exists s', (newx ++ newl). rewrite for_each_cons, Hstep.
    split; [done|]. split; [by rewrite Hrows', Hrows, <- app_assoc|].
    assert (Hx' : Forall (fun r => file r ∈ x :: l /\ is_log_route (route r)) newx
                  /\ (1 <= length newx <= 2)%nat).
    { destruct ((select_body env conf_low conf_high x (scan s)).1).
      - destruct Hcase as (_ & rt & reason & Hrt & -> & _). split; [|simpl; lia].
        constructor; [|constructor]. split; [by left|].
        destruct Hrt as [-> | ->]; [by left|right; by left].
      - destruct Hcase as (_ & [[-> _]|(rt & reason & Hrt & -> & _)]).
        + split; [|simpl; lia]. constructor; [|constructor].
          split; [by left|right; by right].
        + split; [|simpl; lia]. constructor; [|constructor; [|constructor]].
          * split; [by left|]. destruct Hrt as [-> | ->]; [by left|right; by left].
          * split; [by left|right; by right]. }
    destruct Hx' as [Hfx Hlx]. split.
    + apply Forall_app. split; [exact Hfx|].
      eapply Forall_impl; [exact Hshape|]. simpl. intros r [Hr ?]. split; [by right|done].
    + rewrite length_app. cbn [length]. lia.
Qed.

End SelectLog.


Ltac in_cases H :=
  repeat (apply elem_of_cons in H as [->|H]); [..|exfalso; eapply elem_of_nil, H].



(** The log after the stage: the rows of the loop are appended, or, on the
    log without rows, nothing is. *)
Lemma stage_select_log (env : environment) (conf_low conf_high : Q) (fs : filesystem)
    (s : select_state) :
  for_each (select_one env conf_low conf_high) (unlabeled_images fs)
           (SelectState fs stats0 []) = (Ok tt, s) ->
  (LOG_CSV fs <> Some [] -> log_extended fs (stage_select env conf_low conf_high fs).2 (rows s))
  /\ (LOG_CSV fs = Some [] -> log_extended fs (stage_select env conf_low conf_high fs).2 []).
Proof.
  intros Hloop.
  destruct (stage_select_returns env conf_low conf_high fs)
    as (s' & Hloop' & Hlog & _ & _ & [[Hne E]|[He E]]);
    rewrite Hloop in Hloop'; injection Hloop' as <-; rewrite E; cbn [snd];
    (split; [|intros H; try congruence]); try (intros H; try congruence).
  - reflexivity.
  - unfold log_extended. by rewrite Hlog, H.
Qed.

(** X6. The run log is append-only under [stage_select]. When it is absent
    or holds rows, the rows it held are kept in front, and the rows added are
    one or two for each image scanned (two when the removal of a routed image
    fails), each about an image of the unlabeled pool, with route [to_label],
    [autolabeled] or [error]. When it is a file without rows, the stage
    raises and the log stays as it is. *)
Theorem stage_select_log_appended (env : environment) (conf_low conf_high : Q)
    (fs : filesystem) :
  (LOG_CSV fs <> Some [] ->
   exists st new,
     (stage_select env conf_low conf_high fs).1 = Ok st
     /\ log_extended fs (stage_select env conf_low conf_high fs).2 new
     /\ Forall (fun r => file r ∈ unlabeled_images fs /\ is_log_route (route r)) new
     /\ (length (unlabeled_images fs) <= length new
         <= 2 * length (unlabeled_images fs))%nat)
  /\ (LOG_CSV fs = Some [] ->
      (stage_select env conf_low conf_high fs).1 = Raise EmptyDataError
      /\ LOG_CSV (stage_select env conf_low conf_high fs).2 = LOG_CSV fs).
Proof.
  destruct (for_each_log env conf_low conf_high (unlabeled_images fs)
              (SelectState fs stats0 []) (unlabeled_images_image fs))
    as (s & new & Hloop & Hrows & Hshape & Hlen).
  simpl in Hrows.
  destruct (stage_select_result env conf_low conf_high fs) as (s' & Hloop' & Hok & Hraise & _).
  rewrite Hloop in Hloop'. injection Hloop' as <-.
  destruct (stage_select_log env conf_low conf_high fs s Hloop) as [Hext _].
  split.
  - intros Hne. exists (stats s), new. split; [by apply Hok|].
    split; [rewrite <- Hrows; by apply Hext|]. split; [exact Hshape|exact Hlen].
  - intros He. destruct (Hraise He) as [H1 H2]. split; [exact H1|]. by rewrite H2, He.
Qed.

Section SelectAutolabel.
Variable env : environment.
Variables conf_low conf_high : Q.

(** A file of [AUTOLABELED_DIR] stays: the body of the [try] only writes
    there. *)
Lemma select_body_auto_mono (x n : string) (s : select_state) :
  is_Some (ls (sel_fs s) AUTOLABELED_DIR !! n) ->
  is_Some (ls (sel_fs (select_body env conf_low conf_high x s).2) AUTOLABELED_DIR !! n).
Proof.
  intros Hn.
  destruct (select_body_cases env conf_low conf_high x)
    as [[e E]|[[reason E]|(xywhn & cls & reason & E)]]; rewrite E; [exact Hn|..].
  - unfold_io.
    destruct (copy_error env TO_LABEL_DIR x); [exact Hn|].
    destruct (ls (sel_fs s) UNLABELED_DIR !! x); [|exact Hn].
    simpl. destruct (unlink_error env UNLABELED_DIR x); simpl; by ls_simpl.
  - unfold_io.
    destruct (copy_error env AUTOLABELED_DIR x); [exact Hn|].
    destruct (ls (sel_fs s) UNLABELED_DIR !! x); [|exact Hn].
    simpl. destruct (write_error env AUTOLABELED_DIR _); simpl;
      [by apply write_file_mono|].
    destruct (unlink_error env UNLABELED_DIR x); simpl;
      rewrite ?ls_unlink_ne by dir_ne; by do 2 apply write_file_mono.
Qed.

(** A row of route [autolabeled] is appended only once the image and its
    annotation file are written. *)
Lemma select_body_autolabeled (x : string) (s : select_state) (new : list row) (r : row) :
  rows (select_body env conf_low conf_high x s).2 = rows s ++ new ->
  r ∈ new -> route r = "autolabeled" ->
  file r = x
  /\ is_Some (ls (sel_fs (select_body env conf_low conf_high x s).2) AUTOLABELED_DIR !! x)
  /\ is_Some (ls (sel_fs (select_body env conf_low conf_high x s).2) AUTOLABELED_DIR
              !! Pathlib.with_suffix x ".txt").
Proof.
  assert (Hnil : forall l : list row, rows s = rows s ++ l -> l = []).
  { intros l H. rewrite <- (app_nil_r (rows s)) in H at 1. by apply app_inv_head in H. }
  destruct (select_body_cases env conf_low conf_high x)
    as [[e E]|[[reason E]|(xywhn & cls & reason & E)]]; rewrite E.
  - simpl. intros H Hr. apply Hnil in H. subst new. by apply elem_of_nil in Hr.
  - unfold_io.
    destruct (copy_error env TO_LABEL_DIR x);
      [simpl; intros H Hr; apply Hnil in H; subst new; by apply elem_of_nil in Hr|].
    destruct (ls (sel_fs s) UNLABELED_DIR !! x);
      [|simpl; intros H Hr; apply Hnil in H; subst new; by apply elem_of_nil in Hr].
    simpl. destruct (unlink_error env UNLABELED_DIR x); simpl;
      intros H Hr Hrt; apply app_inv_head in H; subst new;
      apply list_elem_of_singleton in Hr; subst r; discriminate.
  - unfold_io. unfold Pathlib.with_suffix.
    destruct (copy_error env AUTOLABELED_DIR x);
      [simpl; intros H Hr; apply Hnil in H; subst new; by apply elem_of_nil in Hr|].
    destruct (ls (sel_fs s) UNLABELED_DIR !! x);
      [|simpl; intros H Hr; apply Hnil in H; subst new; by apply elem_of_nil in Hr].
    simpl. destruct (write_error env AUTOLABELED_DIR _); simpl;
      [intros H Hr; apply Hnil in H; subst new; by apply elem_of_nil in Hr|].
    destruct (unlink_error env UNLABELED_DIR x); simpl;
      intros H Hr Hrt; apply app_inv_head in H; subst new;
      apply list_elem_of_singleton in Hr; subst r; simpl;
      rewrite ?ls_unlink_ne by dir_ne;
      (split; [done|]; split;
       [apply write_file_mono; rewrite ls_write_file_eq, lookup_insert_eq; eauto
       |rewrite ls_write_file_eq, lookup_insert_eq; eauto]).
Qed.

(** The same for a run of the loop. *)
Lemma for_each_autolabeled (l : list string) (s : select_state) :
  exists s' new,
    for_each (select_one env conf_low conf_high) l s = (Ok tt, s')
    /\ rows s' = rows s ++ new
    /\ (forall n, is_Some (ls (sel_fs s) AUTOLABELED_DIR !! n) ->
                  is_Some (ls (sel_fs s') AUTOLABELED_DIR !! n))
    /\ forall r, r ∈ new -> route r = "autolabeled" ->
         file r ∈ l
         /\ is_Some (ls (sel_fs s') AUTOLABELED_DIR !! file r)
         /\ is_Some (ls (sel_fs s') AUTOLABELED_DIR !! Pathlib.with_suffix (file r) ".txt").
Proof.
  revert s. induction l as [|x l IH]; intros s.
  - exists s, []. split; [reflexivity|]. split; [by rewrite app_nil_r|].
    split; [done|]. intros r Hr. by apply elem_of_nil in Hr.
  - rewrite for_each_cons, select_one_unfold.
    pose proof (select_body_auto_mono x) as Hmono.
    pose proof (select_body_autolabeled x (scan s)) as Hauto.
    pose proof (body_rows env conf_low conf_high (sel_fs s) x (scan s) eq_refl) as Hrows.
    pose proof (fun r => Hauto _ r Hrows) as Hauto'. clear Hauto.
    destruct (select_body env conf_low conf_high x (scan s)) as [[[]|e] s1] eqn:Hb;
      cbn [fst snd] in *.
    + destruct (IH s1) as (s' & newl & Hloop & Hrows' & Hmono' & Hall).
      exists s', (logged env conf_low conf_high (sel_fs s) x ++ newl).
      split; [exact Hloop|]. split; [by rewrite Hrows', Hrows, <- app_assoc|].
      split.
      { intros n Hn. apply Hmono'. specialize (Hmono n (scan s) Hn).
        by rewrite Hb in Hmono. }
      intros r Hr Hrt. apply elem_of_app in Hr as [Hr|Hr].
      * destruct (Hauto' r Hr Hrt) as (-> & Hi & Hl).
        split; [by left|]. split; by apply Hmono'.
      * destruct (Hall r Hr Hrt) as (Hin & Hi & Hl). split; [by right|done].
    + destruct (IH (log_error x e s1)) as (s' & newl & Hloop & Hrows' & Hmono' & Hall).
      exists s', (logged env conf_low conf_high (sel_fs s) x ++ [Row x "error" e] ++ newl).
      split; [exact Hloop|]. split.
      { rewrite Hrows'. cbn [rows log_error]. by rewrite Hrows, <- !app_assoc. }
      split.
      { intros n Hn. apply Hmono'. specialize (Hmono n (scan s) Hn).
        by rewrite Hb in Hmono. }
      intros r Hr Hrt. apply elem_of_app in Hr as [Hr|Hr].
      * destruct (Hauto' r Hr Hrt) as (-> & Hi & Hl).
        split; [by left|]. split; by apply Hmono'.
      * apply elem_of_cons in Hr as [->|Hr]; [discriminate|].
        destruct (Hall r Hr Hrt) as (Hin & Hi & Hl). split; [by right|done].
Qed.

End SelectAutolabel.

(** The rows the stage adds to the log, and what a row of route
    [autolabeled] among them stands for. *)
Lemma stage_select_autolabeled (env : environment) (conf_low conf_high : Q)
    (fs : filesystem) :
  exists new,
    log_extended fs (stage_select env conf_low conf_high fs).2 new
    /\ forall r, r ∈ new -> route r = "autolabeled" ->
         is_Some (ls (stage_select env conf_low conf_high fs).2 AUTOLABELED_DIR !! file r)
         /\ is_Some (ls (stage_select env conf_low conf_high fs).2 AUTOLABELED_DIR
                     !! Pathlib.with_suffix (file r) ".txt")
         /\ ((AUTOLABELED_DIR, file r),
             (AUTOLABELED_DIR, Pathlib.with_suffix (file r) ".txt"))
            ∈ sources_of (stage_select env conf_low conf_high fs).2.
Proof.
  destruct (for_each_autolabeled env conf_low conf_high (unlabeled_images fs)
              (SelectState fs stats0 [])) as (s & new & Hloop & Hrows & _ & Hall).
  simpl in Hrows.
  destruct (stage_select_returns env conf_low conf_high fs)
    as (s' & Hloop' & _ & Hdirs & _ & _).
  rewrite Hloop in Hloop'. injection Hloop' as <-.
  pose proof (fun d => stage_select_ls env conf_low conf_high fs s d Hdirs) as Hls.
  destruct (stage_select_log env conf_low conf_high fs s Hloop) as [Hext Hkeep].
  assert (Hcase : LOG_CSV fs = Some [] \/ LOG_CSV fs <> Some []).
  { destruct (LOG_CSV fs) as [[|r0 old]|]; [by left|right; discriminate..]. }
  destruct Hcase as [He|Hne].
  { exists []. split; [by apply Hkeep|]. intros r Hr. by apply elem_of_nil in Hr. }
  exists new. split; [rewrite <- Hrows; by apply Hext|].
  intros r Hr Hrt. destruct (Hall r Hr Hrt) as (Hin & [di Hi] & Hl).
  rewrite !Hls. split; [eauto|]. split; [exact Hl|].
  unfold sources_of. apply elem_of_app. right. apply elem_of_gather.
  exists (file r), di. rewrite !Hls. split; [exact Hi|].
  split; [|split; [exact Hl|reflexivity]].
  pose proof (unlabeled_images_image fs) as Himg. rewrite Forall_forall in Himg.
  by apply Himg.
Qed.

(** X7. Every row of route [autolabeled] that [stage_select] adds to the log
    is about an image that is then in [AUTOLABELED_DIR] together with its
    annotation file, whatever failed afterwards: the two form one of the pairs
    [stage_prep] gathers. *)
Theorem stage_select_autolabeled_pairs (env : environment) (conf_low conf_high : Q)
    (fs : filesystem) :
  exists new,
    log_extended fs (stage_select env conf_low conf_high fs).2 new
    /\ forall r, r ∈ new -> route r = "autolabeled" ->
         is_Some (ls (stage_select env conf_low conf_high fs).2 AUTOLABELED_DIR !! file r)
         /\ is_Some (ls (stage_select env conf_low conf_high fs).2 AUTOLABELED_DIR
                     !! Pathlib.with_suffix (file r) ".txt")
         /\ ((AUTOLABELED_DIR, file r),
             (AUTOLABELED_DIR, Pathlib.with_suffix (file r) ".txt"))
            ∈ sources_of (stage_select env conf_low conf_high fs).2.
Proof.
  destruct (stage_select_autolabeled env conf_low conf_high fs) as (new & Hext & Hall).
  exists new. split; [exact Hext|].
  intros r Hr Hrt. destruct (Hall r Hr Hrt) as (Hi & Hl & Hsrc). done.
Qed.




Example select_then_prep_example :
  routes_logged (stage_select one_corrupt 0.15%Q 0.45%Q three_images).2
  = [("a.jpg", "autolabeled"); ("b.jpg", "error"); ("c.jpg", "to_label")]
  /\ map_to_list (ls (stage_prep (@rev (path * path)) 0.15%Q
                        (stage_select one_corrupt 0.15%Q 0.45%Q three_images).2).1
                     (YOLO_IMGS / "val")%path)
     = [("a.jpg", "A")]
  /\ map_to_list (ls (stage_prep (@rev (path * path)) 0.15%Q
                        (stage_select one_corrupt 0.15%Q 0.45%Q three_images).2).1
                     (YOLO_LABS / "val")%path)
     = [("a.txt", "0 0.500000 0.500000 0.200000 0.200000")].
Proof. repeat split; vm_compute; reflexivity. Qed.

(** ** Ingest: what the stage keeps, indexes and copies *)

(** X9. After [stage_ingest], the digest of every image of the incoming
    directory is in the hash index, whether the run copied the image or
    skipped it. *)
Theorem stage_ingest_indexes_every_image (fs : filesystem) (n c : string) :
  ls fs INCOMING_IMG !! n = Some c ->
  is_image n = true ->
  exists idx m, hash_index (stage_ingest fs).1 = Some idx
                /\ idx !! sha1_of_file c = Some m.
Proof.
  intros Hn Hi. rewrite stage_ingest_index. unfold ingest_loop.
  destruct (ingest_loop_indexed (sorted (glob fs INCOMING_IMG))
              (default ∅ (hash_index fs), ls fs UNLABELED_DIR, []) n c) as [m Hm];
    [by apply elem_of_sorted_glob|done|].
  eauto.
Qed.

Lemma stage_ingest_indexes_every_image_witness :
  exists idx m,
    hash_index (stage_ingest (fresh {[ "a.jpg" := "X"; "b.png" := "X" ]})).1 = Some idx
    /\ idx !! sha1_of_file "X" = Some m.
Proof.
  apply (stage_ingest_indexes_every_image (fresh {[ "a.jpg" := "X"; "b.png" := "X" ]})
           "b.png" "X").
  - vm_compute. reflexivity.
  - vm_compute. reflexivity.
Defined.

(** X10. [stage_ingest] keeps the pool indexed: if every file of the unlabeled
    pool is the file its digest is indexed under, the same holds after the
    run, and so no two files of the pool have the same bytes. *)
Theorem stage_ingest_keeps_pool_indexed (fs : filesystem) :
  pool_indexed fs ->
  pool_indexed (stage_ingest fs).1
  /\ forall n1 n2 c,
       ls (stage_ingest fs).1 UNLABELED_DIR !! n1 = Some c ->
       ls (stage_ingest fs).1 UNLABELED_DIR !! n2 = Some c ->
       n1 = n2.
Proof.
  intros Hpool.
  assert (Hinv : pool_indexed (stage_ingest fs).1).
  { unfold pool_indexed. rewrite stage_ingest_pool, stage_ingest_index.
    cbn [from_option id]. unfold ingest_loop. by apply ingest_loop_pool. }
  split; [exact Hinv|].
  intros n1 n2 c H1 H2. apply Hinv in H1, H2. congruence.
Qed.

Lemma stage_ingest_keeps_pool_indexed_witness :
  pool_indexed (stage_ingest (fresh {[ "a.jpg" := "X"; "b.png" := "X" ]})).1
  /\ forall n1 n2 c,
       ls (stage_ingest (fresh {[ "a.jpg" := "X"; "b.png" := "X" ]})).1 UNLABELED_DIR !! n1
       = Some c ->
       ls (stage_ingest (fresh {[ "a.jpg" := "X"; "b.png" := "X" ]})).1 UNLABELED_DIR !! n2
       = Some c ->
       n1 = n2.
Proof.
  apply (stage_ingest_keeps_pool_indexed (fresh {[ "a.jpg" := "X"; "b.png" := "X" ]})).
  intros m c H. rewrite ls_fresh_pool, lookup_empty in H. discriminate H.
Defined.

(** X11. The paths [stage_ingest] returns as new are pairwise different; each
    is an image of the incoming directory whose digest was not in the loaded
    index, and is in the unlabeled pool under its name with the bytes of the
    incoming file. *)
Theorem stage_ingest_new_paths (fs : filesystem) :
  NoDup (stage_ingest fs).2
  /\ forall n, n ∈ (stage_ingest fs).2 ->
       exists c, ls fs INCOMING_IMG !! n = Some c
                 /\ is_image n = true
                 /\ ls (stage_ingest fs).1 UNLABELED_DIR !! n = Some c
                 /\ default ∅ (hash_index fs) !! sha1_of_file c = None.
Proof. apply stage_ingest_new_copied. Qed.

(** The pool after the loop: no name is lost, and a name that is not an image
    the loop goes over keeps its bytes. *)
Lemma ingest_loop_pool_kept (items : list (string * string)) (st : ingest_state)
    (n : string) :
  (is_Some (st.1.2 !! n) -> is_Some ((fold_left ingest_one items st).1.2 !! n))
  /\ ((is_image n = false \/ n ∉ items.*1) ->
      (fold_left ingest_one items st).1.2 !! n = st.1.2 !! n).
Proof.
  revert st. induction items as [|ip items IH]; intros st; [by split|].
  cbn [fold_left]. destruct (IH (ingest_one st ip)) as [Hmono Hsame].
  destruct (ingest_one_cases st ip) as [[E _]|(E & Hi & _)]; rewrite E in *.
  - split; [exact Hmono|]. intros [H|H]; apply Hsame; [by left|right].
    intros Hin. apply H. by right.
  - cbn [fst snd] in *. split.
    + intros Hn. apply Hmono. destruct (decide (ip.1 = n)) as [<-|Hne].
      * rewrite lookup_insert_eq. eauto.
      * by rewrite lookup_insert_ne.
    + intros H. assert (Hne : ip.1 ≠ n).
      { intros <-. destruct H as [H|H]; [congruence|]. apply H. by left. }
      rewrite Hsame, lookup_insert_ne; [done|done|].
      destruct H as [H|H]; [by left|right]. intros Hin. apply H. by right.
Qed.

(** X12. [stage_ingest] writes to the unlabeled pool and to the hash index
    only: every other directory and the run log are as before; no name leaves
    the pool; and a pool file whose name is not that of an incoming image keeps
    its bytes. *)
Theorem stage_ingest_frame (fs : filesystem) :
  (forall d, d ≠ UNLABELED_DIR -> ls (stage_ingest fs).1 d = ls fs d)
  /\ LOG_CSV (stage_ingest fs).1 = LOG_CSV fs
  /\ (forall n, is_Some (ls fs UNLABELED_DIR !! n) ->
                is_Some (ls (stage_ingest fs).1 UNLABELED_DIR !! n))
  /\ (forall n, is_image n = false \/ ls fs INCOMING_IMG !! n = None ->
                ls (stage_ingest fs).1 UNLABELED_DIR !! n = ls fs UNLABELED_DIR !! n).
Proof.
  split; [|split; [|split]].
  - intros d Hd. rewrite stage_ingest_unfold. cbn [fst].
    rewrite ls_set_hash_index. by apply ls_set_dir_ne.
  - by rewrite stage_ingest_unfold.
  - intros n Hn. rewrite stage_ingest_pool. unfold ingest_loop.
    by apply (ingest_loop_pool_kept (sorted (glob fs INCOMING_IMG))
                (default ∅ (hash_index fs), ls fs UNLABELED_DIR, []) n).
  - intros n Hn. rewrite stage_ingest_pool. unfold ingest_loop.
    apply (ingest_loop_pool_kept (sorted (glob fs INCOMING_IMG))
             (default ∅ (hash_index fs), ls fs UNLABELED_DIR, []) n).
    destruct Hn as [Hn|Hn]; [by left|right].
    intros Hin. apply list_elem_of_fmap in Hin as ([m c] & -> & Hin).
    apply elem_of_sorted_glob in Hin. cbn [fst] in Hn. congruence.
Qed.

(** X13. Ingest feeds triage: every path [stage_ingest] returns as new is one
    of the images a following [stage_select] scans, and after that stage the
    bytes of the incoming file are under its name in the unlabeled pool, in
    [TO_LABEL_DIR] or in [AUTOLABELED_DIR]. *)
Theorem ingest_then_select (env : environment) (conf_low conf_high : Q)
    (fs : filesystem) (n : string) :
  n ∈ (stage_ingest fs).2 ->
  n ∈ unlabeled_images (stage_ingest fs).1
  /\ exists c,
       ls fs INCOMING_IMG !! n = Some c
       /\ (ls (stage_select env conf_low conf_high (stage_ingest fs).1).2 UNLABELED_DIR !! n
           = Some c
           \/ ls (stage_select env conf_low conf_high (stage_ingest fs).1).2 TO_LABEL_DIR !! n
              = Some c
           \/ ls (stage_select env conf_low conf_high (stage_ingest fs).1).2 AUTOLABELED_DIR
                !! n = Some c).
Proof.
  intros Hn. destruct (stage_ingest_new_copied fs) as [_ Hall].
  destruct (Hall n Hn) as (c & Hc & Hi & Hp & _).
  split; [apply elem_of_unlabeled_images; eauto|].
  exists c. split; [exact Hc|]. by apply stage_select_bytes_stay.
Qed.

Lemma ingest_then_select_witness :
  "a.jpg" ∈ unlabeled_images (stage_ingest (fresh {[ "a.jpg" := "X"; "b.png" := "X" ]})).1
  /\ exists c,
       ls (fresh {[ "a.jpg" := "X"; "b.png" := "X" ]}) INCOMING_IMG !! "a.jpg" = Some c
       /\ (ls (stage_select blind_model 0.15%Q 0.45%Q
                 (stage_ingest (fresh {[ "a.jpg" := "X"; "b.png" := "X" ]})).1).2
              UNLABELED_DIR !! "a.jpg" = Some c
           \/ ls (stage_select blind_model 0.15%Q 0.45%Q
                    (stage_ingest (fresh {[ "a.jpg" := "X"; "b.png" := "X" ]})).1).2
                 TO_LABEL_DIR !! "a.jpg" = Some c
           \/ ls (stage_select blind_model 0.15%Q 0.45%Q
                    (stage_ingest (fresh {[ "a.jpg" := "X"; "b.png" := "X" ]})).1).2
                 AUTOLABELED_DIR !! "a.jpg" = Some c).
Proof.
  apply (ingest_then_select blind_model 0.15%Q 0.45%Q
           (fresh {[ "a.jpg" := "X"; "b.png" := "X" ]}) "a.jpg").
  apply (bool_decide_unpack _). vm_compute. exact I.
Defined.

(** ** Dataset assembly: what is written where *)

#[local] Instance writes_to_dec (n_val : Z) (it : Z * (path * path)) (d name : string) :
  Decision (writes_to n_val it d name).
Proof. unfold writes_to. apply _. Defined.

Lemma write_file_lookup_ne (d n c d' n' : string) (fs : filesystem) :
  ~ (d = d' /\ n = n') ->
  ls (write_file d n c fs) d' !! n' = ls fs d' !! n'.
Proof.
  intros H. destruct (decide (d = d')) as [->|Hd].
  - rewrite ls_write_file_eq, lookup_insert_ne; [done|]. intros ->. by apply H.
  - by rewrite ls_write_file_ne.
Qed.

(** One iteration of the copy loop, with the bytes it copies. *)
Lemma copy_pair_writes_bytes (fs0 fs : filesystem) (n_val i : Z) (img lab : path) :
  matching_pair fs0 (img, lab) ->
  pools_kept fs0 fs ->
  exists di dl,
    ls fs0 img.1 !! img.2 = Some di
    /\ ls fs0 lab.1 !! lab.2 = Some dl
    /\ copy_pair n_val fs (i, (img, lab))
       = write_file (YOLO_LABS / split_of n_val i)%path lab.2 dl
           (write_file (YOLO_IMGS / split_of n_val i)%path img.2 di fs).
Proof.
  intros (Hd & -> & _ & [di Hi] & [dl Hl]) [Hk1 Hk2]. cbn [fst snd] in *.
  exists di, dl. split; [exact Hi|]. split; [exact Hl|].
  unfold copy_pair, safe_copy. cbn [fst snd].
  assert (Hi' : ls fs img.1 !! img.2 = Some di).
  { destruct Hd as [E|E]; rewrite E in *; by rewrite ?Hk1, ?Hk2. }
  rewrite Hi'.
  assert (Hl' : ls (write_file (YOLO_IMGS / split_of n_val i)%path img.2 di fs) img.1
                  !! Pathlib.with_suffix img.2 ".txt" = Some dl).
  { destruct Hd as [E|E]; rewrite E in *;
      destruct (split_of_cases n_val i) as [-> | ->]; ls_simpl;
      by rewrite ?Hk1, ?Hk2. }
  by rewrite Hl'.
Qed.

Lemma copy_pair_pools (fs0 fs : filesystem) (n_val : Z) (it : Z * (path * path)) :
  matching_pair fs0 it.2 ->
  pools_kept fs0 fs ->
  pools_kept fs0 (copy_pair n_val fs it).
Proof.
  destruct it as [i [img lab]]. cbn [snd]. intros Hm Hk.
  destruct (copy_pair_writes_bytes fs0 fs n_val i img lab Hm Hk) as (di & dl & _ & _ & ->).
  destruct Hk as [Hk1 Hk2]. unfold pools_kept.
  destruct (split_of_cases n_val i) as [-> | ->]; ls_simpl; done.
Qed.

Lemma copy_pair_untouched (fs0 fs : filesystem) (n_val : Z) (it : Z * (path * path))
    (d name : string) :
  matching_pair fs0 it.2 ->
  pools_kept fs0 fs ->
  ~ writes_to n_val it d name ->
  ls (copy_pair n_val fs it) d !! name = ls fs d !! name.
Proof.
  destruct it as [i [img lab]]. cbn [snd]. intros Hm Hk Hw.
  destruct (copy_pair_writes_bytes fs0 fs n_val i img lab Hm Hk) as (di & dl & _ & _ & ->).
  unfold writes_to in Hw. cbn [fst snd] in Hw.
  rewrite !write_file_lookup_ne; [done|intros [<- <-]; apply Hw; by left
                                      |intros [<- <-]; apply Hw; by right].
Qed.


(** The copy loop leaves alone every file that none of its iterations
    writes, and the hash index and the log. *)
Lemma copy_loop_untouched (fs0 : filesystem) (n_val : Z)
    (items : list (Z * (path * path))) (fs : filesystem) (d name : string) :
  Forall (fun it => matching_pair fs0 it.2) items ->
  pools_kept fs0 fs ->
  (forall it, it ∈ items -> ~ writes_to n_val it d name) ->
  ls (fold_left (copy_pair n_val) items fs) d !! name = ls fs d !! name.
Proof.
  revert fs. induction items as [|it items IH]; intros fs Hall Hk Hw; [done|].
  apply Forall_cons in Hall as [Hm Hall]. cbn [fold_left].
  rewrite IH; [|done|by apply copy_pair_pools|intros it' Hin; apply Hw; by right].
  apply (copy_pair_untouched fs0); [done|done|]. apply Hw. by left.
Qed.


(** Every file present after the copy loop was there before it or is written
    by one of its iterations. *)
Lemma copy_loop_origin (fs0 : filesystem) (n_val : Z)
    (items : list (Z * (path * path))) (fs : filesystem) (d name : string) :
  Forall (fun it => matching_pair fs0 it.2) items ->
  pools_kept fs0 fs ->
  is_Some (ls (fold_left (copy_pair n_val) items fs) d !! name) ->
  is_Some (ls fs d !! name) \/ exists it, it ∈ items /\ writes_to n_val it d name.
Proof.
  revert fs. induction items as [|it items IH]; intros fs Hall Hk Hs; [by left|].
  apply Forall_cons in Hall as [Hm Hall]. cbn [fold_left] in Hs.
  destruct (IH (copy_pair n_val fs it) Hall (copy_pair_pools fs0 fs n_val it Hm Hk) Hs)
    as [H1|(it' & Hin & Hw)].
  - destruct (decide (writes_to n_val it d name)) as [Hw|Hw].
    + right. exists it. split; [by left|done].
    + left. by rewrite (copy_pair_untouched fs0) in H1.
  - right. exists it'. split; [by right|done].
Qed.

Lemma elem_of_enumerate_inv {A : Type} (l : list A) (i : Z) (x : A) :
  (i, x) ∈ enumerate l -> exists k, i = Z.of_nat k /\ l !! k = Some x.
Proof.
  unfold enumerate. intros Hin. apply list_elem_of_lookup in Hin as [k Hk].
  rewrite list_lookup_imap in Hk. destruct (l !! k) as [y|] eqn:E; [|discriminate].
  injection Hk as Hi Hx. subst. by exists k.
Qed.


Lemma clear_splits_empty (fs : filesystem) (d : string) :
  d ∈ split_dirs -> ls (clear_splits fs) d = ∅.
Proof.
  unfold split_dirs, clear_splits. cbn [fold_left]. intros Hd.
  in_cases Hd; by ls_simpl.
Qed.

Section PrepCounts.
Local Open Scope Z_scope.



Lemma n_val_of_nonneg (n : Z) (v : Q) : 0 <= n_val_of n v.
Proof. unfold n_val_of. destruct (Z.eqb_spec n 0); lia. Qed.



End PrepCounts.


Lemma split_dir_inj (a b sp sp' : string) :
  (a = YOLO_IMGS \/ a = YOLO_LABS) -> (b = YOLO_IMGS \/ b = YOLO_LABS) ->
  (sp = "train" \/ sp = "val") -> (sp' = "train" \/ sp' = "val") ->
  (a / sp)%path = (b / sp')%path -> a = b /\ sp = sp'.
Proof.
  intros [-> | ->] [-> | ->] [-> | ->] [-> | ->] H;
    first [done | vm_compute in H; discriminate H].
Qed.

(** The files of the split directories after [stage_prep] come from the
    shuffled pairs. *)
Lemma stage_prep_origin
    (shuffle : list (path * path) -> list (path * path)) (val_split : Q)
    (fs : filesystem) (d name : string) :
  (forall l, shuffle l ≡ₚ l) ->
  d ∈ split_dirs ->
  is_Some (ls (stage_prep shuffle val_split fs).1 d !! name) ->
  exists i img lab,
    shuffle (sources_of fs) !! i = Some (img, lab)
    /\ writes_to (stage_prep shuffle val_split fs).2.2 (Z.of_nat i, (img, lab)) d name.
Proof.
  intros Hperm Hd Hs. unfold stage_prep in *. cbn [fst snd] in *.
  apply (copy_loop_origin fs) in Hs as [Hs|([i [img lab]] & Hin & Hw)].
  - rewrite clear_splits_empty, lookup_empty in Hs by done. by destruct Hs.
  - apply elem_of_enumerate_inv in Hin as (k & -> & Hk). eauto.
  - apply enumerate_snd, Forall_forall. intros p Hp. rewrite Hperm in Hp.
    by apply sources_matching.
  - apply clear_splits_pools.
Qed.




(** ** Dataset assembly: the bytes of the copies *)

Lemma images_labels_ne (sp sp' : string) :
  (sp = "train" \/ sp = "val") -> (sp' = "train" \/ sp' = "val") ->
  (YOLO_IMGS / sp)%path <> (YOLO_LABS / sp')%path.
Proof.
  intros H1 H2 E. apply split_dir_inj in E as [E _]; auto. discriminate E.
Qed.

(** When no two pairs of the loop have an annotation file of the same name,
    each pair's two files are, after the loop, in the directories of its
    split with the bytes of the pool. *)
Lemma copy_loop_bytes (fs0 : filesystem) (n_val : Z)
    (items : list (Z * (path * path))) (fs : filesystem) :
  Forall (fun it => matching_pair fs0 it.2) items ->
  pools_kept fs0 fs ->
  NoDup ((fun it : Z * (path * path) => it.2.2.2) <$> items) ->
  forall (i : Z) (img lab : path), (i, (img, lab)) ∈ items ->
    ls (fold_left (copy_pair n_val) items fs) (YOLO_IMGS / split_of n_val i)%path !! img.2
    = ls fs0 img.1 !! img.2
    /\ ls (fold_left (copy_pair n_val) items fs) (YOLO_LABS / split_of n_val i)%path !! lab.2
       = ls fs0 lab.1 !! lab.2.
Proof.
  revert fs. induction items as [|it items IH]; intros fs Hall Hk Hnd i img lab Hin.
  { exfalso. eapply elem_of_nil, Hin. }
  apply Forall_cons in Hall as [Hm Hall]. rewrite fmap_cons in Hnd.
  apply NoDup_cons in Hnd as [Hnew Hnd]. cbn [fold_left].
  apply elem_of_cons in Hin as [<-|Hin].
  2:{ apply IH; [done|by apply copy_pair_pools|done|done]. }
  cbn [snd] in Hm, Hnew.
  assert (Hlab : lab.2 = Pathlib.with_suffix img.2 ".txt").
  { destruct Hm as (_ & -> & _). done. }
  assert (Hfree : forall it', it' ∈ items ->
            ~ writes_to n_val it' (YOLO_IMGS / split_of n_val i)%path img.2
            /\ ~ writes_to n_val it' (YOLO_LABS / split_of n_val i)%path lab.2).
  { intros [j [img' lab']] Hin'.
    assert (Hm' : matching_pair fs0 (img', lab')).
    { rewrite Forall_forall in Hall. apply (Hall _ Hin'). }
    assert (Hlab' : lab'.2 = Pathlib.with_suffix img'.2 ".txt").
    { destruct Hm' as (_ & -> & _). done. }
    assert (Hne : lab.2 <> lab'.2).
    { intros E. apply Hnew. rewrite E.
      apply list_elem_of_fmap. by exists (j, (img', lab')). }
    unfold writes_to. cbn [fst snd].
    split; intros [[E1 E2]|[E1 E2]].
    - apply Hne. by rewrite Hlab, Hlab', E2.
    - by apply images_labels_ne in E1; auto using split_of_cases.
    - symmetry in E1. by apply images_labels_ne in E1; auto using split_of_cases.
    - by apply Hne. }
  rewrite !(copy_loop_untouched fs0);
    [|done|by apply copy_pair_pools|intros it' Hin'; apply (Hfree it' Hin')
     |done|by apply copy_pair_pools|intros it' Hin'; apply (Hfree it' Hin')].
  destruct (copy_pair_writes_bytes fs0 fs n_val i img lab Hm Hk)
    as (di & dl & Hi & Hl & ->).
  rewrite Hi, Hl. split.
  - rewrite ls_write_file_ne.
    + by rewrite ls_write_file_eq, lookup_insert_eq.
    + intros E. symmetry in E. by apply images_labels_ne in E; auto using split_of_cases.
  - by rewrite ls_write_file_eq, lookup_insert_eq.
Qed.

Lemma enumerate_names (l : list (path * path)) :
  (fun it : Z * (path * path) => it.2.2.2) <$> enumerate l
  = (fun p : path * path => p.2.2) <$> l.
Proof.
  unfold enumerate. apply list_eq. intros k.
  rewrite !list_lookup_fmap, list_lookup_imap. destruct (l !! k); reflexivity.
Qed.



(** ** Dataset assembly: the counts and the files *)

Lemma dir_size (m : gmap string string) (l : list (path * path))
    (f : path * path -> string) :
  NoDup (f <$> l) ->
  (forall x, is_Some (m !! x) <-> exists p, p ∈ l /\ f p = x) ->
  size m = length l.
Proof.
  intros Hnd Hm.
  rewrite <- (size_dom (D := gset string)), <- (length_fmap f l).
  rewrite <- (size_list_to_set (C := gset string)) by done. f_equal.
  apply set_eq. intros x. rewrite elem_of_dom, elem_of_list_to_set, Hm, list_elem_of_fmap.
  split; intros (p & H1 & H2); exists p; done.
Qed.

Lemma split_of_val (n_val : Z) (i : nat) :
  (0 <= n_val)%Z -> split_of n_val (Z.of_nat i) = "val" <-> (i < Z.to_nat n_val)%nat.
Proof.
  intros Hn. unfold split_of. destruct (Z.ltb_spec (Z.of_nat i) n_val); split; intros H';
    first [done | lia | discriminate H'].
Qed.

Lemma split_of_train (n_val : Z) (i : nat) :
  (0 <= n_val)%Z -> split_of n_val (Z.of_nat i) = "train" <-> (Z.to_nat n_val <= i)%nat.
Proof.
  intros Hn. unfold split_of. destruct (Z.ltb_spec (Z.of_nat i) n_val); split; intros H';
    first [done | lia | discriminate H'].
Qed.

(** The pairs of a split: the first [n_val] of the list for [val], the
    others for [train]. *)
Lemma elem_of_split_part (l : list (path * path)) (n_val : Z) (sp : string) (p : path * path) :
  (0 <= n_val)%Z ->
  (sp = "train" \/ sp = "val") ->
  p ∈ (if decide (sp = "val") then take (Z.to_nat n_val) l else drop (Z.to_nat n_val) l)
  <-> exists i, l !! i = Some p /\ split_of n_val (Z.of_nat i) = sp.
Proof.
  intros Hn [-> | ->].
  - rewrite decide_False by discriminate. rewrite list_elem_of_lookup. split.
    + intros [i Hi]. rewrite lookup_drop in Hi. exists (Z.to_nat n_val + i)%nat.
      split; [done|]. apply split_of_train; lia.
    + intros (i & Hi & Hs). apply split_of_train in Hs; [|done].
      exists (i - Z.to_nat n_val)%nat. rewrite lookup_drop.
      by replace (Z.to_nat n_val + (i - Z.to_nat n_val))%nat with i by lia.
  - rewrite decide_True by done. rewrite list_elem_of_lookup. split.
    + intros [i Hi]. apply lookup_take_Some in Hi as [Hi Hlt]. exists i.
      split; [done|]. by apply split_of_val.
    + intros (i & Hi & Hs). apply split_of_val in Hs; [|done].
      exists i. by apply lookup_take_Some.
Qed.

Lemma stage_prep_written
    (shuffle : list (path * path) -> list (path * path)) (val_split : Q)
    (fs : filesystem) (i : nat) (img lab : path) :
  (forall l, shuffle l ≡ₚ l) ->
  shuffle (sources_of fs) !! i = Some (img, lab) ->
  let r := stage_prep shuffle val_split fs in
  is_Some (ls r.1 (YOLO_IMGS / split_of r.2.2 (Z.of_nat i))%path !! img.2)
  /\ is_Some (ls r.1 (YOLO_LABS / split_of r.2.2 (Z.of_nat i))%path !! lab.2).
Proof.
  intros Hperm Hi. cbv zeta. unfold stage_prep. cbn [fst snd].
  destruct (copy_loop_inv fs
              (n_val_of (Z.of_nat (length (shuffle (sources_of fs)))) val_split)
              (enumerate (shuffle (sources_of fs))) (clear_splits fs))
    as (_ & _ & _ & Hwritten).
  { apply enumerate_snd, Forall_forall. intros p Hp. rewrite Hperm in Hp.
    by apply sources_matching. }
  { apply clear_splits_pools. }
  { apply clear_splits_paired. }
  apply Hwritten. by apply elem_of_enumerate.
Qed.

(** The names in a split directory are those of the pairs of the split. *)
Lemma stage_prep_names
    (shuffle : list (path * path) -> list (path * path)) (val_split : Q)
    (fs : filesystem) (sp name : string) :
  (forall l, shuffle l ≡ₚ l) ->
  (sp = "train" \/ sp = "val") ->
  let r := stage_prep shuffle val_split fs in
  let part := if decide (sp = "val")
              then take (Z.to_nat r.2.2) (shuffle (sources_of fs))
              else drop (Z.to_nat r.2.2) (shuffle (sources_of fs)) in
  (is_Some (ls r.1 (YOLO_IMGS / sp)%path !! name)
   <-> exists p, p ∈ part /\ (fun p : path * path => p.1.2) p = name)
  /\ (is_Some (ls r.1 (YOLO_LABS / sp)%path !! name)
      <-> exists p, p ∈ part /\ (fun p : path * path => p.2.2) p = name).
Proof.
  intros Hperm Hsp. cbv zeta.
  assert (Hn : (0 <= (stage_prep shuffle val_split fs).2.2)%Z).
  { unfold stage_prep. cbn [snd]. apply n_val_of_nonneg. }
  split; split.
  - intros Hs. apply stage_prep_origin in Hs as (i & img & lab & Hi & Hw); [|done|].
    + exists (img, lab). split.
      * apply elem_of_split_part; [done|done|]. exists i. split; [done|].
        unfold writes_to in Hw. cbn [fst snd] in Hw.
        destruct Hw as [[E _]|[E _]];
          apply split_dir_inj in E as [E1 E2]; auto using split_of_cases.
      * unfold writes_to in Hw. cbn [fst snd] in Hw.
        destruct Hw as [[_ ->]|[E _]]; [done|].
        apply split_dir_inj in E as [E1 E2]; auto using split_of_cases.
        discriminate E1.
    + unfold split_dirs. destruct Hsp as [-> | ->]; repeat first [by left | right].
  - intros ([img lab] & Hin & <-). apply elem_of_split_part in Hin as (i & Hi & <-); [|done..].
    by apply (stage_prep_written shuffle val_split fs i img lab).
  - intros Hs. apply stage_prep_origin in Hs as (i & img & lab & Hi & Hw); [|done|].
    + exists (img, lab). split.
      * apply elem_of_split_part; [done|done|]. exists i. split; [done|].
        unfold writes_to in Hw. cbn [fst snd] in Hw.
        destruct Hw as [[E _]|[E _]];
          apply split_dir_inj in E as [E1 E2]; auto using split_of_cases.
      * unfold writes_to in Hw. cbn [fst snd] in Hw.
        destruct Hw as [[E _]|[_ ->]]; [|done].
        apply split_dir_inj in E as [E1 E2]; auto using split_of_cases.
        discriminate E1.
    + unfold split_dirs. destruct Hsp as [-> | ->]; repeat first [by left | right].
  - intros ([img lab] & Hin & <-). apply elem_of_split_part in Hin as (i & Hi & <-); [|done..].
    by apply (stage_prep_written shuffle val_split fs i img lab).
Qed.

(** Distinct annotation names give distinct image names. *)
Lemma image_names_NoDup (fs : filesystem) (l : list (path * path)) :
  Forall (matching_pair fs) l ->
  NoDup ((fun p : path * path => p.2.2) <$> l) ->
  NoDup ((fun p : path * path => p.1.2) <$> l).
Proof.
  intros Hall Hnd.
  apply (NoDup_fmap_1 (fun n => Pathlib.with_suffix n ".txt")).
  rewrite <- list_fmap_compose.
  erewrite list_fmap_ext; [exact Hnd|].
  intros k [img lab] Hk. cbn.
  rewrite Forall_forall in Hall. apply list_elem_of_lookup_2, Hall in Hk.
  destruct Hk as (_ & -> & _). done.
Qed.

(** X17. When no two pairs of the merged pools have an annotation file of
    the same name and the validation fraction is in [0, 1], the counts
    [stage_prep] returns are the numbers of files of the rebuilt directories:
    [train_count] images in [images/train] and as many annotation files in
    [labels/train], [val_count] in [images/val] and in [labels/val]. *)
Theorem stage_prep_counts_files
    (shuffle : list (path * path) -> list (path * path)) (val_split : Q)
    (fs : filesystem) :
  (forall l, shuffle l ≡ₚ l) ->
  NoDup ((fun p : path * path => p.2.2) <$> sources_of fs) ->
  (0 <= val_split)%Q ->
  (val_split <= 1)%Q ->
  let r := stage_prep shuffle val_split fs in
  Z.of_nat (size (ls r.1 (YOLO_IMGS / "train")%path)) = r.2.1
  /\ Z.of_nat (size (ls r.1 (YOLO_LABS / "train")%path)) = r.2.1
  /\ Z.of_nat (size (ls r.1 (YOLO_IMGS / "val")%path)) = r.2.2
  /\ Z.of_nat (size (ls r.1 (YOLO_LABS / "val")%path)) = r.2.2.
Proof.
  intros Hperm Hnd H0 H1. cbv zeta.
  set (srcs := shuffle (sources_of fs)).
  assert (Hmatch : Forall (matching_pair fs) srcs).
  { apply Forall_forall. intros p Hp. subst srcs. rewrite Hperm in Hp.
    by apply sources_matching. }
  assert (Hlabs : NoDup ((fun p : path * path => p.2.2) <$> srcs)).
  { subst srcs. by rewrite Hperm. }
  assert (Himgs : NoDup ((fun p : path * path => p.1.2) <$> srcs)).
  { by apply (image_names_NoDup fs). }
  set (n_val := (stage_prep shuffle val_split fs).2.2).
  assert (Hnv : (Z.to_nat n_val <= length srcs)%nat
                /\ (stage_prep shuffle val_split fs).2.1
                   = Z.of_nat (length srcs - Z.to_nat n_val)).
  { subst n_val. unfold stage_prep. cbn [fst snd]. fold srcs.
    destruct (decide (length srcs = 0%nat)) as [E|E].
    - rewrite E. change (n_val_of (Z.of_nat 0) val_split) with 0%Z.
      split; [simpl; lia|reflexivity].
    - destruct (n_val_of_spec (Z.of_nat (length srcs)) val_split) as (_ & _ & Hb);
        [lia|done|done|]. lia. }
  destruct Hnv as [Hle Htrain].
  pose proof (fun name => stage_prep_names shuffle val_split fs "train" name
                            Hperm (or_introl eq_refl)) as Ht.
  pose proof (fun name => stage_prep_names shuffle val_split fs "val" name
                            Hperm (or_intror eq_refl)) as Hv.
  cbv zeta in Ht, Hv. rewrite decide_False in Ht by discriminate.
  rewrite decide_True in Hv by done. fold srcs n_val in Ht, Hv.
  assert (Hsub_t : forall f : path * path -> string,
            NoDup (f <$> srcs) -> NoDup (f <$> drop (Z.to_nat n_val) srcs)).
  { intros f Hf. eapply sublist_NoDup; [exact Hf|]. apply fmap_sublist, sublist_drop. }
  assert (Hsub_v : forall f : path * path -> string,
            NoDup (f <$> srcs) -> NoDup (f <$> take (Z.to_nat n_val) srcs)).
  { intros f Hf. eapply sublist_NoDup; [exact Hf|]. apply fmap_sublist, sublist_take. }
  rewrite Htrain.
  rewrite (dir_size _ (drop (Z.to_nat n_val) srcs) (fun p => p.1.2));
    [|by apply Hsub_t|intros x; apply (Ht x)].
  rewrite (dir_size _ (drop (Z.to_nat n_val) srcs) (fun p => p.2.2));
    [|by apply Hsub_t|intros x; apply (Ht x)].
  rewrite (dir_size _ (take (Z.to_nat n_val) srcs) (fun p => p.1.2));
    [|by apply Hsub_v|intros x; apply (Hv x)].
  rewrite (dir_size _ (take (Z.to_nat n_val) srcs) (fun p => p.2.2));
    [|by apply Hsub_v|intros x; apply (Hv x)].
  rewrite length_drop, length_take.
  assert (0 <= n_val)%Z.
  { subst n_val. unfold stage_prep. cbn [snd]. apply n_val_of_nonneg. }
  lia.
Qed.

Lemma stage_prep_counts_files_witness :
  let r := stage_prep (@rev (path * path)) 0.15%Q labelled_tree in
  Z.of_nat (size (ls r.1 (YOLO_IMGS / "train")%path)) = r.2.1
  /\ Z.of_nat (size (ls r.1 (YOLO_LABS / "train")%path)) = r.2.1
  /\ Z.of_nat (size (ls r.1 (YOLO_IMGS / "val")%path)) = r.2.2
  /\ Z.of_nat (size (ls r.1 (YOLO_LABS / "val")%path)) = r.2.2.
Proof.
  apply (stage_prep_counts_files (@rev (path * path)) 0.15%Q labelled_tree).
  - intros l. symmetry. apply Permutation_rev.
  - apply (bool_decide_unpack _). vm_compute. exact I.
  - vm_compute. discriminate.
  - vm_compute. discriminate.
Defined.

(** ** Dataset assembly: the specified property *)

(** The pairs gathered are exactly the images of the two labelled pools that
    have their annotation file next to them. *)
Lemma elem_of_sources (fs : filesystem) (p : path * path) :
  p ∈ sources_of fs <-> matching_pair fs p.
Proof.
  split; [apply sources_matching|].
  destruct p as [[d img] lab]. intros (Hd & -> & Hi & [data Hdata] & Hl).
  cbn [fst snd] in *.
  unfold sources_of. rewrite elem_of_app, !elem_of_gather.
  destruct Hd as [-> | ->]; [left|right]; exists img, data; done.
Qed.

Lemma gather_NoDup (fs : filesystem) (d : string) : NoDup (gather fs d).
Proof.
  apply (NoDup_fmap_1 (fun p : path * path => p.1.2)).
  eapply sublist_NoDup; [apply (NoDup_fst_map_to_list (ls fs d))|].
  unfold gather, glob.
  induction (map_to_list (ls fs d)) as [|[n c] l IH]; [constructor|].
  cbn [omap list_omap fst snd]. rewrite fmap_cons. cbn [fst].
  destruct (negb (is_image n)); [by apply sublist_cons|].
  destruct (negb (file_exists fs d (Pathlib.with_suffix n ".txt")));
    [by apply sublist_cons|].
  cbn. by apply sublist_skip.
Qed.

(** Each image is gathered once. *)
Lemma sources_NoDup (fs : filesystem) : NoDup (sources_of fs).
Proof.
  unfold sources_of. apply NoDup_app. split; [apply gather_NoDup|].
  split; [|apply gather_NoDup].
  intros p H1 H2. apply elem_of_gather in H1 as (i1 & d1 & _ & _ & _ & ->).
  apply elem_of_gather in H2 as (i2 & d2 & _ & _ & _ & E). discriminate E.
Qed.

(** C3, as stated, fails: with 20 pairs and the default fraction 0.15 (the
    double nearest to it, which is below 0.15) the product over the reals is
    below 3 and its floor is 2, while the product of the code is rounded to
    the double 3.0 and [stage_prep] returns 17 and 3. *)
Lemma stage_prep_rounds_the_product :
  let val_split := Float.round64 0.15 in
  let n := Z.of_nat (length (sources_of (numbered_pairs 20))) in
  let r := stage_prep (@rev (path * path)) val_split (numbered_pairs 20) in
  n = 20%Z
  /\ (0 <= val_split)%Q /\ (val_split <= 1)%Q
  /\ r.2 = (17%Z, 3%Z)
  /\ Z.max 1 (Qfloor (inject_Z n * val_split)) = 2%Z
  /\ r.2.2 <> Z.max 1 (Qfloor (inject_Z n * val_split)).
Proof.
  cbv zeta. split; [vm_compute; reflexivity|].
  split; [vm_compute; discriminate|]. split; [vm_compute; discriminate|].
  split; [vm_compute; reflexivity|]. split; [vm_compute; reflexivity|].
  vm_compute. discriminate.
Qed.

(** C3, amended. For a merged pool of [n] pairs and a validation fraction in
    [0, 1], [stage_prep] returns counts with [train_count + val_count = n]
    and [val_count = max 1 (floor (n * val_split))], the product being the
    one of the code, rounded to the nearest double ([n] below [2 ^ 53]): this
    is the value over the reals or one more. When [n] is zero it returns
    [(0, 0)]. The pairs are, each once, exactly the images of the two
    labelled pools that have the annotation file of the same stem next to
    them (an image without one is in no pair); each pair is written to the
    images and labels directories of its split, with the bytes of the pool
    when no two pairs have an annotation file of the same name; and in the
    result every image of a split has its annotation file in the same
    split. *)
Theorem stage_prep_split_complete
    (shuffle : list (path * path) -> list (path * path)) (val_split : Q)
    (fs : filesystem) :
  (forall l, shuffle l ≡ₚ l) ->
  (0 <= val_split)%Q ->
  (val_split <= 1)%Q ->
  let srcs := shuffle (sources_of fs) in
  let n := Z.of_nat (length (sources_of fs)) in
  let r := stage_prep shuffle val_split fs in
  (n ≠ 0%Z ->
     (r.2.1 + r.2.2 = n)%Z
     /\ ((n < 2 ^ 53)%Z ->
         r.2.2 = Z.max 1 (Qfloor (Float.round64 (inject_Z n * val_split))))
     /\ (Z.max 1 (Qfloor (inject_Z n * val_split)) <= r.2.2
         <= Z.max 1 (Qfloor (inject_Z n * val_split) + 1))%Z)
  /\ (n = 0%Z -> r.2 = (0%Z, 0%Z))
  /\ NoDup srcs
  /\ (forall p, p ∈ srcs <-> matching_pair fs p)
  /\ (forall d img lab, ls fs d !! Pathlib.with_suffix img ".txt" = None ->
                        ((d, img), lab) ∉ srcs)
  /\ (forall i img lab, srcs !! i = Some (img, lab) ->
        is_Some (ls r.1 (YOLO_IMGS / split_of r.2.2 (Z.of_nat i))%path !! img.2)
        /\ is_Some (ls r.1 (YOLO_LABS / split_of r.2.2 (Z.of_nat i))%path !! lab.2))
  /\ (NoDup (label_names srcs) ->
      forall i img lab, srcs !! i = Some (img, lab) ->
        ls r.1 (YOLO_IMGS / split_of r.2.2 (Z.of_nat i))%path !! img.2
        = ls fs img.1 !! img.2
        /\ ls r.1 (YOLO_LABS / split_of r.2.2 (Z.of_nat i))%path !! lab.2
           = ls fs lab.1 !! lab.2)
  /\ splits_paired r.1.
Proof.
  intros Hperm H0 H1. cbv zeta.
  assert (Hmatch : forall p, p ∈ shuffle (sources_of fs) <-> matching_pair fs p).
  { intros p. rewrite Hperm. apply elem_of_sources. }
  assert (Hall : Forall (fun it : Z * (path * path) => matching_pair fs it.2)
                   (enumerate (shuffle (sources_of fs)))).
  { apply enumerate_snd, Forall_forall. intros p Hp. by apply Hmatch. }
  unfold stage_prep. cbn [fst snd].
  assert (Hlen : length (shuffle (sources_of fs)) = length (sources_of fs)).
  { by rewrite Hperm. }
  rewrite Hlen.
  set (n_val := n_val_of (Z.of_nat (length (sources_of fs))) val_split).
  destruct (copy_loop_inv fs n_val (enumerate (shuffle (sources_of fs))) (clear_splits fs)
              Hall (clear_splits_pools fs) (clear_splits_paired fs))
    as (_ & Hpaired & _ & Hwritten).
  split; [|split; [|split; [|split; [|split; [|split; [|split]]]]]].
  - intros Hn.
    destruct (n_val_of_spec (Z.of_nat (length (sources_of fs))) val_split)
      as (E & Hnear & Hb); [lia|done|done|].
    fold n_val in E, Hnear, Hb. split; [lia|]. split; [exact E|exact Hnear].
  - intros E. subst n_val. rewrite E. reflexivity.
  - rewrite Hperm. apply sources_NoDup.
  - exact Hmatch.
  - intros d img lab Hnone Hin. rewrite Hperm in Hin.
    by apply (sources_need_annotation fs d img lab).
  - intros i img lab Hi. apply Hwritten. by apply elem_of_enumerate.
  - intros Hnd i img lab Hi. apply (copy_loop_bytes fs).
    + exact Hall.
    + apply clear_splits_pools.
    + by rewrite enumerate_names.
    + by apply elem_of_enumerate.
  - exact Hpaired.
Qed.

Lemma stage_prep_split_complete_witness :
  let val_split := Float.round64 0.15 in
  let fs := numbered_pairs 20 in
  let srcs := rev (sources_of fs) in
  let n := Z.of_nat (length (sources_of fs)) in
  let r := stage_prep (@rev (path * path)) val_split fs in
  (n ≠ 0%Z ->
     (r.2.1 + r.2.2 = n)%Z
     /\ ((n < 2 ^ 53)%Z ->
         r.2.2 = Z.max 1 (Qfloor (Float.round64 (inject_Z n * val_split))))
     /\ (Z.max 1 (Qfloor (inject_Z n * val_split)) <= r.2.2
         <= Z.max 1 (Qfloor (inject_Z n * val_split) + 1))%Z)
  /\ (n = 0%Z -> r.2 = (0%Z, 0%Z))
  /\ NoDup srcs
  /\ (forall p, p ∈ srcs <-> matching_pair fs p)
  /\ (forall d img lab, ls fs d !! Pathlib.with_suffix img ".txt" = None ->
                        ((d, img), lab) ∉ srcs)
  /\ (forall i img lab, srcs !! i = Some (img, lab) ->
        is_Some (ls r.1 (YOLO_IMGS / split_of r.2.2 (Z.of_nat i))%path !! img.2)
        /\ is_Some (ls r.1 (YOLO_LABS / split_of r.2.2 (Z.of_nat i))%path !! lab.2))
  /\ (NoDup (label_names srcs) ->
      forall i img lab, srcs !! i = Some (img, lab) ->
        ls r.1 (YOLO_IMGS / split_of r.2.2 (Z.of_nat i))%path !! img.2
        = ls fs img.1 !! img.2
        /\ ls r.1 (YOLO_LABS / split_of r.2.2 (Z.of_nat i))%path !! lab.2
           = ls fs lab.1 !! lab.2)
  /\ splits_paired r.1.
Proof.
  apply (stage_prep_split_complete (@rev (path * path)) (Float.round64 0.15)
           (numbered_pairs 20)).
  - intros l. symmetry. apply Permutation_rev.
  - vm_compute. discriminate.
  - vm_compute. discriminate.
Defined.

(** The run on 20 pairs: at the default fraction they give 17 training
    and 3 validation pairs, each split directory holding as many files; at
    0.58 of 50 pairs, 28 go to validation where the decimal product 29.0
    would give 29. *)
Example stage_prep_twenty_pairs :
  let r := stage_prep (@rev (path * path)) (Float.round64 0.15) (numbered_pairs 20) in
  r.2 = (17%Z, 3%Z)
  /\ size (ls r.1 (YOLO_IMGS / "train")%path) = 17%nat
  /\ size (ls r.1 (YOLO_LABS / "train")%path) = 17%nat
  /\ size (ls r.1 (YOLO_IMGS / "val")%path) = 3%nat
  /\ size (ls r.1 (YOLO_LABS / "val")%path) = 3%nat
  /\ ls r.1 (YOLO_IMGS / "val")%path !! "0.jpg" = Some "image"
  /\ n_val_of 50 (Float.round64 0.58) = 28%Z.
Proof. cbv zeta. repeat split; vm_compute; reflexivity. Qed.

(** ** Frames of the incoming videos *)

Section Frames.
Local Open Scope Z_scope.

Lemma saved_upto_0 (step : Z) : 1 <= step -> saved_upto step 0 = 0.
Proof. intros Hs. unfold saved_upto. apply Z.div_small. lia. Qed.

Lemma saved_upto_succ (step c : Z) :
  1 <= step -> 0 <= c ->
  saved_upto step (c + 1) = saved_upto step c + (if c mod step =? 0 then 1 else 0).
Proof.
  intros Hs Hc. unfold saved_upto.
  pose proof (Z.div_mod c step ltac:(lia)) as Hdm.
  pose proof (Z.mod_pos_bound c step ltac:(lia)) as Hb.
  set (q := c / step) in *. set (r := c mod step) in *.
  assert (H1 : (c + 1 + step - 1) / step = q + 1).
  { symmetry. apply (Z.div_unique _ _ _ r); lia. }
  rewrite H1. destruct (Z.eqb_spec r 0) as [E|E].
  - assert (H2 : (c + step - 1) / step = q).
    { symmetry. apply (Z.div_unique _ _ _ (step - 1)); lia. }
    lia.
  - assert (H2 : (c + step - 1) / step = q + 1).
    { symmetry. apply (Z.div_unique _ _ _ (r - 1)); lia. }
    lia.
Qed.

Lemma frame_step_pos (fps every_n_sec : Q) : 1 <= frame_step fps every_n_sec.
Proof. unfold frame_step. lia. Qed.

(** A whole frame rate below [2 ^ 53] is a double, and its product with 1.0
    is itself. *)
Lemma frame_step_whole (f : Z) : 1 <= f < 2 ^ 53 -> frame_step (inject_Z f) 1 = f.
Proof.
  intros Hf. unfold frame_step.
  destruct (Qeq_bool (inject_Z f) 0) eqn:E.
  { apply Qeq_bool_eq in E. unfold Qeq in E. cbn in E. lia. }
  assert (E1 : (inject_Z f * 1 == inject_Z f)%Q) by apply Qmult_1_r.
  assert (Hlo : (inject_Z f <= Float.round64 (inject_Z f * 1))%Q).
  { apply round64_ge_int; [lia|]. rewrite E1. apply Qle_refl. }
  assert (Hhi : (Float.round64 (inject_Z f * 1) <= inject_Z f)%Q).
  { apply round64_le_int; [lia| |].
    - rewrite E1. unfold Qle. cbn. lia.
    - rewrite E1. apply Qle_refl. }
  apply round_half_even_ge in Hlo. apply round_half_even_le in Hhi. lia.
Qed.

Variable cv : opencv.
Variables out_dir stem : string.
Variable step : Z.
Hypothesis step_pos : 1 <= step.

Lemma grab_unfold (fs : filesystem) (c s : Z) (f : string) :
  grab cv out_dir stem step (fs, c, s) f
  = if c mod step =? 0
    then (match imwrite cv (frame_name stem c) f with
          | Some data => write_file out_dir (frame_name stem c) data fs
          | None => fs
          end, c + 1, s + 1)
    else (fs, c + 1, s).
Proof. reflexivity. Qed.

Lemma grab_loop_counts (frames : list string) (fs : filesystem) (c s : Z) :
  0 <= c ->
  let r := fold_left (grab cv out_dir stem step) frames (fs, c, s) in
  r.1.2 = c + Z.of_nat (length frames)
  /\ r.2 = s + saved_upto step (c + Z.of_nat (length frames)) - saved_upto step c.
Proof.
  revert fs c s. induction frames as [|f frames IH]; intros fs c s Hc; cbv zeta.
  - cbn [fold_left length fst snd]. rewrite Z.add_0_r. lia.
  - cbn [fold_left length]. rewrite grab_unfold.
    pose proof (saved_upto_succ step c step_pos Hc) as Hsucc.
    rewrite Nat2Z.inj_succ.
    replace (c + Z.succ (Z.of_nat (length frames)))
      with (c + 1 + Z.of_nat (length frames)) by lia.
    destruct (c mod step =? 0).
    + destruct (IH (match imwrite cv (frame_name stem c) f with
                    | Some data => write_file out_dir (frame_name stem c) data fs
                    | None => fs
                    end) (c + 1) (s + 1) ltac:(lia)) as [-> ->].
      split; lia.
    + destruct (IH fs (c + 1) s ltac:(lia)) as [-> ->]. split; lia.
Qed.

Lemma grab_loop_untouched (frames : list string) (fs : filesystem) (c s : Z)
    (d name : string) :
  (d = out_dir ->
   forall k, c <= k < c + Z.of_nat (length frames) -> k mod step = 0 ->
             name <> frame_name stem k) ->
  let r := fold_left (grab cv out_dir stem step) frames (fs, c, s) in
  ls r.1.1 d !! name = ls fs d !! name
  /\ hash_index r.1.1 = hash_index fs
  /\ LOG_CSV r.1.1 = LOG_CSV fs.
Proof.
  revert fs c s. induction frames as [|f frames IH]; intros fs c s Hfree; cbv zeta.
  - done.
  - cbn [fold_left length] in *. rewrite grab_unfold.
    destruct (Z.eqb_spec (c mod step) 0) as [E|E].
    + destruct (IH (match imwrite cv (frame_name stem c) f with
                    | Some data => write_file out_dir (frame_name stem c) data fs
                    | None => fs
                    end) (c + 1) (s + 1)) as (-> & -> & ->).
      { intros Hd k Hk. apply Hfree; [done|lia]. }
      destruct (imwrite cv (frame_name stem c) f) as [data|]; [|done].
      split; [|done]. apply write_file_lookup_ne. intros [<- <-].
      apply (Hfree eq_refl c); [lia|done|done].
    + apply IH. intros Hd k Hk. apply Hfree; [done|lia].
Qed.

End Frames.

Section FrameFiles.
Local Open Scope Z_scope.

Variable cv : opencv.
Variables out_dir stem : string.
Variable step : Z.

(** A file that differs after the reading loop is a frame file of the output
    directory. *)
Lemma grab_loop_changed (frames : list string) (fs : filesystem) (c s : Z)
    (d name : string) :
  let r := fold_left (grab cv out_dir stem step) frames (fs, c, s) in
  ls r.1.1 d !! name <> ls fs d !! name ->
  d = out_dir
  /\ exists k, c <= k < c + Z.of_nat (length frames) /\ k mod step = 0
               /\ name = frame_name stem k.
Proof.
  revert fs c s. induction frames as [|f frames IH]; intros fs c s; cbv zeta.
  - cbn [fold_left fst]. intros H. by destruct H.
  - cbn [fold_left length]. rewrite Nat2Z.inj_succ. intros Hne.
    set (st1 := grab cv out_dir stem step (fs, c, s) f) in *.
    assert (Hc1 : st1.1.2 = c + 1).
    { subst st1. rewrite grab_unfold. by destruct (c mod step =? 0). }
    destruct (decide (ls st1.1.1 d !! name = ls fs d !! name)) as [E|E].
    + destruct st1 as [[fs1 c1] s1]. cbn [fst snd] in *. subst c1.
      rewrite <- E in Hne. apply IH in Hne as (-> & k & Hk & Hm & ->).
      split; [done|]. exists k. split; [lia|done].
    + subst st1. rewrite grab_unfold in E.
      destruct (Z.eqb_spec (c mod step) 0) as [Hm|Hm]; [|by destruct E].
      cbn [fst] in E.
      destruct (imwrite cv (frame_name stem c) f) as [data|]; [|by destruct E].
      destruct (decide (out_dir = d /\ frame_name stem c = name)) as [[<- <-]|Hn].
      * split; [done|]. exists c. split; [lia|done].
      * destruct E. by apply write_file_lookup_ne.
Qed.

End FrameFiles.

Lemma suffix_jpg (s : string) : s <> "" -> Pathlib.suffix (s +:+ ".jpg") = ".jpg".
Proof.
  intros Hs. unfold Pathlib.suffix.
  rewrite (rfind_app_some "." s ".jpg" 0) by reflexivity.
  assert (Hlen : (0 < String.length s)%nat).
  { destruct s; [done|]. cbn. lia. }
  unfold Pathlib.splits. rewrite length_app_string, Nat.add_0_r.
  cbn [String.length].
  destruct (Nat.ltb_spec 0 (String.length s)); [|lia].
  destruct (Nat.ltb_spec (String.length s) (String.length s + 4 - 1)); [|lia].
  cbn [andb].
  replace (String.length s + 4 - String.length s)%nat
    with (String.length ".jpg") by (cbn; lia).
  apply substring_app_drop.
Qed.

(** A frame file is an image for the copy loop of the stage. *)
Lemma is_image_frame_name (stem : string) (k : Z) : is_image (frame_name stem k) = true.
Proof.
  unfold is_image, frame_name. rewrite suffix_jpg; [reflexivity|].
  intros E. apply (f_equal String.length) in E.
  rewrite !length_app_string in E. cbn in E. lia.
Qed.

(** X18. [video_to_frames] returns 0 and leaves the file system as it is
    when the video cannot be opened; otherwise it returns the number of
    multiples of [step] among the indices of the frames read,
    [ceil(n / step)], whether or not [cv2.imwrite] wrote the files; [step],
    the double product [fps * every_n_sec] rounded to the nearest integer, is
    at least 1, and it is the frame rate itself when the rate is a whole
    number of frames per second (below [2 ^ 53]) and one frame per second is
    asked for. *)
Theorem video_to_frames_saved (cv : opencv) (video : string * string) (out_dir : string)
    (every_n_sec : Q) (fs : filesystem) :
  match open_video cv video.1 video.2 with
  | None => video_to_frames cv video out_dir every_n_sec fs = (fs, 0%Z)
  | Some cap =>
      let step := frame_step (cap_fps cap) every_n_sec in
      (1 <= step)%Z
      /\ (video_to_frames cv video out_dir every_n_sec fs).2
         = ((Z.of_nat (length (cap_frames cap)) + step - 1) / step)%Z
  end
  /\ forall f : Z, (1 <= f < 2 ^ 53)%Z -> frame_step (inject_Z f) 1 = f.
Proof.
  split.
  - unfold video_to_frames. destruct (open_video cv video.1 video.2) as [cap|]; [|done].
    cbv zeta. split; [apply frame_step_pos|].
    pose proof (grab_loop_counts cv out_dir (Pathlib.stem video.1)
                  (frame_step (cap_fps cap) every_n_sec)
                  (frame_step_pos _ _) (cap_frames cap) fs 0%Z 0%Z ltac:(lia)) as H.
    cbv zeta in H.
    destruct (fold_left _ (cap_frames cap) (fs, 0%Z, 0%Z)) as [[fs' c'] s'].
    cbn [fst snd] in *. destruct H as [_ ->].
    rewrite saved_upto_0 by apply frame_step_pos. unfold saved_upto.
    rewrite Z.add_0_l, Z.add_0_l, Z.sub_0_r. reflexivity.
  - apply frame_step_whole.
Qed.

Lemma video_to_frames_changed (cv : opencv) (video : string * string) (out_dir : string)
    (every_n_sec : Q) (fs : filesystem) (d name : string) :
  ls (video_to_frames cv video out_dir every_n_sec fs).1 d !! name <> ls fs d !! name ->
  d = out_dir
  /\ exists cap k,
       open_video cv video.1 video.2 = Some cap
       /\ (0 <= k < Z.of_nat (length (cap_frames cap)))%Z
       /\ (k mod frame_step (cap_fps cap) every_n_sec = 0)%Z
       /\ name = frame_name (Pathlib.stem video.1) k.
Proof.
  unfold video_to_frames.
  destruct (open_video cv video.1 video.2) as [cap|]; [|intros H; by destruct H].
  cbv zeta.
  pose proof (grab_loop_changed cv out_dir (Pathlib.stem video.1)
                (frame_step (cap_fps cap) every_n_sec) (cap_frames cap) fs 0%Z 0%Z d name)
    as H.
  cbv zeta in H.
  destruct (fold_left _ (cap_frames cap) (fs, 0%Z, 0%Z)) as [[fs' c'] s'].
  cbn [fst snd] in *. intros Hne. apply H in Hne as (-> & k & Hk & Hm & ->).
  split; [done|]. exists cap, k. split; [done|]. split; [lia|done].
Qed.

Lemma grab_loop_meta (cv : opencv) (out_dir stem : string) (step : Z)
    (frames : list string) (fs : filesystem) (c s : Z) :
  let r := fold_left (grab cv out_dir stem step) frames (fs, c, s) in
  hash_index r.1.1 = hash_index fs /\ LOG_CSV r.1.1 = LOG_CSV fs.
Proof.
  revert fs c s. induction frames as [|f frames IH]; intros fs c s; cbv zeta; [done|].
  cbn [fold_left]. rewrite grab_unfold.
  destruct (c mod step =? 0)%Z; [|apply IH].
  destruct (IH (match imwrite cv (frame_name stem c) f with
                | Some data => write_file out_dir (frame_name stem c) data fs
                | None => fs
                end) (c + 1)%Z (s + 1)%Z) as [-> ->].
  by destruct (imwrite cv (frame_name stem c) f).
Qed.

Lemma video_to_frames_meta (cv : opencv) (video : string * string) (out_dir : string)
    (every_n_sec : Q) (fs : filesystem) :
  hash_index (video_to_frames cv video out_dir every_n_sec fs).1 = hash_index fs
  /\ LOG_CSV (video_to_frames cv video out_dir every_n_sec fs).1 = LOG_CSV fs.
Proof.
  unfold video_to_frames.
  destruct (open_video cv video.1 video.2) as [cap|]; [|done]. cbv zeta.
  pose proof (grab_loop_meta cv out_dir (Pathlib.stem video.1)
                (frame_step (cap_fps cap) every_n_sec) (cap_frames cap) fs 0%Z 0%Z) as H.
  cbv zeta in H.
  destruct (fold_left _ (cap_frames cap) (fs, 0%Z, 0%Z)) as [[fs' c'] s'].
  exact H.
Qed.

(** X19. [video_to_frames] only writes frame files: a file that is new or
    has other bytes afterwards is in [out_dir], its name is
    [<stem>_f<index>.jpg] for the index of a frame read that is a multiple
    of [step], and it has an image suffix, so the copy loop of the stage
    takes it; the hash index and the run log are as before. *)
Theorem video_to_frames_writes (cv : opencv) (video : string * string) (out_dir : string)
    (every_n_sec : Q) (fs : filesystem) :
  let r := video_to_frames cv video out_dir every_n_sec fs in
  hash_index r.1 = hash_index fs
  /\ LOG_CSV r.1 = LOG_CSV fs
  /\ forall d name,
       ls r.1 d !! name <> ls fs d !! name ->
       d = out_dir
       /\ is_image name = true
       /\ exists cap k,
            open_video cv video.1 video.2 = Some cap
            /\ (0 <= k < Z.of_nat (length (cap_frames cap)))%Z
            /\ (k mod frame_step (cap_fps cap) every_n_sec = 0)%Z
            /\ name = frame_name (Pathlib.stem video.1) k.
Proof.
  cbv zeta. destruct (video_to_frames_meta cv video out_dir every_n_sec fs) as [-> ->].
  split; [done|]. split; [done|]. intros d name Hne.
  apply video_to_frames_changed in Hne as (-> & cap & k & Ho & Hk & Hm & ->).
  split; [done|]. split; [apply is_image_frame_name|]. eauto 10.
Qed.

(** ** The stage with its videos *)

Lemma extract_loop_changed (cv : opencv) (vids : list (string * string)) (fs : filesystem)
    (d name : string) :
  ls (fold_left (extract_one cv) vids fs) d !! name <> ls fs d !! name ->
  d = INCOMING_IMG
  /\ exists vp k, vp ∈ vids /\ is_video vp.1 = true
                  /\ is_Some (open_video cv vp.1 vp.2)
                  /\ name = frame_name (Pathlib.stem vp.1) k.
Proof.
  revert fs. induction vids as [|vp vids IH]; intros fs Hne; [by destruct Hne|].
  cbn [fold_left] in Hne.
  destruct (decide (ls (extract_one cv fs vp) d !! name = ls fs d !! name)) as [E|E].
  - rewrite <- E in Hne. apply IH in Hne as (-> & vp' & k & Hin & Hv & Ho & ->).
    split; [done|]. exists vp', k. split; [by right|done].
  - unfold extract_one in E. destruct (is_video vp.1) eqn:Hv; [|by destruct E].
    cbn [negb] in E.
    apply video_to_frames_changed in E as (-> & cap & k & Ho & _ & _ & ->).
    split; [done|]. exists vp, k. split; [by left|]. split; [done|]. split; [eauto|done].
Qed.

Lemma extract_loop_meta (cv : opencv) (vids : list (string * string)) (fs : filesystem) :
  hash_index (fold_left (extract_one cv) vids fs) = hash_index fs
  /\ LOG_CSV (fold_left (extract_one cv) vids fs) = LOG_CSV fs.
Proof.
  revert fs. induction vids as [|vp vids IH]; intros fs; [done|].
  cbn [fold_left]. destruct (IH (extract_one cv fs vp)) as [-> ->].
  unfold extract_one. destruct (is_video vp.1); [|done].
  apply video_to_frames_meta.
Qed.

Lemma extract_loop_idle (cv : opencv) (vids : list (string * string)) (fs : filesystem) :
  (forall vp, vp ∈ vids -> is_video vp.1 = true -> open_video cv vp.1 vp.2 = None) ->
  fold_left (extract_one cv) vids fs = fs.
Proof.
  revert fs. induction vids as [|vp vids IH]; intros fs Hno; [done|].
  cbn [fold_left].
  assert (E : extract_one cv fs vp = fs).
  { unfold extract_one. destruct (is_video vp.1) eqn:Hv; [|done]. cbn [negb].
    unfold video_to_frames. rewrite (Hno vp); [done|by left|done]. }
  rewrite E. apply IH. intros vp' Hin. apply Hno. by right.
Qed.

(** X20. The stage with its videos. The first loop only adds frame files to
    the incoming images: a file that is new or has other bytes after it is in
    [INCOMING_IMG], has an image suffix and is named after a file of
    [INCOMING_VID] with a video suffix that could be opened. The whole stage
    leaves every directory but [INCOMING_IMG] and the unlabeled pool, and the
    run log, as they were, and no name leaves the pool. When no file of
    [INCOMING_VID] with a video suffix can be opened (in particular when there
    is none), the stage is the copy of the incoming images alone. *)
Theorem stage_ingest_videos_frame (cv : opencv) (fs : filesystem) :
  (forall d name,
     ls (extract_videos cv fs) d !! name <> ls fs d !! name ->
     d = INCOMING_IMG
     /\ is_image name = true
     /\ exists vname vbytes k,
          ls fs INCOMING_VID !! vname = Some vbytes
          /\ is_video vname = true
          /\ is_Some (open_video cv vname vbytes)
          /\ name = frame_name (Pathlib.stem vname) k)
  /\ (forall d, d <> INCOMING_IMG -> d <> UNLABELED_DIR ->
                ls (stage_ingest_videos cv fs).1 d = ls fs d)
  /\ LOG_CSV (stage_ingest_videos cv fs).1 = LOG_CSV fs
  /\ (forall n, is_Some (ls fs UNLABELED_DIR !! n) ->
                is_Some (ls (stage_ingest_videos cv fs).1 UNLABELED_DIR !! n))
  /\ ((forall vname vbytes, ls fs INCOMING_VID !! vname = Some vbytes ->
                            is_video vname = true ->
                            open_video cv vname vbytes = None) ->
      stage_ingest_videos cv fs = stage_ingest fs).
Proof.
  assert (Hchanged : forall d name,
            ls (extract_videos cv fs) d !! name <> ls fs d !! name -> d = INCOMING_IMG).
  { intros d name Hne. unfold extract_videos in Hne.
    by apply extract_loop_changed in Hne as [-> _]. }
  assert (Hsame : forall d, d <> INCOMING_IMG -> ls (extract_videos cv fs) d = ls fs d).
  { intros d Hd. apply map_eq. intros name.
    destruct (decide (ls (extract_videos cv fs) d !! name = ls fs d !! name)) as [E|E];
      [done|]. by apply Hchanged in E. }
  split; [|split; [|split; [|split]]].
  - intros d name Hne. unfold extract_videos in Hne.
    apply extract_loop_changed in Hne as (-> & [vname vbytes] & k & Hin & Hv & Ho & ->).
    split; [done|]. split; [apply is_image_frame_name|].
    apply elem_of_sorted_glob in Hin. exists vname, vbytes, k. done.
  - intros d Hd1 Hd2. unfold stage_ingest_videos. rewrite stage_ingest_unfold. cbn [fst].
    rewrite ls_set_hash_index, ls_set_dir_ne by done. by apply Hsame.
  - unfold stage_ingest_videos. rewrite stage_ingest_unfold. cbn [fst LOG_CSV].
    unfold extract_videos. apply extract_loop_meta.
  - intros n Hn. unfold stage_ingest_videos. rewrite stage_ingest_pool. unfold ingest_loop.
    apply (ingest_loop_pool_kept (sorted (glob (extract_videos cv fs) INCOMING_IMG))
             (default ∅ (hash_index (extract_videos cv fs)),
              ls (extract_videos cv fs) UNLABELED_DIR, []) n).
    cbn [fst snd]. rewrite Hsame; [done|]. dir_ne.
  - intros Hno. unfold stage_ingest_videos, extract_videos.
    rewrite extract_loop_idle; [done|].
    intros [vname vbytes] Hin Hv. apply elem_of_sorted_glob in Hin. by apply (Hno vname vbytes).
Qed.

(** The step comes from the rounded product: at 25 frames per second and a
    frame every 0.1 s the doubles multiply to 2.5, which [round] takes to 2,
    while the product of 25 and the decimal 0.1 is above 2.5. Of ten frames
    five are saved. *)
Example frame_step_rounded_product :
  frame_step 25 (Float.round64 0.1) = 2%Z
  /\ round_half_even (25 * Float.round64 0.1) = 3%Z
  /\ (video_to_frames (OpenCV (fun _ _ => Some (Capture 25%Q (repeat "F" 10)))
                                (fun _ frame => Some frame))
                       ("clip.mp4", "V") INCOMING_IMG (Float.round64 0.1)
                       (Filesystem ∅ None None)).2 = 5%Z.
Proof. repeat split; vm_compute; reflexivity. Qed.

(** A suffix written with U+212A KELVIN SIGN is a video suffix for
    [str.lower], and [stage_ingest] extracts the frames of such a file. *)
Example is_video_kelvin_sign :
  is_video ("clip.M" +:+ kelvin_sign +:+ "V") = true
  /\ is_video "clip.MKV" = true
  /\ is_video "clip.txt" = false
  /\ map_to_list (ls (stage_ingest_videos two_seconds
                        (tree_with INCOMING_VID [("clip.M" +:+ kelvin_sign +:+ "V", "V")])).1
                     UNLABELED_DIR)
     = [("clip_f000000.jpg", "F")].
Proof. repeat split; vm_compute; reflexivity. Qed.

Example video_to_frames_example :
  let r := video_to_frames two_seconds ("clip.mp4", "V") INCOMING_IMG 1%Q
             (Filesystem ∅ None None) in
  r.2 = 3%Z
  /\ size (ls r.1 INCOMING_IMG) = 3%nat
  /\ ls r.1 INCOMING_IMG !! "clip_f000000.jpg" = Some "F"
  /\ ls r.1 INCOMING_IMG !! "clip_f000030.jpg" = Some "F"
  /\ ls r.1 INCOMING_IMG !! "clip_f000060.jpg" = Some "F".
Proof. vm_compute. auto. Qed.

(** ** The annotation files written by [write_yolo_labels] *)

Lemma count_char_app (a : ascii) (s t : string) :
  count_char a (s +:+ t) = (count_char a s + count_char a t)%nat.
Proof. induction s as [|b s IH]; simpl; [done|]. rewrite IH. lia. Qed.

Section LabelFormat.

(** A character below ["-"]: the space and the line feed are. *)
Variable c : ascii.
Hypothesis c_low : (nat_of_ascii c < 45)%nat.

Lemma low_ne (a : ascii) : (45 <= nat_of_ascii a)%nat -> Ascii.eqb a c = false.
Proof.
  intros Ha. apply Ascii.eqb_neq. intros ->. lia.
Qed.

Lemma count_char_nilempty (d : Decimal.uint) :
  count_char c (NilEmpty.string_of_uint d) = 0%nat.
Proof.
  induction d; cbn [NilEmpty.string_of_uint count_char]; [done|..];
    rewrite IHd, low_ne; first [done | apply Nat.leb_le; reflexivity].
Qed.

Lemma count_char_uint (d : Decimal.uint) :
  count_char c (NilZero.string_of_uint d) = 0%nat.
Proof.
  destruct d; [|apply count_char_nilempty..].
  change (NilZero.string_of_uint Decimal.Nil) with "0".
  cbn [count_char]. rewrite low_ne; [done|apply Nat.leb_le; reflexivity].
Qed.

Lemma count_char_str_int (z : Z) : count_char c (str_int z) = 0%nat.
Proof.
  unfold str_int, NilZero.string_of_int. destruct (Z.to_int z) as [d|d].
  - apply count_char_uint.
  - cbn [count_char]. rewrite count_char_uint, low_ne; [done|apply Nat.leb_le; reflexivity].
Qed.

Lemma count_char_digits (n : nat) (x : Z) (acc : string) :
  count_char c (digits n x acc) = count_char c acc.
Proof.
  revert x acc. induction n as [|n IH]; intros x acc; cbn [digits]; [done|].
  rewrite IH. cbn [count_char]. rewrite low_ne; [done|].
  pose proof (Z.mod_pos_bound x 10 ltac:(lia)) as Hb.
  rewrite nat_ascii_embedding; lia.
Qed.

Lemma count_char_format_f (prec : nat) (x : Q) : count_char c (format_f prec x) = 0%nat.
Proof.
  unfold format_f. cbv zeta. rewrite !count_char_app, count_char_uint.
  assert (H1 : count_char c (if Qltb x 0 then "-" else "") = 0%nat).
  { destruct (Qltb x 0); [|done]. cbn [count_char]. rewrite low_ne; [done|apply Nat.leb_le; reflexivity]. }
  rewrite H1. destruct prec as [|p]; [done|].
  rewrite count_char_app, count_char_digits. cbn [count_char].
  rewrite low_ne; [done|apply Nat.leb_le; reflexivity].
Qed.

End LabelFormat.

Lemma yolo_line_fields (b : Q * Q * Q * Q) (k : Z) :
  count_char " " (yolo_line b k) = 4%nat
  /\ count_char (ascii_of_nat 10) (yolo_line b k) = 0%nat.
Proof.
  destruct b as [[[x y] w] h]. unfold yolo_line.
  rewrite !count_char_app.
  rewrite !(count_char_str_int " "), !(count_char_format_f " ") by (apply Nat.ltb_lt; reflexivity).
  rewrite !(count_char_str_int (ascii_of_nat 10)),
          !(count_char_format_f (ascii_of_nat 10)) by (apply Nat.ltb_lt; reflexivity).
  split; reflexivity.
Qed.

Lemma join_lines_count (lines : list string) :
  Forall (fun l => count_char " " l = 4%nat /\ count_char (ascii_of_nat 10) l = 0%nat) lines ->
  count_char " " (join (String (ascii_of_nat 10) "") lines) = (4 * length lines)%nat
  /\ count_char (ascii_of_nat 10) (join (String (ascii_of_nat 10) "") lines)
     = (length lines - 1)%nat.
Proof.
  induction lines as [|l lines IH]; intros Hall; [done|].
  apply Forall_cons in Hall as [[Hs Hn] Hall]. specialize (IH Hall).
  destruct lines as [|l' lines].
  - cbn [join length]. rewrite Hs, Hn. done.
  - destruct IH as [IH1 IH2].
    change (join (String (ascii_of_nat 10) "") (l :: l' :: lines))
      with (l +:+ String (ascii_of_nat 10) "" +:+ join (String (ascii_of_nat 10) "") (l' :: lines)).
    rewrite !count_char_app, Hs, Hn, IH1, IH2. cbn [length count_char]. split.
    + change (Ascii.eqb (ascii_of_nat 10) " ") with false. cbv iota. lia.
    + change (Ascii.eqb (ascii_of_nat 10) (ascii_of_nat 10)) with true. cbv iota. lia.
Qed.

(** X21. The text [write_yolo_labels] writes has one line per pair of a box
    and a class (the shorter of the two arrays decides): each line has
    exactly four spaces, so five fields, the lines are separated by single
    line feeds with none at the end, and with no pair the text is empty. *)
Theorem yolo_labels_format (boxes_xywhn : list (Q * Q * Q * Q)) (cls_ids : list Z) :
  let n := Nat.min (length boxes_xywhn) (length cls_ids) in
  count_char (ascii_of_nat 10) (yolo_labels boxes_xywhn cls_ids) = (n - 1)%nat
  /\ count_char " " (yolo_labels boxes_xywhn cls_ids) = (4 * n)%nat
  /\ (n = 0%nat -> yolo_labels boxes_xywhn cls_ids = "")
  /\ forall b k, count_char " " (yolo_line b k) = 4%nat
                 /\ count_char (ascii_of_nat 10) (yolo_line b k) = 0%nat.
Proof.
  cbv zeta. unfold yolo_labels.
  destruct (join_lines_count (zip_with yolo_line boxes_xywhn cls_ids)) as [H1 H2].
  { apply Forall_forall. intros l Hl. apply elem_of_lookup_zip_with in Hl
      as (i & b & k & -> & _ & _). apply yolo_line_fields. }
  rewrite length_zip_with in H1, H2.
  split; [exact H2|]. split; [exact H1|]. split; [|apply yolo_line_fields].
  intros Hn. destruct (zip_with yolo_line boxes_xywhn cls_ids) as [|l ls] eqn:E; [done|].
  apply (f_equal length) in E. rewrite length_zip_with in E. cbn in E. lia.
Qed.
